(** * utils.py: marker matching, feature selection, identifier remapping
      and batch composition

    A shallow embedding of the pure logic of [src/utils.py]:

    - [Re]       the fragment of Python's [re] module the functions call
                 ([re.compile], [Pattern.search]) on ASCII text;
    - [Markers]  [check_markers] and [plot_markers];
    - [Mgi]      the table manipulation of [map_to_mgi];
    - [Batch]    [cluster_distr], its divisions and roundings in
                 binary64, with the entropy function of scipy as a
                 parameter.

    Python dictionaries are [gmap]s, lists are lists, [None]/NaN is
    [option], exceptions are the [Raise] branch of [result], and [print]
    and plotting calls are events emitted into a log. *)

From Stdlib Require Import String Ascii List ZArith QArith Qround Qabs Qpower Lia Lqa.
From stdpp Require Import gmap strings list fin_maps pretty.

(** ** Exceptions and results *)

(** The exceptions the modelled functions can end with.  [ValueError]
    carries the message of the [raise] statement; [ReError] is what
    [re.compile] raises, [TypeError] what a call with the wrong number of
    arguments raises.  [Unmodelled] is not an exception of the program:
    it ends a run of the model at a call of [re.compile] with a pattern
    outside the syntax the model reads, and the model says nothing about
    how the program goes on from there. *)
Inductive exn : Type :=
| ValueError (msg : string)
| TypeError
| ReError
| Unmodelled.

Inductive result (A : Type) : Type :=
| Ok (a : A)
| Raise (e : exn).

Arguments Ok {A} a.
Arguments Raise {A} e.

Definition bind {A B : Type} (x : result A) (f : A -> result B) : result B :=
  match x with
  | Ok a => f a
  | Raise e => Raise e
  end.

Definition is_ValueError {A : Type} (x : result A) : bool :=
  match x with
  | Raise (ValueError _) => true
  | _ => false
  end.

(** ** The regular expressions of Python's [re], on ASCII text *)

Module Re.

(** Abstract syntax of the supported patterns: literals, [.], [^], [$],
    grouping, alternation and the greedy quantifiers. *)
Inductive regex : Type :=
| Eps
| Chr (c : ascii)
| Any
| Bol
| Eol
| Cat (r1 r2 : regex)
| Alt (r1 r2 : regex)
| Star (r : regex).

Definition newline : ascii := "010"%char.

(** ASCII lower-casing, the case folding [re.IGNORECASE] applies to
    ASCII letters. *)
Definition lower (c : ascii) : ascii :=
  let n := nat_of_ascii c in
  if (65 <=? n)%nat && (n <=? 90)%nat then ascii_of_nat (n + 32) else c.

Definition chr_eqb (ic : bool) (a b : ascii) : bool :=
  if ic then Ascii.eqb (lower a) (lower b) else Ascii.eqb a b.

(** *** Matching *)

(** [star_iter step n front]: the positions reachable from [front] by at
    most [n] iterations of [step], each of which consumes input. *)
Fixpoint star_iter (step : nat -> list nat) (n : nat) (front : list nat)
  : list nat :=
  match n with
  | O => front
  | S n' =>
      front ++
      star_iter step n'
        (flat_map (fun p => List.filter (fun q => (p <? q)%nat) (step p)) front)
  end.

Section Matching.

Variable ic : bool.
Variable s : list ascii.

(** [$] without [re.MULTILINE]: the end of the text, or just before a
    newline that ends the text. *)
Definition at_end (i : nat) : bool :=
  (i =? length s)%nat ||
  ((S i =? length s)%nat &&
   match nth_error s i with
   | Some d => Ascii.eqb d newline
   | None => false
   end).

(** [ends r i]: every position where a match of [r] that starts at
    position [i] of [s] can end. *)
Fixpoint ends (r : regex) (i : nat) : list nat :=
  match r with
  | Eps => [i]
  | Chr c =>
      match nth_error s i with
      | Some d => if chr_eqb ic c d then [S i] else []
      | None => []
      end
  | Any =>
      match nth_error s i with
      | Some d => if Ascii.eqb d newline then [] else [S i]
      | None => []
      end
  | Bol => if (i =? 0)%nat then [i] else []
  | Eol => if at_end i then [i] else []
  | Cat r1 r2 => flat_map (ends r2) (ends r1 i)
  | Alt r1 r2 => ends r1 i ++ ends r2 i
  | Star r1 => star_iter (ends r1) (length s) [i]
  end.

Definition matches_at (r : regex) (i : nat) : bool :=
  match ends r i with
  | [] => false
  | _ :: _ => true
  end.

(** [Pattern.search]: a match starting anywhere in the text. *)
Definition search_from (r : regex) : bool :=
  existsb (matches_at r) (seq 0 (S (length s))).

(** [Pattern.fullmatch]: a match of the whole text. *)
Definition fullmatch_from (r : regex) : bool :=
  existsb (Nat.eqb (length s)) (ends r 0).

(** The declarative reading of a pattern, against which [ends] is
    checked: [rmatch r i j] when [r] matches the text from position [i]
    to position [j]. *)
Inductive rmatch : regex -> nat -> nat -> Prop :=
| MEps i : rmatch Eps i i
| MChr c d i :
    nth_error s i = Some d -> chr_eqb ic c d = true ->
    rmatch (Chr c) i (S i)
| MAny d i :
    nth_error s i = Some d -> Ascii.eqb d newline = false ->
    rmatch Any i (S i)
| MBol : rmatch Bol 0 0
| MEol i : at_end i = true -> rmatch Eol i i
| MCat r1 r2 i j k :
    rmatch r1 i j -> rmatch r2 j k -> rmatch (Cat r1 r2) i k
| MAltL r1 r2 i j : rmatch r1 i j -> rmatch (Alt r1 r2) i j
| MAltR r1 r2 i j : rmatch r2 i j -> rmatch (Alt r1 r2) i j
| MStarNil r1 i : rmatch (Star r1) i i
| MStarCons r1 i j k :
    rmatch r1 i j -> rmatch (Star r1) j k -> rmatch (Star r1) i k.

End Matching.

(** [chain step m p k]: [k] is reached from [p] by [m] steps, each to a
    later position. *)
Inductive chain (step : nat -> list nat) : nat -> nat -> nat -> Prop :=
| ChainNil p : chain step 0 p p
| ChainCons m p q k :
    In q (step p) -> (p < q)%nat -> chain step m q k ->
    chain step (S m) p k.

(** *** Parsing *)

(** What a quantifier may follow: a plain item can be repeated, an
    assertion ([^], [$]) or an already quantified item cannot. *)
Inductive ikind : Type := KAtom | KAssert | KRepeat.

(** One open group: the alternatives closed so far and the items of the
    current alternative, most recent first. *)
Record frame : Type := Frame {
  alts : list regex;
  cur : list (regex * ikind)
}.

Definition empty_frame : frame := Frame [] [].

Definition mk_cat (l : list regex) : regex := fold_right Cat Eps l.

Definition close_branch (f : frame) : regex := mk_cat (rev (map fst (cur f))).

Definition close_frame (f : frame) : regex :=
  fold_right Alt (close_branch f) (alts f).

Definition push (r : regex) (k : ikind) (f : frame) : frame :=
  Frame (alts f) ((r, k) :: cur f).

Definition quantify (c : ascii) (r : regex) : regex :=
  if Ascii.eqb c "*" then Star r
  else if Ascii.eqb c "+" then Cat r (Star r)
  else Alt r Eps.

Definition is_alnum (c : ascii) : bool :=
  let n := nat_of_ascii c in
  ((48 <=? n) && (n <=? 57) || (65 <=? n) && (n <=? 90) ||
   (97 <=? n) && (n <=? 122))%nat.

Definition is_ascii (c : ascii) : bool := (nat_of_ascii c <? 128)%nat.

(** The characters with a meaning of their own in a pattern. *)
Definition is_special (c : ascii) : bool :=
  existsb (Ascii.eqb c)
    (list_ascii_of_string ".^$*+?{}[]\|()").

(** The state of the reader: the enclosing open groups, the innermost
    one, and whether the previous character was a backslash. *)
Record pstate : Type := PState {
  stack : list frame;
  top : frame;
  esc : bool
}.

Definition init : pstate := PState [] empty_frame false.

(** Continue in the same group, now [f]. *)
Definition put (st : pstate) (f : frame) : pstate := PState (stack st) f false.

(** [step c st]: read the character [c].  [None]: the reader stops,
    at a pattern [re.compile] rejects (unbalanced parenthesis, nothing
    to repeat, multiple repeat) or at one outside the syntax read here
    (character classes, counted, lazy and possessive repeats, [(?...)]
    groups, escapes of letters and digits, characters beyond ASCII);
    [rejected] below tells the two apart.  A closing bracket or brace on
    its own is a literal. *)
Definition step (c : ascii) (st : pstate) : option pstate :=
  if esc st then
    if is_ascii c && negb (is_alnum c)
    then Some (put st (push (Chr c) KAtom (top st)))
    else None
  else if Ascii.eqb c "\" then Some (PState (stack st) (top st) true)
  else if Ascii.eqb c "(" then
    Some (PState (top st :: stack st) empty_frame false)
  else if Ascii.eqb c ")" then
    match stack st with
    | parent :: stack' =>
        Some (PState stack' (push (close_frame (top st)) KAtom parent) false)
    | [] => None
    end
  else if Ascii.eqb c "|" then
    Some (put st (Frame (alts (top st) ++ [close_branch (top st)]) []))
  else if Ascii.eqb c "*" || Ascii.eqb c "+" || Ascii.eqb c "?" then
    match cur (top st) with
    | (r, KAtom) :: rest =>
        Some (put st (Frame (alts (top st)) ((quantify c r, KRepeat) :: rest)))
    | _ => None
    end
  else if Ascii.eqb c "." then Some (put st (push Any KAtom (top st)))
  else if Ascii.eqb c "^" then Some (put st (push Bol KAssert (top st)))
  else if Ascii.eqb c "$" then Some (put st (push Eol KAssert (top st)))
  else if Ascii.eqb c "[" || Ascii.eqb c "{" || negb (is_ascii c) then None
  else Some (put st (push (Chr c) KAtom (top st))).

Fixpoint run (cs : list ascii) (st : pstate) : option pstate :=
  match cs with
  | [] => Some st
  | c :: cs' =>
      match step c st with
      | Some st' => run cs' st'
      | None => None
      end
  end.

(** The pattern is complete when no escape and no group is left open. *)
Definition finish (st : pstate) : option regex :=
  if esc st then None
  else match stack st with
       | [] => Some (close_frame (top st))
       | _ :: _ => None
       end.

Definition parse (cs : list ascii) : option regex :=
  match run cs init with
  | Some st => finish st
  | None => None
  end.

(** The items of a pattern that is one sequence, without an alternation
    at its top level. *)
Definition branch_of (st : pstate) : option (list regex) :=
  if esc st then None
  else match stack st, alts (top st) with
       | [], [] => Some (rev (map fst (cur (top st))))
       | _, _ => None
       end.

Definition branch (p : string) : option (list regex) :=
  match run (list_ascii_of_string p) init with
  | Some st => branch_of st
  | None => None
  end.




(** *** The interface the program uses *)

(** A compiled pattern object: the expression and its [re.IGNORECASE]
    flag. *)
Record pattern : Type := Pattern {
  rx : regex;
  ignorecase : bool
}.

(** [rejected c st]: the reader stops at [c] because [re.compile]
    rejects the pattern there: a closing parenthesis without an open
    group, or a quantifier with nothing to repeat (at the start of the
    pattern, of a group or of an alternative, or after [^] or [$]) or a
    [*] after a quantifier.  Where the reader stops for another reason,
    the pattern is outside the syntax it reads: an escaped letter or
    digit, a character class, a brace, [(?], a [?] or [+] after a
    quantifier, a character beyond ASCII. *)
Definition rejected (c : ascii) (st : pstate) : bool :=
  if esc st then false
  else if Ascii.eqb c ")" then
    match stack st with
    | [] => true
    | _ :: _ => false
    end
  else if Ascii.eqb c "*" || Ascii.eqb c "+" || Ascii.eqb c "?" then
    match cur (top st) with
    | (_, KAtom) :: _ => false
    | (_, KAssert) :: _ => true
    | (_, KRepeat) :: _ => Ascii.eqb c "*"
    | [] =>
        match alts (top st), stack st with
        | [], _ :: _ => negb (Ascii.eqb c "?")
        | _, _ => true
        end
    end
  else false.

(** [rejects p]: [re.compile] raises [re.error] for [p], at the first
    character the reader stops at or, for a pattern read to its end, for
    the escape or the group left open. *)
Fixpoint run_rejects (cs : list ascii) (st : pstate) : bool :=
  match cs with
  | [] =>
      match finish st with
      | Some _ => false
      | None => true
      end
  | c :: cs' =>
      match step c st with
      | Some st' => run_rejects cs' st'
      | None => rejected c st
      end
  end.

Definition rejects (p : string) : bool :=
  run_rejects (list_ascii_of_string p) init.

(** [re.compile(p, re.IGNORECASE)] when [ic], [re.compile(p)] otherwise:
    the compiled pattern, [re.error], or no answer for a pattern outside
    the syntax read. *)
Definition compile (p : string) (ic : bool) : result pattern :=
  match parse (list_ascii_of_string p) with
  | Some r => Ok (Pattern r ic)
  | None => if rejects p then Raise ReError else Raise Unmodelled
  end.

(** The truth value of [pat.search(l)]: a match object is true, [None]
    is false. *)
Definition search (pat : pattern) (l : string) : bool :=
  search_from (ignorecase pat) (list_ascii_of_string l) (rx pat).



(** [valid p]: [p] is a pattern of the syntax read here, and
    [re.compile] accepts it (with any flags). *)
Definition valid (p : string) : bool :=
  match parse (list_ascii_of_string p) with
  | Some _ => true
  | None => false
  end.

(** [single p]: [p] is a pattern of the syntax read here, [re.compile]
    accepts it, and it has no alternation at its top level. *)
Definition single (p : string) : bool :=
  match branch p with
  | Some _ => true
  | None => false
  end.

(** A plain name: ASCII, and no character of it has a meaning of its
    own. *)
Definition plain (p : string) : bool :=
  forallb (fun c => negb (is_special c) && is_ascii c) (list_ascii_of_string p).




End Re.

(** ** Marker matching and feature selection *)

Module Markers.

Notation "'let*' x ':=' e 'in' k" := (bind e (fun x => k))
  (at level 20, x pattern, e at level 100, k at level 200, only parsing).

(** *** [check_markers] *)

(** The loop over the markers of one category (lines 80-83):
    [genes_found] accumulates, for each pattern, the first gene of
    [de_genes_group] the anchored, case-insensitive pattern finds. *)
Fixpoint markers_loop (de_genes_group : list string) (markers : list string)
    (genes_found : list string) : result (list string) :=
  match markers with
  | [] => Ok genes_found
  | gene :: rest =>
      let* regex := Re.compile ("^" +:+ gene +:+ "$") true in
      let result := List.filter (Re.search regex) de_genes_group in
      markers_loop de_genes_group rest
        (match result with
         | [] => genes_found
         | g :: _ => genes_found ++ [g]
         end)
  end.

(** The loop over the categories (lines 76-86), filling [matches[group]]. *)
Fixpoint keys_loop (de_genes_group : list string)
    (items : list (string * list string))
    (matches_group : gmap string (list string))
  : result (gmap string (list string)) :=
  match items with
  | [] => Ok matches_group
  | (key, markers) :: rest =>
      let* genes_found := markers_loop de_genes_group markers [] in
      keys_loop de_genes_group rest
        (match genes_found with
         | [] => matches_group
         | _ :: _ => <[key := genes_found]> matches_group
         end)
  end.

(** The loop over the clusters (lines 67-86): every cluster first gets an
    empty dictionary, which the category loop then fills. *)
Fixpoint groups_loop (columns : list (string * list string))
    (marker_genes : gmap string (list string))
    (matches : gmap string (gmap string (list string)))
  : result (gmap string (gmap string (list string))) :=
  match columns with
  | [] => Ok matches
  | (group, de_genes_group) :: rest =>
      let* matches_group :=
        keys_loop de_genes_group (map_to_list marker_genes) ∅ in
      groups_loop rest marker_genes (<[group := matches_group]> matches)
  end.

(** [check_markers(de_genes, marker_genes)].  The data frame [de_genes]
    is the map from its (distinct) column labels to the column values;
    [marker_genes] is the dictionary from category to pattern list. *)
Definition check_markers (de_genes : gmap string (list string))
    (marker_genes : gmap string (list string))
  : result (gmap string (gmap string (list string))) :=
  groups_loop (map_to_list de_genes) marker_genes ∅.

(** Vocabulary for the statements about [check_markers]. *)

(** The pattern [gene], compiled as line 81 compiles it, finds [l]. *)
Definition hits (gene l : string) : Prop :=
  exists regex,
    Re.compile ("^" +:+ gene +:+ "$") true = Ok regex /\
    Re.search regex l = true.

(** The first gene of [de_genes_group] the pattern [gene] finds. *)
Definition first_hit (de_genes_group : list string) (gene : string)
  : option string :=
  match Re.compile ("^" +:+ gene +:+ "$") true with
  | Ok regex => head (List.filter (Re.search regex) de_genes_group)
  | Raise _ => None
  end.


(** Every pattern of the dictionary compiles once anchored. *)
Definition all_valid (marker_genes : gmap string (list string)) : bool :=
  forallb (fun it : string * list string =>
             forallb (fun gene => Re.valid ("^" +:+ gene +:+ "$")) it.2)
    (map_to_list marker_genes).

(** Every pattern of the dictionary, once anchored, is of the syntax
    read here: [re.compile] accepts it, with the reading of the model, or
    rejects it. *)
Definition all_modelled (marker_genes : gmap string (list string)) : bool :=
  forallb (fun it : string * list string =>
             forallb (fun gene => Re.valid ("^" +:+ gene +:+ "$") ||
                                  Re.rejects ("^" +:+ gene +:+ "$")) it.2)
    (map_to_list marker_genes).

(** *** [plot_markers] *)

(** The part of the annotated data matrix [plot_markers] looks at: the
    keys of [obsm], the name lists stored in [uns], the feature names,
    and the feature names of [raw] when [raw] exists. *)
Record AnnData : Type := {
  obsm_keys : gset string;
  uns : gmap string (list string);
  var_names : list string;
  raw_var_names : option (list string)
}.

(** What the function emits: a printed line, a printed line that ends
    with the [str] of a list, and the entry into the drawing stage with
    the features to draw ([protein] tells genes from proteins).  The
    drawing itself (grid, colour cut-offs, scatter calls) is not part of
    the model. *)
Inductive event : Type :=
| Print (text : string)
| PrintList (text : string) (l : list string)
| Plot (protein : bool) (features : list string).

(** Computations that print and may raise. *)
Definition M (A : Type) : Type := (list event * result A)%type.

Definition ret {A : Type} (a : A) : M A := ([], Ok a).

Definition raise {A : Type} (e : exn) : M A := ([], Raise e).

Definition emit (ev : event) : M unit := ([ev], Ok tt).

Definition lift {A : Type} (r : result A) : M A := ([], r).

Definition mbind {A B : Type} (m : M A) (f : A -> M B) : M B :=
  match m with
  | (log, Ok a) => let (log', r) := f a in (log ++ log', r)
  | (log, Raise e) => (log, Raise e)
  end.

Notation "'do' x '<-' e ';' k" := (mbind e (fun x => k))
  (at level 20, x pattern, e at level 100, k at level 200, only parsing).
Notation "e ';;' k" := (mbind e (fun _ => k))
  (at level 100, k at level 200, right associativity, only parsing).

(** [[l for l in names for m in [reg_ex.search(l)] if m]]. *)
Definition search_all (reg_ex : Re.pattern) (names : list string)
  : list string :=
  List.filter (Re.search reg_ex) names.

(** [genes[:n_max]], with Python's reading of a negative bound. *)
Definition slice_to {A : Type} (l : list A) (n : Z) : list A :=
  if (0 <=? n)%Z then firstn (Z.to_nat n) l
  else firstn (length l - Z.to_nat (- n)) l.

(** The loop over the markers of the chosen category (lines 172-182). *)
Fixpoint genes_pre_loop (ignore_case : bool) (names : list string)
    (genes_pre : list string) (genes not_found : list string)
  : result (list string * list string) :=
  match genes_pre with
  | [] => Ok (genes, not_found)
  | gene :: rest =>
      let* reg_ex :=
        (if ignore_case then Re.compile ("^" +:+ gene +:+ "$") true
         else Re.compile ("^" +:+ gene +:+ "$") false) in
      match search_all reg_ex names with
      | g :: _ => genes_pre_loop ignore_case names rest (genes ++ [g]) not_found
      | [] => genes_pre_loop ignore_case names rest genes (not_found ++ [gene])
      end
  end.

(** The loop over [key] when no markers dictionary is given (lines
    189-196).  Iterating a string yields its characters, and
    [genes.append( *genes_ )] is a call with one argument only when
    exactly one name matched. *)
Fixpoint key_loop (ignore_case : bool) (names : list string)
    (key : list ascii) (genes : list string) : result (list string) :=
  match key with
  | [] => Ok genes
  | gene :: rest =>
      let* reg_ex :=
        (if ignore_case then Re.compile (String gene EmptyString) true
         else Re.compile (String gene EmptyString) false) in
      match search_all reg_ex names with
      | [g] => key_loop ignore_case names rest (genes ++ [g])
      | _ => Raise TypeError
      end
  end.

(** Lines 151-213: the names to draw, resolved from [key].  In protein
    mode only the names of the protein block are used; building its
    data frame (line 207) is left to the drawing stage. *)
Definition resolve (adata : AnnData) (names : list string) (key : string)
    (markers : option (gmap string (list string)))
    (ignore_case protein : bool) (prot_key prot_names_key : string)
  : M (list string) :=
  match markers, protein with
  | Some markers, false =>
      match markers !! key with
      | None =>
          emit (Print "Key not in the markers dict. Searching in the var names.") ;;
          do reg_ex <- lift (if ignore_case then Re.compile key true
                             else Re.compile key true) ;
          ret (search_all reg_ex names)
      | Some genes_pre =>
          emit (Print "Key found in the markers dict.") ;;
          do (genes, not_found) <-
            lift (genes_pre_loop ignore_case names genes_pre [] []) ;
          (if (0 <? length not_found)%nat
           then emit (PrintList "Could not find the following genes: " not_found)
           else ret tt) ;;
          ret genes
      end
  | None, false =>
      emit (Print "No markers dict given. Searching in the var names.") ;;
      lift (key_loop ignore_case names (list_ascii_of_string key) [])
  | _, true =>
      emit (Print "Looking for a protein with this name.") ;;
      match uns adata !! prot_names_key with
      | Some protein_names =>
          if bool_decide (prot_key ∈ obsm_keys adata) then
            do reg_ex <- lift (if ignore_case then Re.compile key true
                               else Re.compile key false) ;
            ret (search_all reg_ex protein_names)
          else
            raise (ValueError ("Requires a filed '" +:+ prot_names_key +:+
                               "' in adata.uns and a field '" +:+ prot_key +:+
                               "' in adata.obsm"))
      | None =>
          raise (ValueError ("Requires a filed '" +:+ prot_names_key +:+
                             "' in adata.uns and a field '" +:+ prot_key +:+
                             "' in adata.obsm"))
      end
  end.

(** Lines 139-149: the feature names searched, [adata.raw]'s when
    [use_raw] and [adata.raw] exists. *)
Definition get_var_names (adata : AnnData) (use_raw : bool)
  : M (list string) :=
  if use_raw then
    emit (Print "Using the rawdata") ;;
    match raw_var_names adata with
    | Some names => ret names
    | None =>
        emit (Print "adata.raw does not seem to exist") ;;
        ret (var_names adata)
    end
  else ret (var_names adata).

(** [plot_markers], up to the entry into the drawing stage. *)
Definition plot_markers (adata : AnnData) (key : string)
    (markers : option (gmap string (list string))) (basis : string)
    (n_max : Z) (use_raw ignore_case protein : bool)
    (prot_key prot_names_key : string) : M unit :=
  if bool_decide ("X_" +:+ basis ∈ obsm_keys adata) then
    emit (Print ("Current key: " +:+ key)) ;;
    emit (Print ("Basis: " +:+ basis)) ;;
    do names <- get_var_names adata use_raw ;
    do genes <- resolve adata names key markers ignore_case protein
                  prot_key prot_names_key ;
    if (length genes =? 0)%nat then
      raise (ValueError "Could not find any gene or protein to plot.")
    else
      do genes <-
        (if (n_max <? Z.of_nat (length genes))%Z then
           emit (Print ("Found " +:+ pretty (length genes) +:+ " matches.")) ;;
           ret (slice_to genes n_max)
         else ret genes) ;
      (if negb protein
       then emit (PrintList "Plotting the following genes:" genes)
       else emit (PrintList "Plotting the following proteins:" genes)) ;;
      emit (Plot protein genes)
  else
    raise (ValueError ("You have not computed the basis " +:+ basis +:+ " yet. ")).

(** Vocabulary for the statements about [plot_markers]. *)

(** The names [get_var_names] returns. *)
Definition searched_names (adata : AnnData) (use_raw : bool) : list string :=
  if use_raw then default (var_names adata) (raw_var_names adata)
  else var_names adata.

(** The drawing stage was entered. *)
Definition plotted (log : list event) : bool :=
  existsb (fun ev => match ev with Plot _ _ => true | _ => false end) log.

(** A data matrix with a UMAP embedding and three genes. *)
Definition adata_cd : AnnData :=
  {| obsm_keys := {[ "X_umap" ]}; uns := ∅;
     var_names := ["Cd3e"; "Cd4"; "Cd8a"]; raw_var_names := None |}.

End Markers.

(** ** Identifier remapping: the tables of [map_to_mgi] *)

Module Mgi.

(** A row of the conversion table the database query returns: the
    identifier and its symbol, [None] where the symbol is missing (NaN). *)
Abbreviation row := (string * option string)%type (only parsing).

(** [conv_table.drop_duplicates(first column)]: of the rows with the
    same identifier only the first is kept. [seen] are the identifiers
    met so far. *)
Fixpoint drop_duplicates_from (seen : list string) (conv_table : list row)
  : list row :=
  match conv_table with
  | [] => []
  | (id, name) :: rest =>
      if bool_decide (id ∈ seen) then drop_duplicates_from seen rest
      else (id, name) :: drop_duplicates_from (id :: seen) rest
  end.

Definition drop_duplicates (conv_table : list row) : list row :=
  drop_duplicates_from [] conv_table.

(** The rows of the indexed table [conv_table] with index [id]. *)
Definition loc (conv_table : list row) (id : string) : list row :=
  List.filter (fun r => String.eqb (fst r) id) conv_table.

(** [adata_table.join(conv_table, on='Gene stable ID')]: a left join.
    Every row of the left table appears once per row of the right table
    with its identifier, in the order of the left table, and once with a
    missing symbol when there is none. *)
Definition join (adata_table : list string) (conv_table : list row)
  : list row :=
  flat_map
    (fun id =>
       match loc conv_table id with
       | [] => [(id, None)]
       | found => map (fun r => (id, snd r)) found
       end)
    adata_table.

(** [mapping['Gene name'].fillna(mapping['Gene stable ID'])], row by row. *)
Definition fillna (mapping : list row) : list row :=
  map (fun r => (fst r, Some (default (fst r) (snd r)))) mapping.

(** [mapping['Gene name'].tolist()]; no entry is missing after [fillna],
    a missing one would be listed as NaN ([None]). *)
Definition gene_name (mapping : list row) : list (option string) :=
  map snd mapping.

(** [map_to_mgi]: the value written to [adata.var['mgi_symbols']], from
    the feature names and the table the query returned.  Assigning a
    column whose length is not the number of features raises.  The
    three counts the function prints (lines 325-335) do not enter the
    result and are left out. *)
Definition map_to_mgi (var_names : list string) (conv_table : list row)
  : result (list (option string)) :=
  let conv_table := drop_duplicates conv_table in
  let mapping := join var_names conv_table in
  let mapping := fillna mapping in
  let mgi_symbols := gene_name mapping in
  if (length mgi_symbols =? length var_names)%nat then Ok mgi_symbols
  else Raise (ValueError "Length of values does not match length of index").

(** Vocabulary for the statements about [map_to_mgi]: the symbol of the
    first row of the table for [id], if there is such a row and its
    symbol is not missing. *)
Definition first_symbol (conv_table : list row) (id : string)
  : option string :=
  match List.find (fun r => String.eqb (fst r) id) conv_table with
  | Some r => snd r
  | None => None
  end.

End Mgi.

(** ** Batch composition: the table of [cluster_distr] *)

Module Batch.

(** A categorical column of [adata.obs]: its categories and, per cell,
    the label or [None] for a missing one. *)
Record Categorical : Type := {
  categories : list string;
  values : list (option string)
}.

(** A float: NaN ([None]) or a number ([Some]), given by the rational
    the binary64 number denotes.  Infinities are not modelled: the
    function divides a count by the count of a larger set of cells. *)
Definition float : Type := option Q.

(** The returned data frame: the index, the column ['total number'], the
    columns ['perc_' + batch] in the order of the batches, and the column
    ['entropy']. *)
Record Table : Type := {
  index : list string;
  total_number : list nat;
  perc : list (string * list float);
  entropy_col : list float
}.

(** [column == label], cell by cell; a missing label equals nothing. *)
Definition eq_mask (column : list (option string)) (label : string)
  : list bool :=
  map (fun v => bool_decide (v = Some label)) column.

(** [np.sum(mask)]. *)
Definition np_sum (mask : list bool) : nat :=
  length (List.filter (fun b => b) mask).

(** [adata[mask].obs[key]]: the entries of a column on the selected
    cells. *)
Definition select {A : Type} (mask : list bool) (column : list A) : list A :=
  map snd (List.filter fst (combine mask column)).

(** Rounding to the nearest integer, ties to even ([np.rint]). *)
Definition rint (x : Q) : Z :=
  let f := Qfloor x in
  match ((x - inject_Z f) ?= 1 # 2)%Q with
  | Lt => f
  | Gt => (f + 1)%Z
  | Eq => if Z.even f then f else (f + 1)%Z
  end.

(** The binary64 exponent of a non-negative number: the [e] with
    [2^e <= x < 2^(e+1)], and [-1022] for the subnormal numbers and
    zero. *)
Definition exponent (x : Q) : Z :=
  Z.max (Z.log2 (Qfloor (x * inject_Z (2 ^ 1074))) - 1074) (-1022).

(** The distance of neighbouring binary64 numbers at [x]: 53 bits of
    significand. *)
Definition ulp (x : Q) : Q := (2 ^ (exponent (Qabs x) - 52))%Q.

(** The binary64 number nearest to [x], ties to the even significand:
    the rounding of every float operation of IEEE 754.  Overflow is not
    modelled; the numbers rounded here are bounded by 100. *)
Definition fl (x : Q) : Q :=
  let x := Qred x in
  if Qeq_bool x 0 then 0%Q
  else Qred (inject_Z (rint (x / ulp x)) * ulp x).

(** Division of two arrays of counts, entry by entry: numpy converts
    both integers to binary64 and divides them there.  A zero divisor
    gives NaN: the dividend counts a part of the cells the divisor
    counts, so it is zero as well. *)
Definition np_div (a b : nat) : float :=
  match b with
  | O => None
  | S _ => Some (fl (fl (inject_Z (Z.of_nat a)) / fl (inject_Z (Z.of_nat b))))
  end.

(** [np.round(x, 2)]: numpy multiplies by 100, rounds to the nearest
    integer and divides by 100, each in binary64. *)
Definition np_round2 (x : float) : float :=
  match x with
  | Some q => Some (fl (inject_Z (rint (fl (q * 100))) / 100))
  | None => None
  end.

Section ClusterDistr.

(** [scipy.stats.entropy], not modelled: it only feeds the column
    ['entropy'] and the warnings. *)
Variable entropy : list float -> float.

Definition cells_per_cluster (cluster_column : list (option string))
    (clusters : list string) : list nat :=
  map (fun cluster => np_sum (eq_mask cluster_column cluster)) clusters.

(** The body of the loop over the batches (lines 534-537). *)
Definition perc_column (cluster_column batch_column : list (option string))
    (clusters : list string) (batch : string) : list float :=
  let assignment := select (eq_mask batch_column batch) cluster_column in
  let cells_per_cluster_batch :=
    map (fun cluster => np_sum (eq_mask assignment cluster)) clusters in
  map np_round2
    (map (fun p => np_div (fst p) (snd p))
       (combine cells_per_cluster_batch
          (cells_per_cluster cluster_column clusters))).

(** [batch_distr.loc[cluster][list('perc_' + batches)]]: the row of the
    table, over its percentage columns. *)
Definition perc_row (columns : list (string * list float)) (i : nat)
  : list float :=
  map (fun col => default None (snd col !! i)) columns.

Definition le_eps (e : float) (eps : Q) : bool :=
  match e with
  | Some q => Qle_bool q eps
  | None => false
  end.

(** [cluster_distr]: the printed warnings and the table. *)
Definition cluster_distr (obs : gmap string Categorical)
    (cluster_key batch_key : string) (eps : Q)
  : list string * result Table :=
  match obs !! cluster_key with
  | None =>
      ([], Raise (ValueError ("The key '" +:+ cluster_key +:+
                              "' does not exist in adata.obs")))
  | Some cluster_column =>
      match obs !! batch_key with
      | None =>
          ([], Raise (ValueError ("The key '" +:+ batch_key +:+
                                  "' does not exist in adata.obs")))
      | Some batch_column =>
          let clusters := categories cluster_column in
          let batches := categories batch_column in
          let columns :=
            map (fun batch =>
                   ("perc_" +:+ batch,
                    perc_column (values cluster_column) (values batch_column)
                      clusters batch))
              batches in
          let en := map (fun i => entropy (perc_row columns i))
                      (seq 0 (length clusters)) in
          let warnings :=
            omap (fun p =>
                    if le_eps (snd p) eps
                    then Some ("Warning: Cluster " +:+ fst p +:+
                               " has a very uneven batch assignment.")
                    else None)
              (combine clusters en) in
          (warnings,
           Ok {| index := clusters;
                 total_number := cells_per_cluster (values cluster_column) clusters;
                 perc := columns;
                 entropy_col := map np_round2 en |})
      end
  end.

End ClusterDistr.

(** Vocabulary for the statements about [cluster_distr]. *)

(** The number of cells in both [cluster] and [batch]. *)
Definition cells_in (cluster_column batch_column : list (option string))
    (cluster batch : string) : nat :=
  length
    (List.filter
       (fun p => bool_decide (fst p = Some batch) &&
                 bool_decide (snd p = Some cluster))
       (combine batch_column cluster_column)).

(** The sum of the numbers of a row, taken exactly; NaN if one of them
    is. *)
Fixpoint float_sum (row : list float) : float :=
  match row with
  | [] => Some 0%Q
  | x :: rest =>
      match x, float_sum rest with
      | Some a, Some b => Some (a + b)%Q
      | _, _ => None
      end
  end.

(** The float of [k] hundredths: what the last division of [np.round]
    returns. *)
Definition hundredth (k : Z) : float := Some (fl (inject_Z k / 100)).

(** [k] hundredths is the quotient [a / n] rounded to two decimals: not
    further than half a hundredth from it. *)
Definition rounds_to (a n : nat) (k : Z) : Prop :=
  (2 * Z.abs (k * Z.of_nat n - 100 * Z.of_nat a) <= Z.of_nat n)%Z.

(** The sum of a list of integers. *)
Definition Zsum (l : list Z) : Z := foldr Z.add 0%Z l.

(** Every cell of [cluster] carries a batch label among [batches]. *)
Definition labelled (cluster_column batch_column : list (option string))
    (batches : list string) (cluster : string) : Prop :=
  Forall
    (fun p => snd p = Some cluster ->
              exists batch, fst p = Some batch /\ batch ∈ batches)
    (combine batch_column cluster_column).

(** Two clusters of which the second has no cell, and one batch. *)
Definition obs_unused_cluster : gmap string Categorical :=
  <["louvain" := Build_Categorical ["0"; "1"] [Some "0"]]>
    (<["batch" := Build_Categorical ["a"] [Some "a"]]> ∅).

(** Three cells of one cluster, spread over three batches. *)
Definition obs_three_batches : gmap string Categorical :=
  <["louvain" := Build_Categorical ["0"] [Some "0"; Some "0"; Some "0"]]>
    (<["batch" := Build_Categorical ["a"; "b"; "c"]
                    [Some "a"; Some "b"; Some "c"]]> ∅).

End Batch.

(** ** The other helpers of the module *)

(** What the further functions can raise: the exceptions of [exn], a
    missing key of a dictionary or of a data frame, a local variable read
    before it is bound, and an index out of range. *)
Inductive error : Type :=
| Exn (e : exn)
| KeyError (key : string)
| UnboundLocalError (name : string)
| IndexError.

Inductive outcome (A : Type) : Type :=
| Done (a : A)
| Fail (e : error).

Arguments Done {A} a.
Arguments Fail {A} e.

Definition and_then {A B : Type} (o : outcome A) (f : A -> outcome B)
  : outcome B :=
  match o with
  | Done a => f a
  | Fail e => Fail e
  end.

(** *** The grid of [plot_markers] *)

Module Grid.

(** Lines 230-237: the rows and columns of the grid for [n_genes]
    features.  [n_genes+1/n_col] is the sum of [n_genes] and the quotient
    [1/n_col]; the quotient is an exact rational here. *)
Definition grid_shape (multi_line : bool) (n_genes : nat) : Z * Z :=
  if multi_line then
    let n_col := 3%Z in
    let n_row :=
      Qceiling (inject_Z (Z.of_nat n_genes) + 1 / inject_Z n_col) in
    (n_row, n_col)
  else
    let n_col := (Z.of_nat n_genes + 1)%Z in
    let n_row := 1%Z in
    (n_row, n_col).

(** The indices [i] of [plt.subplot(gs[i])] (lines 245-246): the features,
    the clustering and the condition. *)
Definition subplots (n_genes : nat) : list nat := seq 0 (n_genes + 2).

(** [gs[i]] is a cell of a grid of [n_row * n_col] cells. *)
Definition in_grid (shape : Z * Z) (i : nat) : bool :=
  (Z.of_nat i <? fst shape * snd shape)%Z.

End Grid.

(** *** [print_numbers] *)

Module Numbers.

Import Batch.

Definition cells_line (n_cells : nat) (level : string) : string :=
  pretty n_cells +:+ " cells in batch " +:+ level.

Definition total_line (n_obs n_vars : nat) : string :=
  "Total: " +:+ pretty n_obs +:+ " cells, " +:+ pretty n_vars +:+ " genes".

(** [adata[adata.obs[groupby] == level].n_obs], level by level. *)
Definition level_counts (column : Categorical) : list nat :=
  map (fun level => np_sum (eq_mask (values column) level)) (categories column).

(** [print_numbers]: the printed lines, from the categorical columns of
    [adata.obs] and the shape of the matrix. *)
Definition print_numbers (obs : gmap string Categorical) (n_obs n_vars : nat)
    (groupby : string) : outcome (list string) :=
  match obs !! groupby with
  | None => Fail (KeyError groupby)
  | Some column =>
      let levels := categories column in
      Done (map (fun level =>
                   cells_line (np_sum (eq_mask (values column) level)) level)
              levels ++
            [total_line n_obs n_vars])
  end.

(** Vocabulary: the cells of a column that carry one of [levels]. *)
Definition with_level (levels : list string) (column : list (option string))
  : list (option string) :=
  List.filter
    (fun v => match v with
              | Some level => bool_decide (level ∈ levels)
              | None => false
              end)
    column.

End Numbers.

(** *** [de_results] *)

Module DeResults.

(** A structured array as a list of its fields, each with its column,
    and a dictionary in insertion order as a list of its items. *)
Abbreviation recarray := (list (string * list string)) (only parsing).

(** The part of the annotated data matrix [de_results] reads: the keys
    of [obs], and the array-valued entries of [uns['rank_genes_groups']]
    when the test has been run. *)
Record AnnData : Type := {
  obs_keys : gset string;
  rank_genes_groups : option (gmap string recarray)
}.

(** [d[k] = v] on a dictionary: a key that is present keeps its place. *)
Fixpoint dict_set {V : Type} (d : list (string * V)) (k : string) (v : V)
  : list (string * V) :=
  match d with
  | [] => [(k, v)]
  | (k', v') :: rest =>
      if String.eqb k' k then (k, v) :: rest
      else (k', v') :: dict_set rest k v
  end.

Definition dict_get {V : Type} (d : list (string * V)) (k : string)
  : option V :=
  match List.find (fun item => String.eqb (fst item) k) d with
  | Some item => Some (snd item)
  | None => None
  end.

(** [group + '_' + key[:10]]. *)
Definition label (group key : string) : string :=
  group +:+ "_" +:+ substring 0 10 key.

(** [result[key][group]]. *)
Definition getitem (result : gmap string recarray) (key group : string)
  : outcome (list string) :=
  match result !! key with
  | None => Fail (KeyError key)
  | Some array =>
      match dict_get array group with
      | None => Fail (Exn (ValueError ("no field of name " +:+ group)))
      | Some column => Done column
      end
  end.

(** The dictionary comprehension of lines 588-589, [for group in
    group_names for key in keys]. *)
Fixpoint keys_loop (result : gmap string recarray) (group : string)
    (keys : list string) (table : recarray) : outcome recarray :=
  match keys with
  | [] => Done table
  | key :: rest =>
      and_then (getitem result key group) (fun column =>
      keys_loop result group rest (dict_set table (label group key) column))
  end.

Fixpoint groups_loop (result : gmap string recarray) (keys : list string)
    (group_names : list string) (table : recarray) : outcome recarray :=
  match group_names with
  | [] => Done table
  | group :: rest =>
      and_then (keys_loop result group keys table) (fun table =>
      groups_loop result keys rest table)
  end.

(** [pd.DataFrame(table)] takes columns of one length. *)
Definition same_length (table : recarray) : bool :=
  match table with
  | [] => true
  | (_, column) :: rest =>
      forallb (fun c => (length (snd c) =? length column)%nat) rest
  end.

(** [de_results]: the returned table, column by column. *)
Definition de_results (adata : AnnData) (keys : list string)
    (cluster_key : string) (n_genes : Z) : outcome recarray :=
  if bool_decide (cluster_key ∈ obs_keys adata) then
    match rank_genes_groups adata with
    | None =>
        Fail (Exn (ValueError "Run the differential expression test first."))
    | Some result =>
        match result !! "names" with
        | None => Fail (KeyError "names")
        | Some names =>
            let group_names := map fst names in
            and_then (groups_loop result keys group_names []) (fun table =>
            if same_length table then
              Done (map (fun c => (fst c, Markers.slice_to (snd c) n_genes))
                      table)
            else
              Fail (Exn (ValueError "All arrays must be of the same length")))
        end
    end
  else
    Fail (Exn (ValueError ("Could not find the key '" +:+ cluster_key +:+
                           "' in adata.obs"))).

(** Vocabulary: the pairs the comprehension runs through, in its order. *)
Definition pairs (group_names keys : list string) : list (string * string) :=
  flat_map (fun group => map (fun key => (group, key)) keys) group_names.

(** The dictionary built from a list of items. *)
Definition build {V : Type} (items d : list (string * V))
  : list (string * V) :=
  fold_left (fun d item => dict_set d (fst item) (snd item)) items d.

(** The item the comprehension computes for a pair. *)
Definition value_of (result : gmap string recarray) (p : string * string)
  : list string :=
  match getitem result (snd p) (fst p) with
  | Done column => column
  | Fail _ => []
  end.

Definition item_of (result : gmap string recarray) (p : string * string)
  : string * list string :=
  (label (fst p) (snd p), value_of result p).

End DeResults.

(** *** [interactive_histograms] *)

Module Histograms.

(** Where a histogram takes its data from: [adata.obs[key]] or
    [adata.var[key]]. *)
Inductive source : Type :=
| Obs (key : string)
| Var (key : string).

(** A figure: its title and the data of its histogram. *)
Record figure : Type := {
  title : string;
  hist : source
}.

Section InteractiveHistograms.

(** [repr] of a key, not modelled: it only feeds the message of the
    error. *)
Variable repr : string -> string.

Variable obs_keys : gset string.
Variable var_keys : gset string.

(** Lines 627-629: the check of the keys. *)
Fixpoint check_input (keys : list string) : outcome unit :=
  match keys with
  | [] => Done tt
  | key :: rest =>
      if bool_decide (key ∉ obs_keys) && bool_decide (key ∉ var_keys) then
        Fail (Exn (ValueError ("The key " +:+ repr key +:+
                               " does not exist in adata.obs or adata.var")))
      else check_input rest
  end.

(** The state of the loop of lines 632-659: the rows closed so far, the
    open row and the last histogram, the latter two unbound ([None])
    before their first assignment. *)
Record state : Type := {
  figures : list (list figure);
  current_list : option (list figure);
  last_hist : option source
}.

Definition body (i : nat) (key : string) (st : state) : outcome state :=
  and_then
    (if (i =? 0)%nat then Done (figures st, Some [])
     else if (i mod 2 =? 0)%nat then
       match current_list st with
       | Some row => Done (figures st ++ [row], Some [])
       | None => Fail (UnboundLocalError "current_list")
       end
     else Done (figures st, current_list st))
    (fun opened =>
       let h :=
         if bool_decide (key ∈ obs_keys) then Some (Obs key)
         else if bool_decide (key ∈ var_keys) then Some (Var key)
         else last_hist st in
       match h with
       | None => Fail (UnboundLocalError "hist")
       | Some h =>
           let fig := {| title := key; hist := h |} in
           match snd opened with
           | None => Fail (UnboundLocalError "current_list")
           | Some row =>
               Done {| figures := fst opened;
                       current_list := Some (row ++ [fig]);
                       last_hist := Some h |}
           end
       end).

Fixpoint figures_loop (i : nat) (keys : list string) (st : state)
  : outcome state :=
  match keys with
  | [] => Done st
  | key :: rest => and_then (body i key st) (figures_loop (S i) rest)
  end.

(** [interactive_histograms]: the grid handed to [gridplot]. *)
Definition interactive_histograms (keys : list string)
  : outcome (list (list figure)) :=
  and_then (check_input keys) (fun _ =>
  and_then
    (figures_loop 0 keys
       {| figures := []; current_list := None; last_hist := None |})
    (fun st =>
       match current_list st with
       | Some row => Done (figures st ++ [row])
       | None => Fail (UnboundLocalError "current_list")
       end)).

(** Vocabulary: a key of [adata.obs] or of [adata.var], and the figure
    of such a key. *)
Definition known (key : string) : Prop :=
  key ∈ obs_keys \/ key ∈ var_keys.

Definition figure_of (key : string) : figure :=
  {| title := key;
     hist := if bool_decide (key ∈ obs_keys) then Obs key else Var key |}.

End InteractiveHistograms.

(** Vocabulary: a list cut into rows of two. *)
Fixpoint rows_of_two {A : Type} (l : list A) : list (list A) :=
  match l with
  | [] => []
  | [a] => [[a]]
  | a :: b :: rest => [a; b] :: rows_of_two rest
  end.

End Histograms.

(** *** [score_cell_cycle] *)

Module CellCycle.

(** [str.lower] and [str.capitalize], on ASCII text. *)
Definition upper (c : ascii) : ascii :=
  let n := nat_of_ascii c in
  if (97 <=? n)%nat && (n <=? 122)%nat then ascii_of_nat (n - 32) else c.

Fixpoint lower (s : string) : string :=
  match s with
  | EmptyString => EmptyString
  | String c rest => String (Re.lower c) (lower rest)
  end.

Definition capitalize (s : string) : string :=
  match s with
  | EmptyString => EmptyString
  | String c rest => String (upper c) (lower rest)
  end.

(** The part of the annotated data matrix [score_cell_cycle] reads: the
    feature names and the string columns of [adata.var]. *)
Record AnnData : Type := {
  var_names : list string;
  var : gmap string (list string)
}.

(** [cc_genes[name].dropna()], on the table read from the file. *)
Definition dropna_column (cc_genes : gmap string (list (option string)))
    (name : string) : outcome (list string) :=
  match cc_genes !! name with
  | Some column => Done (omap (fun x => x) column)
  | None => Fail (KeyError name)
  end.

(** [np.in1d(ar1, ar2)]. *)
Definition in1d (ar1 ar2 : list string) : list bool :=
  map (fun x => bool_decide (x ∈ ar2)) ar1.

(** [names[mask]]: a Boolean mask has one entry per name. *)
Definition getitem_mask (names : list string) (mask : list bool)
  : outcome (list string) :=
  if (length mask =? length names)%nat then Done (Batch.select mask names)
  else Fail IndexError.

(** [score_cell_cycle], up to the call of the scoring function: the S
    phase and the G2/M phase genes handed to it.  [gene_symbols] is
    [None] or an annotation key. *)
Definition score_cell_cycle (adata : AnnData)
    (cc_genes : gmap string (list (option string)))
    (gene_symbols : option string) : outcome (list string * list string) :=
  and_then (dropna_column cc_genes "S") (fun s_genes =>
  and_then (dropna_column cc_genes "G2.M") (fun g2m_genes =>
  let s_genes_mm := map (fun gene => capitalize (lower gene)) s_genes in
  let g2m_genes_mm := map (fun gene => capitalize (lower gene)) g2m_genes in
  match gene_symbols with
  | Some gene_symbols =>
      match var adata !! gene_symbols with
      | None => Fail (KeyError gene_symbols)
      | Some annotation =>
          and_then (getitem_mask (var_names adata) (in1d annotation s_genes_mm))
            (fun s_genes_mm_ens =>
          and_then (getitem_mask (var_names adata)
                      (in1d annotation g2m_genes_mm))
            (fun g2m_genes_mm_ens =>
          Done (s_genes_mm_ens, g2m_genes_mm_ens)))
      end
  | None =>
      and_then (getitem_mask (var_names adata)
                  (in1d (var_names adata) s_genes_mm))
        (fun s_genes_mm_ens =>
      and_then (getitem_mask (var_names adata)
                  (in1d (var_names adata) g2m_genes_mm))
        (fun g2m_genes_mm_ens =>
      Done (s_genes_mm_ens, g2m_genes_mm_ens)))
  end)).

(** The default of the parameter [gene_symbols]: the string ['none']. *)
Definition gene_symbols_default : option string := Some "none".

End CellCycle.

(** * Properties *)

(** ** The matcher finds the matches of the declarative reading *)

Section Adequacy.

Variable ic : bool.
Variable s : list ascii.

Lemma star_iter_chain step n : forall front k,
  In k (Re.star_iter step n front) ->
  exists p m, In p front /\ (m <= n)%nat /\ Re.chain step m p k.
Proof.
  induction n as [|n IH]; intros front k Hin; simpl in Hin.
  - exists k, 0%nat. split; [done|]. split; [lia | constructor].
  - apply in_app_or in Hin as [Hin|Hin].
    + exists k, 0%nat. split; [done|]. split; [lia | constructor].
    + destruct (IH _ _ Hin) as (q & m & Hq & Hm & Hc).
      apply in_flat_map in Hq as (p & Hp & Hq).
      apply filter_In in Hq as [Hq Hlt]. apply Nat.ltb_lt in Hlt.
      exists p, (S m). split; [done|]. split; [lia|].
      by apply (Re.ChainCons step m p q k).
Qed.

Lemma chain_star_iter step n : forall front m p k,
  Re.chain step m p k -> In p front -> (m <= n)%nat ->
  In k (Re.star_iter step n front).
Proof.
  induction n as [|n IH]; intros front m p k Hc Hp Hm.
  - assert (m = 0)%nat as -> by lia. inversion Hc; subst. exact Hp.
  - simpl. apply in_or_app.
    inversion Hc as [|m' p' q k' Hq Hlt Hc']; subst; [by left|].
    right. apply (IH _ m' q k Hc'); [|lia].
    apply in_flat_map. exists p. split; [done|].
    apply filter_In. split; [done | by apply Nat.ltb_lt].
Qed.

Lemma chain_bound step m p k : Re.chain step m p k -> (p + m <= k)%nat.
Proof. induction 1; lia. Qed.

(** A match moves forward and stays inside the text. *)
Lemma rmatch_range r i j :
  Re.rmatch ic s r i j ->
  (i <= j)%nat /\ ((i <= length s)%nat -> (j <= length s)%nat).
Proof.
  induction 1 as [i|c d i Hn _|d i Hn _| |i _|r1 r2 i j k _ IH1 _ IH2
                 |r1 r2 i j _ IH|r1 r2 i j _ IH|r1 i|r1 i j k _ IH1 _ IH2];
    try (split; lia).
  all: try (split; [lia|]; intros _; apply nth_error_Some; by rewrite Hn).
  all: try (destruct IH1, IH2; split; [lia | auto]).
Qed.

Lemma chain_rmatch r1 m p k :
  (forall i j, In j (Re.ends ic s r1 i) -> Re.rmatch ic s r1 i j) ->
  Re.chain (Re.ends ic s r1) m p k -> Re.rmatch ic s (Re.Star r1) p k.
Proof.
  intros Hstep. induction 1 as [p|m p q k Hq _ _ IH].
  - constructor.
  - eapply Re.MStarCons; [by apply Hstep | exact IH].
Qed.

(** Every position [ends] returns is the end of a match. *)
Lemma ends_sound r : forall i j,
  In j (Re.ends ic s r i) -> Re.rmatch ic s r i j.
Proof.
  induction r as [|c| | | |r1 IH1 r2 IH2|r1 IH1 r2 IH2|r1 IH1]; intros i j Hin;
    simpl in Hin.
  - destruct Hin as [<-|[]]. constructor.
  - destruct (nth_error s i) as [d|] eqn:Hn; [|destruct Hin].
    destruct (Re.chr_eqb ic c d) eqn:Hc; [|destruct Hin].
    destruct Hin as [<-|[]]. by econstructor.
  - destruct (nth_error s i) as [d|] eqn:Hn; [|destruct Hin].
    destruct (Ascii.eqb d Re.newline) eqn:Hc; [destruct Hin|].
    destruct Hin as [<-|[]]. by econstructor.
  - destruct (Nat.eqb_spec i 0) as [->|]; [|destruct Hin].
    destruct Hin as [<-|[]]. constructor.
  - destruct (Re.at_end s i) eqn:He; [|destruct Hin].
    destruct Hin as [<-|[]]. by constructor.
  - apply in_flat_map in Hin as (k & Hk & Hj).
    eapply Re.MCat; eauto.
  - apply in_app_or in Hin as [Hin|Hin];
      [apply Re.MAltL | apply Re.MAltR]; auto.
  - apply star_iter_chain in Hin as (p & m & Hp & _ & Hc).
    destruct Hp as [<-|[]]. by eapply chain_rmatch.
Qed.

(** Every match from a position of the text is found by [ends]. *)
Lemma ends_complete r i j :
  Re.rmatch ic s r i j -> (i <= length s)%nat -> In j (Re.ends ic s r i).
Proof.
  induction 1 as [i|c d i Hn Hc|d i Hn Hc| |i He|r1 r2 i j k H1 IH1 H2 IH2
                 |r1 r2 i j _ IH|r1 r2 i j _ IH|r1 i|r1 i j k H1 IH1 H2 IH2];
    intros Hi; simpl.
  - by left.
  - rewrite Hn, Hc. by left.
  - rewrite Hn, Hc. by left.
  - by left.
  - rewrite He. by left.
  - apply in_flat_map. exists j. split; [auto|].
    apply IH2. by apply (rmatch_range _ _ _ H1).
  - apply in_or_app. left. auto.
  - apply in_or_app. right. auto.
  - destruct (length s); simpl; by left.
  - pose proof (rmatch_range _ _ _ H1) as [Hij Hj].
    pose proof (rmatch_range _ _ _ H2) as [Hjk Hk].
    specialize (IH1 Hi). specialize (IH2 (Hj Hi)). simpl in IH2.
    apply star_iter_chain in IH2 as (p & m & Hp & _ & Hch).
    destruct Hp as [<-|[]].
    pose proof (chain_bound _ _ _ _ Hch) as Hb.
    destruct (decide (i = j)) as [->|Hne].
    + apply (chain_star_iter _ _ _ m j k Hch); [by left | lia].
    + apply (chain_star_iter _ _ _ (S m) i k); [|by left | lia].
      eapply Re.ChainCons; [exact IH1 | lia | exact Hch].
Qed.

(** [search] finds a match exactly when the pattern matches somewhere. *)
Lemma search_from_spec r :
  Re.search_from ic s r = true <->
  exists i j, (i <= length s)%nat /\ Re.rmatch ic s r i j.
Proof.
  unfold Re.search_from. rewrite existsb_exists. split.
  - intros (i & Hi & Hm). apply in_seq in Hi. unfold Re.matches_at in Hm.
    destruct (Re.ends ic s r i) as [|j l] eqn:He; [discriminate|].
    exists i, j. split; [lia|]. apply ends_sound. rewrite He. by left.
  - intros (i & j & Hi & Hm). exists i. split; [apply in_seq; lia|].
    unfold Re.matches_at. apply ends_complete in Hm; [|done].
    by destruct (Re.ends ic s r i).
Qed.

(** [fullmatch] holds exactly when the pattern matches the whole text. *)
Lemma fullmatch_from_spec r :
  Re.fullmatch_from ic s r = true <-> Re.rmatch ic s r 0 (length s).
Proof.
  unfold Re.fullmatch_from. rewrite existsb_exists. split.
  - intros (j & Hj & He). apply Nat.eqb_eq in He. subst j. by apply ends_sound.
  - intros Hm. exists (length s). split; [|apply Nat.eqb_refl].
    apply ends_complete; [done | lia].
Qed.

End Adequacy.

(** ** [check_markers] *)

Section CheckMarkersFacts.

Import Markers.

Lemma compile_ok_valid p ic :
  Re.valid p = true -> exists r, Re.compile p ic = Ok (Re.Pattern r ic).
Proof.
  unfold Re.valid, Re.compile.
  destruct (Re.parse _) as [r|]; [eauto | discriminate].
Qed.

Lemma compile_raise p ic :
  Re.valid p = false ->
  Re.compile p ic = Raise (if Re.rejects p then ReError else Unmodelled).
Proof.
  unfold Re.valid, Re.compile.
  destruct (Re.parse _); [discriminate|]. by destruct (Re.rejects p).
Qed.

Lemma compile_inv p ic pat :
  Re.compile p ic = Ok pat -> Re.valid p = true /\ Re.ignorecase pat = ic.
Proof.
  unfold Re.valid, Re.compile.
  destruct (Re.parse _); [|by destruct (Re.rejects p)].
  intros [= <-]. auto.
Qed.

(** The marker loop appends the first hit of each pattern, in order. *)
Lemma markers_loop_ok de markers : forall acc,
  Forall (fun gene => Re.valid ("^" +:+ gene +:+ "$") = true) markers ->
  markers_loop de markers acc = Ok (acc ++ omap (first_hit de) markers).
Proof.
  induction markers as [|gene rest IH]; intros acc Hv; simpl.
  - by rewrite app_nil_r.
  - inversion Hv as [|? ? Hg Hrest]; subst.
    destruct (compile_ok_valid _ true Hg) as [r Hr].
    unfold first_hit at 1. rewrite Hr. simpl.
    destruct (List.filter _ de) as [|g gs]; simpl.
    + by apply IH.
    + rewrite IH by done. by rewrite <- app_assoc.
Qed.

Lemma markers_loop_inv de markers : forall acc l,
  markers_loop de markers acc = Ok l ->
  Forall (fun gene => Re.valid ("^" +:+ gene +:+ "$") = true) markers.
Proof.
  induction markers as [|gene rest IH]; intros acc l H; simpl in *.
  - constructor.
  - destruct (Re.compile _ true) as [pat|e] eqn:Hc; simpl in H; [|discriminate].
    constructor; [by apply compile_inv in Hc as [? _] | eauto].
Qed.

Lemma first_hit_Some de gene g :
  first_hit de gene = Some g -> g ∈ de /\ hits gene g.
Proof.
  unfold first_hit, hits.
  destruct (Re.compile _ true) as [pat|] eqn:Hc; [|discriminate].
  destruct (List.filter _ de) as [|x xs] eqn:Hf; [discriminate|].
  intros [= ->].
  assert (Hin : In g (List.filter (Re.search pat) de)) by (rewrite Hf; left; done).
  apply filter_In in Hin as [Hin Hs].
  split; [by apply list_elem_of_In | eauto].
Qed.

Lemma hits_first_hit de gene g :
  g ∈ de -> hits gene g -> is_Some (first_hit de gene).
Proof.
  intros Hin (pat & Hc & Hs). unfold first_hit. rewrite Hc.
  assert (Hin' : In g (List.filter (Re.search pat) de)).
  { apply filter_In. split; [by apply list_elem_of_In | done]. }
  destruct (List.filter _ de); [destruct Hin' | eauto].
Qed.

(** What the category loop leaves under a key. *)
Lemma keys_loop_lookup de items : forall acc m key,
  NoDup (items.*1) ->
  keys_loop de items acc = Ok m ->
  m !! key =
    match list_find (fun it => it.1 = key) items with
    | Some (_, (_, markers)) =>
        match omap (first_hit de) markers with
        | [] => acc !! key
        | l => Some l
        end
    | None => acc !! key
    end.
Proof.
  induction items as [|[k markers] rest IH]; intros acc m key Hnd H; simpl in *.
  - by injection H as <-.
  - destruct (markers_loop de markers []) as [gf|e] eqn:Hgf; simpl in H; [|discriminate].
    pose proof (markers_loop_inv _ _ _ _ Hgf) as Hv.
    rewrite (markers_loop_ok _ _ _ Hv) in Hgf. simpl in Hgf. injection Hgf as <-.
    apply NoDup_cons in Hnd as [Hk Hnd].
    rewrite (IH _ _ key Hnd H).
    case_decide as Hkey; simpl in *.
    + subst k.
      assert (list_find (λ it : string * list string, it.1 = key) rest = None) as ->.
      { apply list_find_None, Forall_forall. intros [k' v'] Hin Heq. simpl in Heq. subst k'.
        apply Hk. apply list_elem_of_fmap. by exists (key, v'). }
      simpl. destruct (omap _ markers); [done|]. by rewrite lookup_insert_eq.
    + destruct (list_find _ rest) as [[i [k' v']]|] eqn:Hfind; simpl.
      * destruct (omap (first_hit de) v'); [|done].
        destruct (omap _ markers); [done|]. by rewrite lookup_insert_ne.
      * destruct (omap _ markers); [done|]. by rewrite lookup_insert_ne.
Qed.

Lemma list_find_map_to_list (mk : gmap string (list string)) key :
  match list_find (fun it : string * list string => it.1 = key) (map_to_list mk) with
  | Some (_, (_, markers)) => mk !! key = Some markers
  | None => mk !! key = None
  end.
Proof.
  destruct (list_find _ _) as [[i [k v]]|] eqn:Hf.
  - apply list_find_Some in Hf as (Hl & Heq & _). simpl in Heq. subst k.
    apply elem_of_map_to_list. by eapply list_elem_of_lookup_2.
  - destruct (mk !! key) as [v|] eqn:Hk; [|done].
    apply elem_of_map_to_list in Hk.
    eapply list_find_None, Forall_forall in Hf; [|exact Hk]. by destruct Hf.
Qed.

(** The dictionary [check_markers] builds for one cluster. *)
Lemma keys_loop_map de (mk : gmap string (list string)) m key :
  keys_loop de (map_to_list mk) ∅ = Ok m ->
  m !! key =
    match mk !! key with
    | Some markers =>
        match omap (first_hit de) markers with
        | [] => None
        | l => Some l
        end
    | None => None
    end.
Proof.
  intros H.
  rewrite (keys_loop_lookup _ _ _ _ key (NoDup_fst_map_to_list mk) H).
  pose proof (list_find_map_to_list mk key) as Hf.
  destruct (list_find _ _) as [[i [k v]]|]; rewrite Hf; by rewrite ?lookup_empty.
Qed.

Lemma keys_loop_valid de items : forall acc m,
  keys_loop de items acc = Ok m ->
  Forall (fun it => Forall (fun gene => Re.valid ("^" +:+ gene +:+ "$") = true) it.2) items.
Proof.
  induction items as [|[k markers] rest IH]; intros acc m H; simpl in *.
  - constructor.
  - destruct (markers_loop de markers []) as [gf|e] eqn:Hgf; simpl in H; [|discriminate].
    constructor; [by eapply markers_loop_inv | eauto].
Qed.

Lemma keys_loop_total de items : forall acc,
  Forall (fun it => Forall (fun gene => Re.valid ("^" +:+ gene +:+ "$") = true) it.2) items ->
  exists m, keys_loop de items acc = Ok m.
Proof.
  induction items as [|[k markers] rest IH]; intros acc Hv; simpl.
  - eauto.
  - inversion Hv as [|? ? Hm Hrest]; subst. simpl in Hm.
    rewrite (markers_loop_ok _ _ _ Hm). simpl. by apply IH.
Qed.

Lemma groups_loop_lookup mk cols : forall acc matches group,
  NoDup (cols.*1) ->
  groups_loop cols mk acc = Ok matches ->
  match list_find (fun it : string * list string => it.1 = group) cols with
  | Some (_, (_, de_g)) =>
      exists mg, keys_loop de_g (map_to_list mk) ∅ = Ok mg /\
                 matches !! group = Some mg
  | None => matches !! group = acc !! group
  end.
Proof.
  induction cols as [|[g de_g] rest IH]; intros acc matches group Hnd H; simpl in *.
  - by injection H as <-.
  - destruct (keys_loop de_g _ ∅) as [mg|e] eqn:Hmg; simpl in H; [|discriminate].
    apply NoDup_cons in Hnd as [Hg Hnd].
    specialize (IH _ _ group Hnd H).
    case_decide as Hkey; simpl in *.
    + subst g. exists mg. split; [done|].
      assert (list_find (λ it : string * list string, it.1 = group) rest = None) as Hn.
      { apply list_find_None, Forall_forall. intros [k' v'] Hin Heq.
        simpl in Heq. subst k'. apply Hg. apply list_elem_of_fmap. by exists (group, v'). }
      rewrite Hn in IH. by rewrite IH, lookup_insert_eq.
    + destruct (list_find _ rest) as [[i [k' v']]|] eqn:Hfind; simpl; [done|].
      by rewrite IH, lookup_insert_ne.
Qed.

(** The result of [check_markers], entry by entry. *)
Lemma check_markers_lookup (de mk : gmap string (list string)) matches group :
  check_markers de mk = Ok matches ->
  match de !! group with
  | Some de_g =>
      exists mg, keys_loop de_g (map_to_list mk) ∅ = Ok mg /\
                 matches !! group = Some mg
  | None => matches !! group = None
  end.
Proof.
  intros H. unfold check_markers in H.
  pose proof (groups_loop_lookup _ _ _ _ group (NoDup_fst_map_to_list de) H) as Hl.
  pose proof (list_find_map_to_list de group) as Hf.
  destruct (list_find _ _) as [[i [k v]]|]; rewrite Hf; [done|].
  by rewrite Hl, lookup_empty.
Qed.

Lemma groups_loop_total mk cols : forall acc,
  (forall key markers, mk !! key = Some markers ->
     Forall (fun gene => Re.valid ("^" +:+ gene +:+ "$") = true) markers) ->
  exists matches, groups_loop cols mk acc = Ok matches.
Proof.
  intros acc Hv. revert acc.
  assert (Hitems : Forall (fun it : string * list string =>
            Forall (fun gene => Re.valid ("^" +:+ gene +:+ "$") = true) it.2)
            (map_to_list mk)).
  { apply Forall_forall. intros [k v] Hin. apply elem_of_map_to_list in Hin. eauto. }
  induction cols as [|[g de_g] rest IH]; intros acc; simpl.
  - eauto.
  - destruct (keys_loop_total de_g _ ∅ Hitems) as [mg ->]. simpl. apply IH.
Qed.

Lemma all_valid_spec mk :
  all_valid mk = true ->
  Forall (fun it : string * list string =>
            Forall (fun gene => Re.valid ("^" +:+ gene +:+ "$") = true) it.2)
    (map_to_list mk).
Proof.
  unfold all_valid. rewrite forallb_forall. intros H.
  apply Forall_forall. intros it Hin. apply Forall_forall. intros gene Hg.
  apply list_elem_of_In in Hin, Hg.
  specialize (H it Hin). rewrite forallb_forall in H. auto.
Qed.

Lemma check_markers_total de mk :
  all_valid mk = true -> exists matches, check_markers de mk = Ok matches.
Proof.
  intros H. apply groups_loop_total. intros key markers Hk.
  apply all_valid_spec in H.
  apply elem_of_map_to_list in Hk.
  eapply Forall_forall in H; [|exact Hk]. exact H.
Qed.

Lemma omap_nil_iff {A B} (f : A -> option B) (l : list A) :
  omap f l = [] <-> forall x, x ∈ l -> f x = None.
Proof.
  induction l as [|a l IH]; simpl.
  - split; [intros _ x Hx; inversion Hx | done].
  - destruct (f a) eqn:Ha.
    + split; [discriminate|]. intros H. specialize (H a). rewrite Ha in H.
      discriminate H. left.
    + rewrite IH. split.
      * intros H x Hx. apply elem_of_cons in Hx as [->|Hx]; auto.
      * intros H x Hx. apply H. by right.
Qed.

Lemma first_hit_first de gene g :
  first_hit de gene = Some g ->
  exists pre post, de = pre ++ g :: post /\ hits gene g /\
                   forall x, x ∈ pre -> ~ hits gene x.
Proof.
  unfold first_hit, hits.
  destruct (Re.compile _ true) as [pat|] eqn:Hc; [|discriminate].
  induction de as [|a de IH]; simpl; [discriminate|].
  destruct (Re.search pat a) eqn:Ha; simpl.
  - intros [= ->]. exists [], de. split; [done|]. split; [eauto|].
    intros x Hx. inversion Hx.
  - intros H. destruct (IH H) as (pre & post & -> & Hg & Hpre).
    exists (a :: pre), post. split; [done|]. split; [done|].
    intros x Hx (pat' & Hc' & Hs). apply elem_of_cons in Hx as [->|Hx].
    + congruence.
    + apply (Hpre x Hx). eauto.
Qed.

Lemma first_hit_None de gene :
  first_hit de gene = None -> forall x, x ∈ de -> ~ hits gene x.
Proof.
  intros Hn x Hx Hh.
  destruct (hits_first_hit de gene x Hx Hh) as [g Hg]. congruence.
Qed.

(** C1 (amended).  In the mapping [check_markers] returns, every cluster
    of the DE table is a key and no other cluster is, also a cluster
    without any match, whose dictionary is then empty.  Under a cluster
    a category is present exactly when one of its patterns found one of
    the DE genes of that cluster, and never with an empty list. *)
Theorem check_markers_entries (de mk : gmap string (list string))
    (matches : gmap string (gmap string (list string)))
    (Hrun : check_markers de mk = Ok matches) :
  forall group,
    (de !! group = None -> matches !! group = None) /\
    (forall de_g, de !! group = Some de_g ->
       exists mg, matches !! group = Some mg /\
         forall key,
           mg !! key <> Some [] /\
           (is_Some (mg !! key) <->
            exists markers gene g,
              mk !! key = Some markers /\ gene ∈ markers /\ g ∈ de_g /\
              hits gene g)).
Proof.
  intros group. pose proof (check_markers_lookup _ _ _ group Hrun) as Hl.
  split.
  - intros Hn. by rewrite Hn in Hl.
  - intros de_g Hg. rewrite Hg in Hl. destruct Hl as (mg & Hk & Hm).
    exists mg. split; [done|]. intros key.
    rewrite (keys_loop_map _ _ _ key Hk).
    destruct (mk !! key) as [markers|] eqn:Hmk.
    + destruct (omap (first_hit de_g) markers) as [|x l] eqn:Ho.
      * split; [done|]. split; [by intros [? ?]|].
        intros (markers' & gene & g & [= <-] & Hin & Hgin & Hh).
        destruct (hits_first_hit de_g gene g Hgin Hh) as [y Hy].
        rewrite (proj1 (omap_nil_iff _ _) Ho gene Hin) in Hy. discriminate.
      * split; [done|]. split; [|eauto]. intros _.
        assert (Hx : x ∈ omap (first_hit de_g) markers) by (rewrite Ho; left).
        apply list_elem_of_omap in Hx as (gene & Hin & Hf).
        apply first_hit_Some in Hf as [Hxin Hh].
        exists markers, gene, x. done.
    + split; [done|]. split; [by intros [? ?]|].
      by intros (markers' & gene & g & [=] & _).
Qed.

(** The statement of C1 at the scenario of the specification. *)
Lemma check_markers_entries_witness :
  check_markers {[ "0" := ["Cd3e"; "Foxp3"] ]} {[ "Tcell" := ["Cd3e"; "Cd3d"] ]}
    = Ok {[ "0" := {[ "Tcell" := ["Cd3e"] ]} ]} /\
  exists mg, ({[ "0" := {[ "Tcell" := ["Cd3e"] ]} ]}
                : gmap string (gmap string (list string))) !! "0" = Some mg /\
    forall key,
      mg !! key <> Some [] /\
      (is_Some (mg !! key) <->
       exists markers gene g,
         ({[ "Tcell" := ["Cd3e"; "Cd3d"] ]} : gmap string (list string)) !! key
           = Some markers /\
         gene ∈ markers /\ g ∈ ["Cd3e"; "Foxp3"] /\ hits gene g).
Proof.
  assert (Hrun : check_markers {[ "0" := ["Cd3e"; "Foxp3"] ]}
                   {[ "Tcell" := ["Cd3e"; "Cd3d"] ]}
                 = Ok {[ "0" := {[ "Tcell" := ["Cd3e"] ]} ]})
    by (vm_compute; reflexivity).
  split; [exact Hrun|].
  apply (proj2 (check_markers_entries _ _ _ Hrun "0") ["Cd3e"; "Foxp3"]).
  vm_compute. reflexivity.
Defined.

(** C1, as stated, fails: a cluster without any match is not omitted, it
    is present with an empty dictionary. *)
Lemma check_markers_keeps_empty_cluster :
  check_markers {[ "0" := ["Foxp3"] ]} {[ "Tcell" := ["Cd3e"] ]}
    = Ok {[ "0" := ∅ ]} /\
  ~ hits "Cd3e" "Foxp3".
Proof.
  split.
  - vm_compute. reflexivity.
  - intros (regex & Hc & Hs). vm_compute in Hc. injection Hc as <-.
    vm_compute in Hs. discriminate.
Qed.

(** C3.  When the patterns compile, [check_markers] returns without an
    error; under each cluster and category it records, pattern by
    pattern and in the order of the patterns, the first DE gene of the
    cluster the pattern finds, and nothing for a pattern that finds
    none (the category is left out when no pattern finds a gene).  For
    the markers [{"Tcell": ["Cd3e", "Cd3d"]}] and the DE genes
    [["Cd3e", "Foxp3"]] of cluster ["0"] the result is
    [{"0": {"Tcell": ["Cd3e"]}}]. *)
Theorem check_markers_records_first_hits (de mk : gmap string (list string))
    (Hvalid : all_valid mk = true) :
  (exists matches, check_markers de mk = Ok matches /\
     forall group de_g key markers,
       de !! group = Some de_g -> mk !! key = Some markers ->
       exists mg, matches !! group = Some mg /\
         mg !! key =
           match omap (first_hit de_g) markers with
           | [] => None
           | found => Some found
           end /\
         forall gene, gene ∈ markers ->
           match first_hit de_g gene with
           | Some g =>
               exists pre post, de_g = pre ++ g :: post /\ hits gene g /\
                                forall x, x ∈ pre -> ~ hits gene x
           | None => forall x, x ∈ de_g -> ~ hits gene x
           end) /\
  check_markers {[ "0" := ["Cd3e"; "Foxp3"] ]} {[ "Tcell" := ["Cd3e"; "Cd3d"] ]}
    = Ok {[ "0" := {[ "Tcell" := ["Cd3e"] ]} ]}.
Proof.
  split; [|vm_compute; reflexivity].
  destruct (check_markers_total de mk Hvalid) as [matches Hrun].
  exists matches. split; [done|].
  intros group de_g key markers Hg Hk.
  pose proof (check_markers_lookup _ _ _ group Hrun) as Hl.
  rewrite Hg in Hl. destruct Hl as (mg & Hkl & Hm).
  exists mg. split; [done|]. split.
  - rewrite (keys_loop_map _ _ _ key Hkl), Hk. done.
  - intros gene Hin.
    destruct (first_hit de_g gene) as [g|] eqn:Hf.
    + by apply first_hit_first.
    + by apply first_hit_None.
Qed.

(** The statement of C3 at the scenario of the specification. *)
Lemma check_markers_records_first_hits_witness :
  all_valid {[ "Tcell" := ["Cd3e"; "Cd3d"] ]} = true /\
  exists matches,
    check_markers {[ "0" := ["Cd3e"; "Foxp3"] ]} {[ "Tcell" := ["Cd3e"; "Cd3d"] ]}
      = Ok matches.
Proof.
  assert (Hv : all_valid {[ "Tcell" := ["Cd3e"; "Cd3d"] ]} = true)
    by (vm_compute; reflexivity).
  split; [exact Hv|].
  destruct (proj1 (check_markers_records_first_hits
                     {[ "0" := ["Cd3e"; "Foxp3"] ]} _ Hv)) as (matches & Hrun & _).
  exists matches. exact Hrun.
Defined.

Lemma omap_two {A B} (f : A -> option B) (l : list A) i j x y b :
  i < j -> l !! i = Some x -> l !! j = Some y ->
  f x = Some b -> f y = Some b ->
  exists l1 l2 l3, omap f l = l1 ++ b :: l2 ++ b :: l3.
Proof.
  intros Hij Hi Hj Hx Hy.
  rewrite <- (take_drop_middle l i x Hi).
  assert (Hj' : drop (S i) l !! (j - S i) = Some y).
  { rewrite lookup_drop. rewrite <- Hj. f_equal. lia. }
  rewrite <- (take_drop_middle _ _ y Hj').
  rewrite omap_app. simpl. rewrite Hx. rewrite omap_app. simpl. rewrite Hy.
  eauto.
Qed.

(** C10.  When two patterns at different places of a category's list
    both find the same DE gene first, the list recorded for the category
    holds that gene once for each of them, so it has a duplicate. *)
Theorem check_markers_repeats_gene (de mk : gmap string (list string))
    (matches : gmap string (gmap string (list string)))
    (group key gene1 gene2 g : string) (de_g markers : list string) (i j : nat)
    (Hrun : check_markers de mk = Ok matches)
    (Hgroup : de !! group = Some de_g)
    (Hkey : mk !! key = Some markers)
    (Hij : i < j)
    (Hi : markers !! i = Some gene1)
    (Hj : markers !! j = Some gene2)
    (H1 : first_hit de_g gene1 = Some g)
    (H2 : first_hit de_g gene2 = Some g) :
  exists mg found l1 l2 l3,
    matches !! group = Some mg /\ mg !! key = Some found /\
    found = l1 ++ g :: l2 ++ g :: l3 /\ ~ NoDup found.
Proof.
  pose proof (check_markers_lookup _ _ _ group Hrun) as Hl.
  rewrite Hgroup in Hl. destruct Hl as (mg & Hkl & Hm).
  pose proof (keys_loop_map _ _ _ key Hkl) as Hmk. rewrite Hkey in Hmk.
  destruct (omap_two (first_hit de_g) markers i j gene1 gene2 g Hij Hi Hj H1 H2)
    as (l1 & l2 & l3 & Ho).
  rewrite Ho in Hmk.
  exists mg, (l1 ++ g :: l2 ++ g :: l3), l1, l2, l3.
  split; [done|]. split; [by destruct l1|]. split; [done|].
  intros Hnd. apply NoDup_app in Hnd as (_ & _ & Hnd).
  apply NoDup_cons in Hnd as [Hnin _]. apply Hnin.
  apply elem_of_app. right. left.
Qed.

(** The statement of C10 for the patterns ["Cd3e"] and ["cd3."]. *)
Lemma check_markers_repeats_gene_witness :
  check_markers {[ "0" := ["Cd3e"; "Foxp3"] ]} {[ "Tcell" := ["Cd3e"; "cd3."] ]}
    = Ok {[ "0" := {[ "Tcell" := ["Cd3e"; "Cd3e"] ]} ]} /\
  exists mg found l1 l2 l3,
    ({[ "0" := {[ "Tcell" := ["Cd3e"; "Cd3e"] ]} ]}
       : gmap string (gmap string (list string))) !! "0" = Some mg /\
    mg !! "Tcell" = Some found /\
    found = l1 ++ "Cd3e" :: l2 ++ "Cd3e" :: l3 /\ ~ NoDup found.
Proof.
  assert (Hrun : check_markers {[ "0" := ["Cd3e"; "Foxp3"] ]}
                   {[ "Tcell" := ["Cd3e"; "cd3."] ]}
                 = Ok {[ "0" := {[ "Tcell" := ["Cd3e"; "Cd3e"] ]} ]})
    by (vm_compute; reflexivity).
  split; [exact Hrun|].
  apply (check_markers_repeats_gene _ _ _ "0" "Tcell" "Cd3e" "cd3." "Cd3e"
           ["Cd3e"; "Foxp3"] ["Cd3e"; "cd3."] 0 1 Hrun).
  - vm_compute. reflexivity.
  - vm_compute. reflexivity.
  - lia.
  - reflexivity.
  - reflexivity.
  - vm_compute. reflexivity.
  - vm_compute. reflexivity.
Defined.

End CheckMarkersFacts.

(** ** Anchored patterns *)

Section AnchoredPatterns.

Import Markers.



Lemma last_snoc_cons {A} (l : list A) (x d : A) : List.last (l ++ [x]) d = x.
Proof. apply last_last. Qed.

Lemma last_default {A} (l : list A) (x d d' : A) :
  List.last (x :: l) d = List.last (x :: l) d'.
Proof. revert x. induction l as [|y l IH]; intros x; [done|]. apply (IH y). Qed.

Lemma last_cons {A} (l : list A) (x d : A) :
  List.last (x :: l) d = List.last l x.
Proof.
  destruct l as [|y l]; [done|].
  change (List.last (y :: l) d = List.last (y :: l) x). apply last_default.
Qed.















Lemma plain_step c st :
  Re.is_special c = false -> Re.is_ascii c = true -> Re.esc st = false ->
  Re.step c st = Some (Re.put st (Re.push (Re.Chr c) Re.KAtom (Re.top st))).
Proof.
  intros Hs Ha He. unfold Re.is_special in Hs. simpl in Hs.
  repeat (apply orb_false_elim in Hs as [? Hs]).
  unfold Re.step. rewrite He.
  repeat match goal with E : Ascii.eqb c _ = false |- _ => rewrite E end.
  by rewrite Ha.
Qed.

Lemma plain_run cs : forall st,
  forallb (fun c => negb (Re.is_special c) && Re.is_ascii c) cs = true ->
  Re.esc st = false ->
  Re.run cs st =
  Some (Re.PState (Re.stack st)
          (Re.Frame (Re.alts (Re.top st))
             (rev (map (fun c => (Re.Chr c, Re.KAtom)) cs) ++ Re.cur (Re.top st)))
          false).
Proof.
  induction cs as [|c cs IH]; intros st H He; simpl in H.
  - destruct st as [stack [af cf] e]. simpl in *. by subst e.
  - apply andb_true_iff in H as [Hc H]. apply andb_true_iff in Hc as [Hc Ha].
    apply negb_true_iff in Hc.
    cbn [Re.run]. rewrite plain_step by done. rewrite IH by done.
    simpl. by rewrite <- app_assoc.
Qed.

(** A plain name is the sequence of its characters. *)
Lemma branch_plain p :
  Re.plain p = true ->
  Re.branch p = Some (map Re.Chr (list_ascii_of_string p)).
Proof.
  intros H. unfold Re.branch. rewrite plain_run by done.
  unfold Re.branch_of. simpl.
  by rewrite app_nil_r, map_rev, rev_involutive, map_map.
Qed.







Lemma single_plain p : Re.plain p = true -> Re.single p = true.
Proof. intros H. unfold Re.single. by rewrite branch_plain. Qed.








End AnchoredPatterns.

(** ** [plot_markers] *)

Section PlotMarkersFacts.

Import Markers.

Lemma compile_not_ValueError p ic : is_ValueError (Re.compile p ic) = false.
Proof.
  unfold Re.compile. destruct (Re.parse _); [done|]. by destruct (Re.rejects p).
Qed.

Lemma compile_flag_not_ValueError (b : bool) p ic1 ic2 :
  is_ValueError (if b then Re.compile p ic1 else Re.compile p ic2) = false.
Proof. destruct b; apply compile_not_ValueError. Qed.

Lemma genes_pre_loop_not_ValueError ic names genes_pre : forall genes not_found,
  is_ValueError (genes_pre_loop ic names genes_pre genes not_found) = false.
Proof.
  induction genes_pre as [|gene rest IH]; intros genes not_found; simpl; [done|].
  pose proof (compile_flag_not_ValueError ic ("^" +:+ gene +:+ "$") true false) as Hc.
  destruct (if ic then _ else _) as [reg_ex|e]; simpl; [|exact Hc].
  destruct (search_all reg_ex names); apply IH.
Qed.

Lemma key_loop_not_ValueError ic names key : forall genes,
  is_ValueError (key_loop ic names key genes) = false.
Proof.
  induction key as [|gene rest IH]; intros genes; simpl; [done|].
  pose proof (compile_flag_not_ValueError ic (String gene EmptyString) true false) as Hc.
  destruct (if ic then _ else _) as [reg_ex|e]; simpl; [|exact Hc].
  destruct (search_all reg_ex names) as [|g [|g' gs]]; [done | apply IH | done].
Qed.

Lemma get_var_names_spec adata use_raw :
  exists log, get_var_names adata use_raw = (log, Ok (searched_names adata use_raw)) /\
              plotted log = false.
Proof.
  unfold get_var_names, searched_names.
  destruct use_raw; [|by exists []].
  destruct (raw_var_names adata); simpl; eauto.
Qed.

(** [resolve] draws nothing, and raises a [ValueError] exactly for a
    missing protein block. *)
Lemma resolve_spec adata names key markers ignore_case protein prot_key prot_names_key :
  plotted (resolve adata names key markers ignore_case protein
             prot_key prot_names_key).1 = false /\
  (is_ValueError (resolve adata names key markers ignore_case protein
                    prot_key prot_names_key).2 = true <->
   protein = true /\
   (uns adata !! prot_names_key = None \/ prot_key ∉ obsm_keys adata)).
Proof.
  unfold resolve.
  destruct protein.
  - destruct markers as [markers|];
      (destruct (uns adata !! prot_names_key) as [protein_names|] eqn:Hu;
       [ case_bool_decide as Hk;
         [ pose proof (compile_flag_not_ValueError ignore_case key true false) as Hc;
           destruct (if ignore_case then _ else _) as [reg_ex|e]; simpl in *;
           (split; [done|]); (split; [congruence|]); intros [_ [?|?]]; done
         | simpl; split; [done|]; split; [auto|done] ]
       | simpl; split; [done|]; split; [auto|done] ]).
  - destruct markers as [markers|].
    + destruct (markers !! key) as [genes_pre|].
      * pose proof (genes_pre_loop_not_ValueError ignore_case names genes_pre [] []) as Hg.
        destruct (genes_pre_loop _ _ _ _ _) as [[genes not_found]|e]; simpl in *.
        -- destruct (0 <? length not_found)%nat; simpl;
             (split; [done|]); (split; [done|]); by intros [? _].
        -- split; [done|]. split; [congruence|]. by intros [? _].
      * pose proof (compile_flag_not_ValueError ignore_case key true true) as Hc.
        destruct (if ignore_case then _ else _) as [reg_ex|e]; simpl in *;
          (split; [done|]); (split; [congruence|]); by intros [? _].
    + pose proof (key_loop_not_ValueError ignore_case names (list_ascii_of_string key) []) as Hk.
      destruct (key_loop _ _ _ _) as [genes|e]; simpl in *;
        (split; [done|]); (split; [congruence|]); by intros [? _].
Qed.

Lemma plotted_app l1 l2 : plotted (l1 ++ l2) = plotted l1 || plotted l2.
Proof. unfold plotted. apply existsb_app. Qed.

(** [plot_markers] once the basis is known to exist, in terms of what
    [resolve] returns. *)
Lemma plot_markers_with_basis adata key markers basis n_max use_raw
    ignore_case protein prot_key prot_names_key :
  "X_" +:+ basis ∈ obsm_keys adata ->
  exists log1 log2 r,
    plotted log1 = false /\
    resolve adata (searched_names adata use_raw) key markers ignore_case protein
      prot_key prot_names_key = (log2, r) /\
    plot_markers adata key markers basis n_max use_raw ignore_case protein
      prot_key prot_names_key =
    match r with
    | Raise e => (log1 ++ log2, Raise e)
    | Ok [] =>
        (log1 ++ log2, Raise (ValueError "Could not find any gene or protein to plot."))
    | Ok genes =>
        let features :=
          if (n_max <? Z.of_nat (length genes))%Z then slice_to genes n_max
          else genes in
        (log1 ++ log2 ++
         (if (n_max <? Z.of_nat (length genes))%Z
          then [Print ("Found " +:+ pretty (length genes) +:+ " matches.")]
          else []) ++
         [PrintList (if negb protein then "Plotting the following genes:"
                     else "Plotting the following proteins:") features;
          Plot protein features],
         Ok tt)
    end.
Proof.
  intros Hb. unfold plot_markers. rewrite bool_decide_eq_true_2 by done.
  destruct (get_var_names_spec adata use_raw) as (l1 & Hv & Hl1).
  destruct (resolve adata (searched_names adata use_raw) key markers ignore_case
              protein prot_key prot_names_key) as [log2 r] eqn:Hr.
  exists ([Print ("Current key: " +:+ key); Print ("Basis: " +:+ basis)] ++ l1), log2, r.
  split; [by rewrite plotted_app, Hl1|]. split; [done|].
  unfold mbind at 1 2 3. cbn [emit app]. rewrite Hv.
  unfold mbind at 1. rewrite Hr.
  destruct r as [genes|e]; [|done].
  destruct genes as [|g genes]; cbn [length Nat.eqb raise].
  - by rewrite app_nil_r.
  - destruct (n_max <? _)%Z; destruct protein; cbv [mbind emit ret negb];
      cbn [app]; rewrite <- ?app_assoc; reflexivity.
Qed.

(** The [ValueError] outcomes of [plot_markers]: the basis is not among
    the embeddings, or protein mode is on and the protein names or the
    protein block are missing, or the resolution returns an empty list,
    and no other.  For a missing basis the error comes first, before
    anything is printed or looked up; and whenever a [ValueError] is
    raised the drawing stage is not entered. *)
Lemma plot_markers_value_errors (adata : AnnData) (key : string)
    (markers : option (gmap string (list string))) (basis : string) (n_max : Z)
    (use_raw ignore_case protein : bool) (prot_key prot_names_key : string) :
  let out := plot_markers adata key markers basis n_max use_raw ignore_case
               protein prot_key prot_names_key in
  (is_ValueError out.2 = true <->
   "X_" +:+ basis ∉ obsm_keys adata \/
   ("X_" +:+ basis ∈ obsm_keys adata /\ protein = true /\
    (uns adata !! prot_names_key = None \/ prot_key ∉ obsm_keys adata)) \/
   ("X_" +:+ basis ∈ obsm_keys adata /\
    (resolve adata (searched_names adata use_raw) key markers ignore_case
       protein prot_key prot_names_key).2 = Ok [])) /\
  ("X_" +:+ basis ∉ obsm_keys adata ->
   out = ([], Raise (ValueError ("You have not computed the basis " +:+ basis +:+ " yet. ")))) /\
  (is_ValueError out.2 = true -> plotted out.1 = false).
Proof.
  intros out. subst out.
  destruct (decide ("X_" +:+ basis ∈ obsm_keys adata)) as [Hb|Hb].
  - destruct (plot_markers_with_basis adata key markers basis n_max use_raw
                ignore_case protein prot_key prot_names_key Hb)
      as (log1 & log2 & r & Hl1 & Hr & ->).
    pose proof (resolve_spec adata (searched_names adata use_raw) key markers
                  ignore_case protein prot_key prot_names_key) as [Hpl Hve].
    rewrite Hr in Hpl, Hve |- *. simpl in Hpl, Hve. simpl snd.
    destruct r as [[|g genes]|e]; simpl.
    + split; [|split; [done|]].
      * split; [auto|done].
      * intros _. by rewrite plotted_app, Hl1, Hpl.
    + split; [|split; [done|discriminate]].
      split; [discriminate|]. intros [?|[(_ & Hp)|[_ ?]]]; [done| |done].
      apply Hve in Hp. discriminate.
    + split; [|split; [done|]].
      * rewrite Hve. split; [auto|]. intros [?|[(_ & Hp)|[_ ?]]]; done.
      * intros _. by rewrite plotted_app, Hl1, Hpl.
  - unfold plot_markers. rewrite bool_decide_eq_false_2 by done. simpl.
    split; [|done]. split; auto.
Qed.

Lemma not_plotted_elem log p f : plotted log = false -> Plot p f ∉ log.
Proof.
  intros H Hin. apply list_elem_of_In in Hin.
  assert (plotted log = true); [|congruence].
  unfold plotted. apply existsb_exists. by exists (Plot p f).
Qed.

Lemma slice_to_nonneg {A} (l : list A) n :
  (0 <= n)%Z -> slice_to l n = firstn (Z.to_nat n) l.
Proof. intros H. unfold slice_to. by rewrite (proj2 (Z.leb_le 0 n) H). Qed.

(** C6 (amended).  For [n_max >= 0], whatever [plot_markers] draws is
    the list the resolution returned cut to its first [n_max] names, so
    at most [n_max] features; when the resolution returned more than
    [n_max] names, a line is printed that gives the number of matches
    found.  And whenever the resolution returns a non-empty list, that
    cut list is drawn. *)
Theorem plot_markers_truncates (adata : AnnData) (key : string)
    (markers : option (gmap string (list string))) (basis : string) (n_max : Z)
    (use_raw ignore_case protein : bool) (prot_key prot_names_key : string)
    (Hn : (0 <= n_max)%Z) :
  let out := plot_markers adata key markers basis n_max use_raw ignore_case
               protein prot_key prot_names_key in
  let resolved := (resolve adata (searched_names adata use_raw) key markers
                     ignore_case protein prot_key prot_names_key).2 in
  (forall p features, Plot p features ∈ out.1 ->
     exists genes, resolved = Ok genes /\
       features = firstn (Z.to_nat n_max) genes /\
       (length features <= Z.to_nat n_max)%nat /\
       ((n_max < Z.of_nat (length genes))%Z ->
        Print ("Found " +:+ pretty (length genes) +:+ " matches.") ∈ out.1)) /\
  (forall g genes, "X_" +:+ basis ∈ obsm_keys adata -> resolved = Ok (g :: genes) ->
     Plot protein (firstn (Z.to_nat n_max) (g :: genes)) ∈ out.1).
Proof.
  intros out resolved. subst out resolved.
  destruct (decide ("X_" +:+ basis ∈ obsm_keys adata)) as [Hb|Hb].
  - destruct (plot_markers_with_basis adata key markers basis n_max use_raw
                ignore_case protein prot_key prot_names_key Hb)
      as (log1 & log2 & r & Hl1 & Hr & ->).
    pose proof (resolve_spec adata (searched_names adata use_raw) key markers
                  ignore_case protein prot_key prot_names_key) as [Hpl _].
    rewrite Hr in Hpl |- *. simpl in Hpl. simpl snd.
    assert (Hno : forall p f, Plot p f ∉ log1 ++ log2).
    { intros p f. apply not_plotted_elem. by rewrite plotted_app, Hl1, Hpl. }
    destruct r as [[|g genes]|e]; cbn [fst].
    + split; [|discriminate]. intros p f Hin. by apply Hno in Hin.
    + cbn zeta.
      assert (Hfeat : (if (n_max <? Z.of_nat (length (g :: genes)))%Z
                       then slice_to (g :: genes) n_max else g :: genes)
                      = firstn (Z.to_nat n_max) (g :: genes)).
      { destruct (Z.ltb_spec n_max (Z.of_nat (length (g :: genes)))).
        - by apply slice_to_nonneg.
        - symmetry. apply firstn_all2. lia. }
      rewrite Hfeat. split.
      * intros p f Hin. exists (g :: genes). split; [done|].
        rewrite app_assoc in Hin. apply elem_of_app in Hin as [Hin|Hin];
          [by apply Hno in Hin|].
        apply elem_of_app in Hin as [Hin|Hin].
        { destruct (n_max <? _)%Z; [|by apply elem_of_nil in Hin].
          apply list_elem_of_singleton in Hin. discriminate. }
        apply elem_of_cons in Hin as [Hin|Hin]; [discriminate|].
        apply list_elem_of_singleton in Hin. injection Hin as -> ->.
        split; [done|]. split; [rewrite length_firstn; lia|].
        intros Hlt. apply Z.ltb_lt in Hlt. rewrite Hlt.
        rewrite !elem_of_app. right. right. left. left.
      * intros g' genes' _ [= -> ->].
        rewrite !elem_of_app. right. right. right. right. left.
    + split; [|discriminate]. intros p f Hin. by apply Hno in Hin.
  - unfold plot_markers. rewrite bool_decide_eq_false_2 by done. simpl.
    split; [|done]. intros p f Hin. by apply elem_of_nil in Hin.
Qed.

(** The statement of C6 (amended) for three matches and [n_max = 2]. *)
Lemma plot_markers_truncates_witness :
  (0 <= 2)%Z /\
  Plot false (firstn (Z.to_nat 2) ["Cd3e"; "Cd4"; "Cd8a"]) ∈
    (plot_markers adata_cd "cd" (Some ∅) "umap" 2 false true false
       "prot" "prot_names").1.
Proof.
  assert (Hn : (0 <= 2)%Z) by lia.
  split; [exact Hn|].
  apply (proj2 (plot_markers_truncates adata_cd "cd" (Some ∅) "umap" 2
                  false true false "prot" "prot_names" Hn)
           "Cd3e" ["Cd4"; "Cd8a"]).
  - apply (bool_decide_unpack _). vm_compute. exact I.
  - vm_compute. reflexivity.
Defined.

(** C6, as stated, fails.  With three matches and [n_max = 1] two names
    are dropped, and the only note printed is ["Found 3 matches."]: it
    gives the number found, and no printed line mentions the number
    dropped.  With the negative bound [n_max = -1] two features are
    drawn, more than [n_max]. *)
Lemma plot_markers_note_counts_matches :
  plot_markers adata_cd "cd" (Some ∅) "umap" 1 false true false
    "prot" "prot_names"
    = ([Print "Current key: cd"; Print "Basis: umap";
        Print "Key not in the markers dict. Searching in the var names.";
        Print "Found 3 matches.";
        PrintList "Plotting the following genes:" ["Cd3e"];
        Plot false ["Cd3e"]],
       Ok tt) /\
  (length ["Cd3e"; "Cd4"; "Cd8a"] - Z.to_nat 1 = 2)%nat /\
  Forall (fun ev => match ev with
                    | Print text => index 0 "2" text = None
                    | _ => True
                    end)
    (plot_markers adata_cd "cd" (Some ∅) "umap" 1 false true false
       "prot" "prot_names").1 /\
  plot_markers adata_cd "cd" (Some ∅) "umap" (-1) false true false
    "prot" "prot_names"
    = ([Print "Current key: cd"; Print "Basis: umap";
        Print "Key not in the markers dict. Searching in the var names.";
        Print "Found 3 matches.";
        PrintList "Plotting the following genes:" ["Cd3e"; "Cd4"];
        Plot false ["Cd3e"; "Cd4"]],
       Ok tt).
Proof.
  split; [vm_compute; reflexivity|].
  split; [reflexivity|].
  split; [|vm_compute; reflexivity].
  assert (H : plot_markers adata_cd "cd" (Some ∅) "umap" 1 false true false
                "prot" "prot_names"
              = ([Print "Current key: cd"; Print "Basis: umap";
                  Print "Key not in the markers dict. Searching in the var names.";
                  Print "Found 3 matches.";
                  PrintList "Plotting the following genes:" ["Cd3e"];
                  Plot false ["Cd3e"]],
                 Ok tt)) by (vm_compute; reflexivity).
  rewrite H. repeat constructor.
Qed.

(** C5, the code at a key that matches no feature name.  Without a
    markers dictionary the resolution does not end with the empty list
    that line 217 tests for: the first character of ["Foxp3"] finds no
    name, [append] is called without an argument and [plot_markers]
    raises [TypeError], not [ValueError].  With a markers dictionary that
    lacks the key, the same key gives the [ValueError]. *)
Lemma plot_markers_no_match_type_error :
  plot_markers adata_cd "Foxp3" None "umap" 10 false true false
    "prot" "prot_names"
    = ([Print "Current key: Foxp3"; Print "Basis: umap";
        Print "No markers dict given. Searching in the var names."],
       Raise TypeError) /\
  (exists reg_ex, Re.compile "Foxp3" true = Ok reg_ex /\
                  search_all reg_ex (var_names adata_cd) = []) /\
  plot_markers adata_cd "Foxp3" (Some ∅) "umap" 10 false true false
    "prot" "prot_names"
    = ([Print "Current key: Foxp3"; Print "Basis: umap";
        Print "Key not in the markers dict. Searching in the var names."],
       Raise (ValueError "Could not find any gene or protein to plot.")).
Proof.
  split; [vm_compute; reflexivity|].
  split; [eexists; split; vm_compute; reflexivity|].
  vm_compute; reflexivity.
Qed.

(** C4, the code at two inputs.  With a markers dictionary that lacks the
    key, the key ["cd3"] finds ["Cd3e"] although [ignore_case] is off
    (line 160 compiles with [re.IGNORECASE] in both branches).  Without
    a markers dictionary the key ["Cd"] is not used as one expression:
    its first character alone finds three names and the call of
    [append] with three arguments raises [TypeError]. *)
Lemma plot_markers_free_text_defects :
  plot_markers adata_cd "cd3" (Some {[ "Tcell" := ["Cd4"] ]}) "umap" 10
    false false false "prot" "prot_names"
    = ([Print "Current key: cd3"; Print "Basis: umap";
        Print "Key not in the markers dict. Searching in the var names.";
        PrintList "Plotting the following genes:" ["Cd3e"];
        Plot false ["Cd3e"]],
       Ok tt) /\
  (exists reg_ex, Re.compile "cd3" false = Ok reg_ex /\
                  search_all reg_ex (var_names adata_cd) = []) /\
  plot_markers adata_cd "Cd" None "umap" 10 false true false
    "prot" "prot_names"
    = ([Print "Current key: Cd"; Print "Basis: umap";
        Print "No markers dict given. Searching in the var names."],
       Raise TypeError) /\
  (exists reg_ex, Re.compile "Cd" true = Ok reg_ex /\
                  search_all reg_ex (var_names adata_cd) = ["Cd3e"; "Cd4"; "Cd8a"]).
Proof.
  split; [vm_compute; reflexivity|].
  split; [eexists; split; vm_compute; reflexivity|].
  split; [vm_compute; reflexivity|].
  eexists; split; vm_compute; reflexivity.
Qed.

End PlotMarkersFacts.

(** ** [map_to_mgi] *)

Section MapToMgiFacts.

Import Mgi.

(** After [drop_duplicates] an identifier indexes at most one row: the
    first row the table had for it. *)
Lemma loc_drop_duplicates_from conv_table id : forall seen,
  loc (drop_duplicates_from seen conv_table) id =
  if bool_decide (id ∈ seen) then []
  else match List.find (fun r => String.eqb (fst r) id) conv_table with
       | Some r => [r]
       | None => []
       end.
Proof.
  induction conv_table as [|[id' name] rest IH]; intros seen.
  - simpl. by case_bool_decide.
  - cbn [drop_duplicates_from List.find fst].
    destruct (decide (id' ∈ seen)) as [Hs'|Hs'].
    + rewrite (bool_decide_eq_true_2 _ Hs'), IH.
      destruct (String.eqb_spec id' id) as [->|Hne]; [|done].
      by rewrite bool_decide_eq_true_2.
    + rewrite (bool_decide_eq_false_2 _ Hs').
      unfold loc. cbn [List.filter fst]. fold (loc (drop_duplicates_from (id' :: seen) rest) id).
      rewrite IH.
      destruct (String.eqb_spec id' id) as [->|Hne].
      * rewrite (bool_decide_eq_true_2 (id ∈ id :: seen)) by left.
        by rewrite bool_decide_eq_false_2.
      * destruct (decide (id ∈ seen)) as [Hs|Hs].
        -- rewrite !bool_decide_eq_true_2; [done | done | by right].
        -- rewrite !bool_decide_eq_false_2; [done | done |].
           intros Hin. apply elem_of_cons in Hin as [?|?]; congruence.
Qed.

Lemma loc_drop_duplicates conv_table id :
  loc (drop_duplicates conv_table) id =
  match List.find (fun r => String.eqb (fst r) id) conv_table with
  | Some r => [r]
  | None => []
  end.
Proof.
  unfold drop_duplicates. rewrite loc_drop_duplicates_from.
  rewrite bool_decide_eq_false_2; [done | apply not_elem_of_nil].
Qed.

(** Against a deduplicated table the left join is a row-by-row lookup. *)
Lemma join_drop_duplicates var_names conv_table :
  join var_names (drop_duplicates conv_table) =
  map (fun id => (id, first_symbol conv_table id)) var_names.
Proof.
  unfold join.
  rewrite (List.flat_map_ext _ (fun id => [(id, first_symbol conv_table id)])).
  - induction var_names as [|id rest IH]; simpl; [done | by rewrite IH].
  - intros id. rewrite loc_drop_duplicates. unfold first_symbol.
    by destruct (List.find _ conv_table).
Qed.

Lemma map_to_mgi_eq var_names conv_table :
  map_to_mgi var_names conv_table =
  Ok (map (fun id => Some (default id (first_symbol conv_table id))) var_names).
Proof.
  unfold map_to_mgi. rewrite join_drop_duplicates.
  unfold fillna, gene_name. rewrite !map_map. simpl.
  rewrite length_map, Nat.eqb_refl. done.
Qed.

Lemma first_symbol_None conv_table id :
  (forall name, (id, Some name) ∉ conv_table) -> first_symbol conv_table id = None.
Proof.
  intros H. unfold first_symbol.
  destruct (List.find _ conv_table) as [[id' [name|]]|] eqn:Hf; [|done|done].
  apply find_some in Hf as [Hin Heq]. simpl in Heq.
  apply String.eqb_eq in Heq. subst id'.
  apply list_elem_of_In in Hin. by apply H in Hin.
Qed.

(** C8.  [map_to_mgi] writes no missing symbol: each feature gets the
    symbol of the first row of the table for its identifier, and its own
    identifier when that row is absent or has no symbol; in particular
    when no row maps the identifier to a symbol.  With the symbol of
    [ENSMUSG1] missing in the table, its symbol is ["ENSMUSG1"]. *)
Theorem map_to_mgi_fills_unmapped (var_names : list string)
    (conv_table : list row) :
  (exists mgi_symbols,
    map_to_mgi var_names conv_table = Ok mgi_symbols /\
    (None ∉ mgi_symbols) /\
    (forall i id, var_names !! i = Some id ->
       mgi_symbols !! i = Some (Some (default id (first_symbol conv_table id))) /\
       ((forall name, (id, Some name) ∉ conv_table) ->
        mgi_symbols !! i = Some (Some id)))) /\
  map_to_mgi ["ENSMUSG1"; "ENSMUSG2"]
    [("ENSMUSG1", None); ("ENSMUSG2", Some "Actb")]
    = Ok [Some "ENSMUSG1"; Some "Actb"].
Proof.
  split; [|reflexivity].
  eexists. split; [apply map_to_mgi_eq|]. split.
  - intros Hin. apply list_elem_of_fmap in Hin as (id & [=] & _).
  - intros i id Hi.
    assert (Hl : map (fun id => Some (default id (first_symbol conv_table id)))
                   var_names !! i
                 = Some (Some (default id (first_symbol conv_table id)))).
    { change (map ?f ?l) with (f <$> l). by rewrite list_lookup_fmap, Hi. }
    split; [exact Hl|]. intros Hun. by rewrite Hl, first_symbol_None.
Qed.

(** C9.  Against the deduplicated table the left join keeps the rows of
    the feature table as they are, so [map_to_mgi] succeeds and writes
    one symbol per feature, the i-th symbol being that of the i-th
    feature. *)
Theorem map_to_mgi_one_symbol_per_feature (var_names : list string)
    (conv_table : list row) :
  (join var_names (drop_duplicates conv_table)).*1 = var_names /\
  exists mgi_symbols,
    map_to_mgi var_names conv_table = Ok mgi_symbols /\
    length mgi_symbols = length var_names /\
    mgi_symbols =
      map (fun id => Some (default id (first_symbol conv_table id))) var_names.
Proof.
  split.
  - rewrite join_drop_duplicates.
    change (map fst (map (fun id => (id, first_symbol conv_table id)) var_names)
            = var_names).
    rewrite map_map. apply map_id.
  - eexists. split; [apply map_to_mgi_eq|]. split; [apply length_map | done].
Qed.

(** Without the deduplication the join would add rows. *)
Example join_duplicated_index :
  join ["ENSMUSG1"] [("ENSMUSG1", Some "A"); ("ENSMUSG1", Some "B")]
    = [("ENSMUSG1", Some "A"); ("ENSMUSG1", Some "B")] /\
  join ["ENSMUSG1"] (drop_duplicates [("ENSMUSG1", Some "A"); ("ENSMUSG1", Some "B")])
    = [("ENSMUSG1", Some "A")].
Proof. split; reflexivity. Qed.

End MapToMgiFacts.

(** ** [cluster_distr] *)

Section ClusterDistrFacts.

Import Batch.

(** Rounding to the nearest integer moves a number by at most a half. *)
Lemma rint_bound (x : Q) :
  (Qabs (inject_Z (rint x) - x) <= 1 # 2)%Q.
Proof.
  unfold rint.
  pose proof (Qfloor_le x) as Hlo.
  pose proof (Qlt_floor x) as Hhi.
  rewrite inject_Z_plus in Hhi. change (inject_Z 1) with 1%Q in Hhi.
  apply Qabs_Qle_condition.
  destruct (Qcompare_spec (x - inject_Z (Qfloor x)) (1 # 2)) as [He|Hl|Hg].
  - destruct (Z.even (Qfloor x));
      [|rewrite inject_Z_plus; change (inject_Z 1) with 1%Q]; split; lra.
  - split; lra.
  - rewrite inject_Z_plus. change (inject_Z 1) with 1%Q. split; lra.
Qed.

Lemma rint_comp (x y : Q) : (x == y)%Q -> rint x = rint y.
Proof.
  intros H. unfold rint. rewrite (Qfloor_comp _ _ H).
  assert (E : ((x - inject_Z (Qfloor y) ?= 1 # 2) =
               (y - inject_Z (Qfloor y) ?= 1 # 2))%Q) by (by rewrite H).
  by rewrite E.
Qed.

Lemma rint_Z (z : Z) : rint (inject_Z z) = z.
Proof.
  unfold rint. rewrite Qfloor_Z.
  assert (E : ((inject_Z z - inject_Z z ?= 1 # 2) = Lt)%Q).
  { assert (H : (inject_Z z - inject_Z z == 0)%Q) by ring. by rewrite H. }
  by rewrite E.
Qed.

Lemma pow2_pos (e : Z) : (0 < 2 ^ e)%Q.
Proof. apply Qpower_0_lt. reflexivity. Qed.

Lemma pow2_le (e e' : Z) : (e <= e')%Z -> (2 ^ e <= 2 ^ e')%Q.
Proof. intros H. apply Qpower_le_compat_l; [done|]. discriminate. Qed.

Lemma pow2_succ (e : Z) : (2 ^ (e + 1) == 2 * 2 ^ e)%Q.
Proof. rewrite Qpower_plus by discriminate. change (2 ^ 1)%Q with 2%Q. ring. Qed.

(** A non-negative number below [2^(E+1)] has an exponent of at most
    [E]. *)
Lemma exponent_le (x : Q) (E : Z) :
  (-1022 <= E)%Z -> (0 <= x)%Q -> (x < 2 ^ (E + 1))%Q -> (exponent x <= E)%Z.
Proof.
  intros HE Hx Hlt. unfold exponent. apply Z.max_lub; [|done].
  set (f := Qfloor (x * inject_Z (2 ^ 1074))).
  destruct (Z.le_gt_cases f 0) as [Hf|Hf].
  - rewrite Z.log2_nonpos by done. lia.
  - assert (Hb : (f < 2 ^ (E + 1075))%Z).
    { rewrite Zlt_Qlt, Zpower_Qpower by lia.
      apply Qle_lt_trans with (x * inject_Z (2 ^ 1074))%Q; [apply Qfloor_le|].
      rewrite Zpower_Qpower by lia.
      replace (E + 1075)%Z with ((E + 1) + 1074)%Z by lia.
      rewrite Qpower_plus by discriminate.
      apply Qmult_lt_compat_r; [apply pow2_pos | done]. }
    apply Z.log2_lt_pow2 in Hb; [lia | done].
Qed.

Lemma ulp_pos (x : Q) : (0 < ulp x)%Q.
Proof. apply pow2_pos. Qed.

Lemma ulp_le (x : Q) (E : Z) :
  (-1022 <= E)%Z -> (Qabs x < 2 ^ (E + 1))%Q -> (ulp x <= 2 ^ (E - 52))%Q.
Proof.
  intros HE Hx. unfold ulp. apply pow2_le.
  pose proof (exponent_le (Qabs x) E HE (Qabs_nonneg x) Hx). lia.
Qed.

(** Equal rationals round to the same binary64 number. *)
Lemma fl_comp (x y : Q) : (x == y)%Q -> fl x = fl y.
Proof. intros H. unfold fl. by rewrite (Qred_complete _ _ H). Qed.

Lemma fl_zero (x : Q) : (x == 0)%Q -> fl x = 0%Q.
Proof. intros H. by rewrite (fl_comp _ _ H). Qed.

Lemma fl_nonzero (x : Q) :
  ~ (x == 0)%Q ->
  (fl x == inject_Z (rint (Qred x / ulp (Qred x))) * ulp (Qred x))%Q.
Proof.
  intros H. unfold fl. cbv zeta.
  destruct (Qeq_bool (Qred x) 0) eqn:Hz.
  - apply Qeq_bool_iff in Hz. rewrite Qred_correct in Hz. done.
  - apply Qred_correct.
Qed.

(** Rounding to binary64 moves a number below [2^(E+1)] by at most half
    the distance of the binary64 numbers of exponent [E]. *)
Lemma fl_error (x : Q) (E : Z) :
  (-1022 <= E)%Z -> (Qabs x < 2 ^ (E + 1))%Q ->
  (Qabs (fl x - x) <= 2 ^ (E - 53))%Q.
Proof.
  intros HE Hx.
  destruct (Qeq_dec x 0) as [Hz|Hz].
  - rewrite (fl_zero x Hz), Hz.
    apply Qlt_le_weak. apply (pow2_pos (E - 53)).
  - rewrite (fl_nonzero x Hz).
    set (y := Qred x). assert (Hy : (y == x)%Q) by apply Qred_correct.
    assert (Hu : (0 < ulp y)%Q) by apply ulp_pos.
    assert (Hle : (ulp y <= 2 ^ (E - 52))%Q).
    { apply ulp_le; [done|]. by rewrite Hy. }
    assert (Hh : (2 ^ (E - 52) == 2 * 2 ^ (E - 53))%Q).
    { replace (E - 52)%Z with ((E - 53) + 1)%Z by lia. apply pow2_succ. }
    pose proof (rint_bound (y / ulp y)) as Hr.
    set (k := inject_Z (rint (y / ulp y))) in *.
    set (u := ulp y) in *.
    assert (Ed : (k * u - x == (k - y / u) * u)%Q).
    { rewrite <- Hy. field. lra. }
    rewrite Ed, Qabs_Qmult, (Qabs_pos u) by lra.
    apply Qle_trans with ((1 # 2) * u)%Q.
    + apply Qmult_le_compat_r; [done | lra].
    + lra.
Qed.

(** The integers below [2^53] are binary64 numbers. *)
Lemma fl_int (n : Z) :
  (0 <= n < 2 ^ 53)%Z -> (fl (inject_Z n) == inject_Z n)%Q.
Proof.
  intros [H0 Hn].
  destruct (Z.eq_dec n 0%Z) as [->|Hnz]; [reflexivity|].
  assert (Hq : ~ (inject_Z n == 0)%Q).
  { change 0%Q with (inject_Z 0). rewrite inject_Z_injective. done. }
  rewrite (fl_nonzero _ Hq).
  set (y := Qred (inject_Z n)).
  assert (Hy : (y == inject_Z n)%Q) by apply Qred_correct.
  assert (He : (exponent (Qabs y) <= 52)%Z).
  { apply exponent_le; [lia | apply Qabs_nonneg |].
    rewrite Hy, Qabs_pos.
    - change (2 ^ (52 + 1))%Q with (inject_Z (2 ^ 53)). rewrite <- Zlt_Qlt. done.
    - change 0%Q with (inject_Z 0). rewrite <- Zle_Qle. done. }
  assert (Hm : (-1022 <= exponent (Qabs y))%Z) by apply Z.le_max_r.
  unfold ulp. set (e := exponent (Qabs y)) in *.
  set (s := (52 - e)%Z).
  assert (Hu : (2 ^ (e - 52) == / inject_Z (2 ^ s))%Q).
  { replace (e - 52)%Z with (- s)%Z by (unfold s; lia).
    rewrite Qpower_opp, Zpower_Qpower by (unfold s; lia). reflexivity. }
  assert (Hp : (0 < inject_Z (2 ^ s))%Q).
  { change 0%Q with (inject_Z 0). rewrite <- Zlt_Qlt.
    apply Z.pow_pos_nonneg; unfold s; lia. }
  assert (Hd : (y / 2 ^ (e - 52) == inject_Z (n * 2 ^ s))%Q).
  { rewrite Hu, Hy, inject_Z_mult. field. lra. }
  rewrite (rint_comp _ _ Hd), rint_Z, Hu, inject_Z_mult. field. lra.
Qed.

Lemma pow2_m53 : (2 ^ (0 - 53) == 1 # 9007199254740992)%Q.
Proof. reflexivity. Qed.

Lemma pow2_m47 : (2 ^ (6 - 53) == 1 # 140737488355328)%Q.
Proof. reflexivity. Qed.

(** The number of hundredths [np.round] arrives at for the binary64
    quotient of two counts, the divisor below [2^44]: it lies within a
    half of the hundredfold of the exact quotient.  The two roundings
    before [rint] move the hundredfold by less than [2^(-45)], and a
    multiple of [1/n] other than a half is further from one. *)
Lemma round2_div (a n : Z) :
  (0 <= a <= n)%Z -> (0 < n < 2 ^ 44)%Z ->
  let k := rint (fl (fl (inject_Z a / inject_Z n) * 100)) in
  (0 <= k <= 100)%Z /\ (2 * Z.abs (k * n - 100 * a) <= n)%Z.
Proof.
  intros [Ha0 Han] [Hn0 Hn] k.
  assert (Hnq : (0 < inject_Z n)%Q).
  { change 0%Q with (inject_Z 0). by rewrite <- Zlt_Qlt. }
  assert (Haq : (0 <= inject_Z a)%Q).
  { change 0%Q with (inject_Z 0). by rewrite <- Zle_Qle. }
  assert (Hanq : (inject_Z a <= inject_Z n)%Q) by (by rewrite <- Zle_Qle).
  assert (Hnb : (inject_Z n < 17592186044416)%Q).
  { change 17592186044416%Q with (inject_Z (2 ^ 44)). by rewrite <- Zlt_Qlt. }
  set (q := (inject_Z a / inject_Z n)%Q) in *.
  assert (Hqn : (q * inject_Z n == inject_Z a)%Q) by (unfold q; field; lra).
  assert (Hq0 : (0 <= q)%Q).
  { unfold q. apply Qle_shift_div_l; [done | lra]. }
  assert (Hq1 : (q <= 1)%Q).
  { unfold q. apply Qle_shift_div_r; [done | lra]. }
  pose proof (fl_error q 0) as Hx.
  rewrite pow2_m53 in Hx. change (2 ^ (0 + 1))%Q with 2%Q in Hx.
  specialize (Hx ltac:(lia)).
  assert (Hqa : (Qabs q < 2)%Q) by (rewrite Qabs_pos by done; lra).
  specialize (Hx Hqa). apply Qabs_Qle_condition in Hx.
  set (x := fl q) in *.
  pose proof (fl_error (x * 100) 6) as Hm.
  rewrite pow2_m47 in Hm. change (2 ^ (6 + 1))%Q with 128%Q in Hm.
  specialize (Hm ltac:(lia)).
  assert (Hxa : (Qabs (x * 100) < 128)%Q).
  { apply Qabs_Qlt_condition. split; lra. }
  specialize (Hm Hxa). apply Qabs_Qle_condition in Hm.
  set (m := fl (x * 100)) in *.
  pose proof (rint_bound m) as Hk. apply Qabs_Qle_condition in Hk.
  fold k in Hk. set (kq := inject_Z k) in *.
  assert (Hlo : (- (1 # 2) - (1 # 35184372088832) <= kq - 100 * q)%Q) by lra.
  assert (Hhi : (kq - 100 * q <= (1 # 2) + (1 # 35184372088832))%Q) by lra.
  split.
  - split.
    + assert (H : (inject_Z (-1) < kq)%Q)
        by (change (inject_Z (-1)) with (-1)%Q; lra).
      unfold kq in H. rewrite <- Zlt_Qlt in H. lia.
    + assert (H : (kq < inject_Z 101)%Q)
        by (change (inject_Z 101) with 101%Q; lra).
      unfold kq in H. rewrite <- Zlt_Qlt in H. lia.
  - assert (Ed : (inject_Z (k * n - 100 * a) == (kq - 100 * q) * inject_Z n)%Q).
    { unfold Zminus. rewrite inject_Z_plus, inject_Z_opp, !inject_Z_mult.
      rewrite <- Hqn. change (inject_Z 100) with 100%Q. unfold kq. ring. }
    assert (H1 : ((kq - 100 * q) * inject_Z n
                  <= ((1 # 2) + (1 # 35184372088832)) * inject_Z n)%Q)
      by (apply Qmult_le_compat_r; lra).
    assert (H2 : ((- (1 # 2) - (1 # 35184372088832)) * inject_Z n
                  <= (kq - 100 * q) * inject_Z n)%Q)
      by (apply Qmult_le_compat_r; lra).
    rewrite <- Ed in H1, H2.
    assert (H3 : (inject_Z (2 * (k * n - 100 * a)) < inject_Z (n + 1))%Q).
    { rewrite inject_Z_mult, inject_Z_plus.
      change (inject_Z 2) with 2%Q. change (inject_Z 1) with 1%Q.
      revert H1 Hnb Hnq. generalize (inject_Z (k * n - 100 * a)) (inject_Z n).
      intros d nq ? ? ?. lra. }
    assert (H4 : (inject_Z (- (n + 1)) < inject_Z (2 * (k * n - 100 * a)))%Q).
    { rewrite inject_Z_mult, inject_Z_opp, inject_Z_plus.
      change (inject_Z 2) with 2%Q. change (inject_Z 1) with 1%Q.
      revert H2 Hnb Hnq. generalize (inject_Z (k * n - 100 * a)) (inject_Z n).
      intros d nq ? ? ?. lra. }
    rewrite <- Zlt_Qlt in H3, H4. lia.
Qed.

(** An entry of a percentage column, the cluster having fewer than
    [2^44] cells: the float of a number of hundredths that is the
    quotient of the counts rounded to two decimals. *)
Lemma np_round2_div (a n : nat) :
  a <= n -> (0 < Z.of_nat n < 2 ^ 44)%Z ->
  exists k : Z,
    np_round2 (np_div a n) = hundredth k /\
    (0 <= k <= 100)%Z /\ rounds_to a n k.
Proof.
  intros Ha Hn. destruct n as [|n]; [lia|].
  cbn [np_div np_round2]. unfold hundredth, rounds_to.
  assert (E : fl (fl (inject_Z (Z.of_nat a)) / fl (inject_Z (Z.of_nat (S n)))) =
              fl (inject_Z (Z.of_nat a) / inject_Z (Z.of_nat (S n)))).
  { apply fl_comp. rewrite !fl_int by lia. reflexivity. }
  rewrite E. eexists. split; [reflexivity|]. apply round2_div; lia.
Qed.

(** The floats of the hundredths from 0 to 100 lie between 0 and 1. *)
Lemma hundredth_range (k : Z) :
  (0 <= k <= 100)%Z -> (0 <= fl (inject_Z k / 100) <= 1)%Q.
Proof.
  intros Hk.
  assert (H : forallb (fun j => Qle_bool 0 (fl (inject_Z (Z.of_nat j) / 100)) &&
                                Qle_bool (fl (inject_Z (Z.of_nat j) / 100)) 1)
                (seq 0 101) = true) by (vm_compute; reflexivity).
  rewrite List.forallb_forall in H.
  specialize (H (Z.to_nat k)). rewrite Z2Nat.id in H by lia.
  assert (Hin : In (Z.to_nat k) (seq 0 101)) by (apply in_seq; lia).
  apply H, andb_prop in Hin as [H0 H1].
  by rewrite !Qle_bool_iff in *.
Qed.

(** The float of a number of hundredths differs from it by at most
    [2^(-53)]. *)
Lemma hundredth_error (k : Z) :
  (0 <= k <= 100)%Z ->
  (Qabs (fl (inject_Z k / 100) - inject_Z k / 100) <= 2 ^ (-53))%Q.
Proof.
  intros [H0 H1]. apply (fl_error _ 0); [lia|].
  assert (Ha : (0 <= inject_Z k)%Q).
  { change 0%Q with (inject_Z 0). by rewrite <- Zle_Qle. }
  assert (Hb : (inject_Z k <= 100)%Q).
  { change 100%Q with (inject_Z 100). by rewrite <- Zle_Qle. }
  change (2 ^ (0 + 1))%Q with 2%Q.
  rewrite Qabs_pos.
  - apply Qle_lt_trans with 1%Q; [|reflexivity].
    apply Qle_shift_div_r; [reflexivity | lra].
  - apply Qle_shift_div_l; [reflexivity | lra].
Qed.

Lemma np_sum_cons b mask :
  np_sum (b :: mask) = ((if b then 1 else 0) + np_sum mask)%nat.
Proof. unfold np_sum. simpl. by destruct b. Qed.

Lemma select_cons {A} b mask (c : A) column :
  select (b :: mask) (c :: column) =
  if b then c :: select mask column else select mask column.
Proof. unfold select. simpl. by destruct b. Qed.

Lemma cells_in_cons cv cl bv bt cluster batch :
  cells_in (cv :: cl) (bv :: bt) cluster batch =
  ((if bool_decide (bv = Some batch) && bool_decide (cv = Some cluster)
    then 1 else 0) + cells_in cl bt cluster batch)%nat.
Proof.
  unfold cells_in. cbn [combine List.filter fst snd].
  by destruct (_ && _).
Qed.

(** Counting a cluster among the cells of a batch counts the cells in
    both. *)
Lemma np_sum_select batch_column : forall cluster_column cluster batch,
  np_sum (eq_mask (select (eq_mask batch_column batch) cluster_column) cluster) =
  cells_in cluster_column batch_column cluster batch.
Proof.
  induction batch_column as [|bv bt IH]; intros [|cv cl] cluster batch;
    try reflexivity.
  rewrite cells_in_cons. cbn [eq_mask map]. rewrite select_cons.
  fold (eq_mask bt batch).
  destruct (bool_decide (bv = Some batch)); cbn [andb].
  - cbn [eq_mask map]. rewrite np_sum_cons.
    fold (eq_mask (select (eq_mask bt batch) cl) cluster). by rewrite IH.
  - by rewrite IH.
Qed.

Lemma sum_list_with_plus {A} (f g : A -> nat) l :
  sum_list_with (fun x => (f x + g x)%nat) l =
  (sum_list_with f l + sum_list_with g l)%nat.
Proof. induction l as [|a l IH]; simpl; [done | rewrite IH; lia]. Qed.

Lemma sum_list_with_eq {A} (f g : A -> nat) l :
  (forall x, f x = g x) -> sum_list_with f l = sum_list_with g l.
Proof. intros H. induction l as [|a l IH]; simpl; [done | by rewrite H, IH]. Qed.

Lemma sum_list_with_zero {A} (f : A -> nat) l :
  (forall x, x ∈ l -> f x = 0%nat) -> sum_list_with f l = 0%nat.
Proof.
  induction l as [|a l IH]; intros H; simpl; [done|].
  rewrite H by left. rewrite IH; [done|]. intros x Hx. apply H. by right.
Qed.

(** A label of a duplicate-free list is counted once. *)
Lemma sum_indicator (batches : list string) b0 :
  NoDup batches -> b0 ∈ batches ->
  sum_list_with (fun b => if bool_decide (Some b0 = Some b) then 1 else 0)%nat
    batches = 1%nat.
Proof.
  induction batches as [|a l IH]; intros Hnd Hin; [by apply elem_of_nil in Hin|].
  apply NoDup_cons in Hnd as [Ha Hnd]. simpl.
  apply elem_of_cons in Hin as [->|Hin].
  - rewrite bool_decide_eq_true_2 by done.
    rewrite sum_list_with_zero; [done|].
    intros x Hx. rewrite bool_decide_eq_false_2; [done|]. intros [= ->]. done.
  - rewrite bool_decide_eq_false_2 by (intros [= ->]; done).
    by rewrite IH.
Qed.

(** The cells of a cluster, batch by batch, are all its cells. *)
Lemma cells_in_sum batches cluster batch_column : forall cluster_column,
  NoDup batches ->
  length batch_column = length cluster_column ->
  labelled cluster_column batch_column batches cluster ->
  sum_list_with (cells_in cluster_column batch_column cluster) batches =
  np_sum (eq_mask cluster_column cluster).
Proof.
  intros cl Hnd. revert cl.
  induction batch_column as [|bv bt IH]; intros [|cv cl] Hlen Hlab;
    try discriminate.
  - apply sum_list_with_zero. done.
  - unfold labelled in Hlab. cbn [combine] in Hlab.
    apply Forall_cons in Hlab as [Hhead Hlab]. simpl in Hhead.
    change (eq_mask (cv :: cl) cluster)
      with (bool_decide (cv = Some cluster) :: eq_mask cl cluster).
    rewrite np_sum_cons.
    rewrite <- (IH cl) by (done || (simpl in Hlen; lia)).
    rewrite (sum_list_with_eq _
               (fun b => ((if bool_decide (bv = Some b) &&
                              bool_decide (cv = Some cluster) then 1 else 0) +
                          cells_in cl bt cluster b)%nat) batches)
      by (intros b; apply cells_in_cons).
    rewrite sum_list_with_plus. f_equal.
    destruct (decide (cv = Some cluster)) as [Hcv|Hcv].
    + rewrite (bool_decide_eq_true_2 _ Hcv).
      destruct (Hhead Hcv) as (b0 & -> & Hb0).
      rewrite (sum_list_with_eq _
                 (fun b => if bool_decide (Some b0 = Some b) then 1 else 0)%nat
                 batches)
        by (intros b; by rewrite andb_true_r).
      by apply sum_indicator.
    + rewrite (bool_decide_eq_false_2 _ Hcv).
      apply sum_list_with_zero. intros b _. by rewrite andb_false_r.
Qed.

Lemma combine_map_same {A B C} (f : A -> B) (g : A -> C) l :
  combine (map f l) (map g l) = map (fun x => (f x, g x)) l.
Proof. induction l as [|a l IH]; simpl; [done | by rewrite IH]. Qed.

(** A percentage column, entry by entry. *)
Lemma perc_column_eq cl bt clusters batch :
  perc_column cl bt clusters batch =
  map (fun cluster =>
         np_round2 (np_div (cells_in cl bt cluster batch)
                      (np_sum (eq_mask cl cluster))))
    clusters.
Proof.
  unfold perc_column, cells_per_cluster.
  rewrite combine_map_same, !map_map. apply map_ext. intros cluster. simpl.
  by rewrite np_sum_select.
Qed.

(** A row of the table, over its percentage columns. *)
Lemma perc_row_eq cl bt clusters batches i cluster :
  clusters !! i = Some cluster ->
  perc_row
    (map (fun batch => ("perc_" +:+ batch, perc_column cl bt clusters batch))
       batches) i =
  map (fun batch =>
         np_round2 (np_div (cells_in cl bt cluster batch)
                      (np_sum (eq_mask cl cluster))))
    batches.
Proof.
  intros Hi. unfold perc_row. rewrite map_map. apply map_ext. intros batch.
  simpl. rewrite perc_column_eq.
  change (map ?f clusters) with (f <$> clusters).
  by rewrite list_lookup_fmap, Hi.
Qed.

(** A row of percentages, the cluster having fewer than [2^44] cells:
    the floats of numbers of hundredths, each the quotient of the counts
    rounded to two decimals. *)
Lemma row_hundredths (n : nat) (counts : list nat) :
  (0 < Z.of_nat n < 2 ^ 44)%Z ->
  Forall (fun a => a <= n) counts ->
  exists ks : list Z,
    map (fun a => np_round2 (np_div a n)) counts = map hundredth ks /\
    Forall2 (fun a k => (0 <= k <= 100)%Z /\ rounds_to a n k) counts ks.
Proof.
  intros Hn. induction 1 as [|a counts Ha _ IH].
  - exists []. split; [done | constructor].
  - destruct IH as (ks & Hrow & Hks).
    destruct (np_round2_div a n Ha Hn) as (k & Hk & Hr).
    exists (k :: ks). split.
    + cbn [map]. by rewrite Hk, Hrow.
    + by constructor.
Qed.

(** The hundredths of a row add up to the hundredfold of the sum of the
    exact quotients, up to a half per entry. *)
Lemma hundredths_sum (n : nat) (counts : list nat) (ks : list Z) :
  Forall2 (fun a k => (0 <= k <= 100)%Z /\ rounds_to a n k) counts ks ->
  (2 * Z.abs (Zsum ks * Z.of_nat n - 100 * Z.of_nat (sum_list counts))
   <= Z.of_nat (length counts) * Z.of_nat n)%Z.
Proof.
  induction 1 as [|a k counts ks [_ Hk] _ IH].
  - cbn. lia.
  - unfold rounds_to in Hk. cbn [Zsum foldr sum_list sum_list_with length].
    fold (Zsum ks). fold (sum_list counts). change (id a) with a.
    rewrite Nat2Z.inj_add, Nat2Z.inj_succ, Z.mul_add_distr_r,
      Z.mul_add_distr_l, Z.mul_succ_l.
    lia.
Qed.

(** The exact sum of the floats of a row of hundredths differs from the
    hundredths by at most [2^(-53)] per entry. *)
Lemma float_sum_hundredths (ks : list Z) :
  Forall (fun k => (0 <= k <= 100)%Z) ks ->
  exists total,
    float_sum (map hundredth ks) = Some total /\
    (Qabs (total - inject_Z (Zsum ks) / 100)
     <= inject_Z (Z.of_nat (length ks)) * 2 ^ (-53))%Q.
Proof.
  induction 1 as [|k ks Hk _ IH].
  - exists 0%Q. split; [done|]. vm_compute. discriminate.
  - destruct IH as (rest & Hrest & Hbound).
    pose proof (hundredth_error k Hk) as He.
    exists (fl (inject_Z k / 100) + rest)%Q. split.
    + cbn [map float_sum hundredth]. fold hundredth. by rewrite Hrest.
    + assert (Es : (inject_Z (Zsum (k :: ks)) ==
                    inject_Z k + inject_Z (Zsum ks))%Q).
      { cbn [Zsum foldr]. fold (Zsum ks). by rewrite inject_Z_plus. }
      assert (El : (inject_Z (Z.of_nat (length (k :: ks))) ==
                    inject_Z (Z.of_nat (length ks)) + 1)%Q).
      { cbn [length]. rewrite Nat2Z.inj_succ, <- Z.add_1_r, inject_Z_plus.
        reflexivity. }
      rewrite Es, El.
      apply Qabs_Qle_condition in Hbound, He. apply Qabs_Qle_condition.
      set (v := fl (inject_Z k / 100)) in *.
      set (x := inject_Z k) in *. set (s := inject_Z (Zsum ks)) in *.
      set (m := inject_Z (Z.of_nat (length ks))) in *.
      set (u := (2 ^ (-53))%Q) in *.
      assert (E : ((x + s) / 100 == x / 100 + s / 100)%Q) by field.
      rewrite E. split; lra.
Qed.

Lemma sum_list_map {A} (f : A -> nat) l :
  sum_list (map f l) = sum_list_with f l.
Proof. induction l as [|a l IH]; simpl; [done | by rewrite IH]. Qed.

Lemma sum_list_with_ge {A} (f : A -> nat) l x :
  x ∈ l -> f x <= sum_list_with f l.
Proof.
  induction 1 as [x l|x y l _ IH]; cbn [sum_list_with]; lia.
Qed.

(** C7 (amended).  When both keys are columns of [adata.obs],
    [cluster_distr] returns a table indexed by the clusters, with the
    cell count of each cluster in ['total number'] and one column
    ['perc_' + batch] per batch.  The entry of a cluster and a batch is
    what [np.round(., 2)] makes of the binary64 quotient of the number
    of cells in both by the number of cells in the cluster.  For a
    cluster that has a cell, fewer than [2^44] of them, and whose cells
    all carry a batch label, the counts per batch add up to the count of
    the cluster; every entry of its row is the float of a number of
    hundredths between 0 and 100 that is the exact quotient rounded to
    two decimals; these hundredths add up to 100 up to a half per batch;
    and the floats themselves add up to 1 up to [1/200 + 2^(-53)] per
    batch. *)
Theorem cluster_distr_percentages (entropy : list float -> float)
    (obs : gmap string Categorical) (cluster_key batch_key : string) (eps : Q)
    (cl bt : Categorical)
    (Hcluster : obs !! cluster_key = Some cl)
    (Hbatch : obs !! batch_key = Some bt) :
  exists warnings table,
    cluster_distr entropy obs cluster_key batch_key eps = (warnings, Ok table) /\
    index table = categories cl /\
    total_number table =
      map (fun cluster => np_sum (eq_mask (values cl) cluster)) (categories cl) /\
    (perc table).*1 = map (fun batch => "perc_" +:+ batch) (categories bt) /\
    forall i cluster, categories cl !! i = Some cluster ->
      let n := np_sum (eq_mask (values cl) cluster) in
      perc_row (perc table) i =
        map (fun batch =>
               np_round2
                 (np_div (cells_in (values cl) (values bt) cluster batch) n))
          (categories bt) /\
      ((0 < Z.of_nat n < 2 ^ 44)%Z ->
       NoDup (categories bt) ->
       length (values bt) = length (values cl) ->
       labelled (values cl) (values bt) (categories bt) cluster ->
       sum_list_with (cells_in (values cl) (values bt) cluster) (categories bt) = n /\
       exists hundredths : list Z,
         perc_row (perc table) i = map hundredth hundredths /\
         Forall2 (fun batch k =>
                    (0 <= k <= 100)%Z /\
                    rounds_to (cells_in (values cl) (values bt) cluster batch) n k)
           (categories bt) hundredths /\
         (2 * Z.abs (Zsum hundredths - 100)
          <= Z.of_nat (length (categories bt)))%Z /\
         exists total,
           float_sum (perc_row (perc table) i) = Some total /\
           (Qabs (total - 1)
            <= inject_Z (Z.of_nat (length (categories bt))) *
               ((1 # 200) + 2 ^ (-53)))%Q).
Proof.
  unfold cluster_distr. rewrite Hcluster, Hbatch.
  eexists _, _. split; [reflexivity|]. cbn [index total_number perc].
  split; [done|]. split; [done|]. split.
  { change (map fst (map (fun batch => ("perc_" +:+ batch,
              perc_column (values cl) (values bt) (categories cl) batch))
              (categories bt)) = map (fun batch => "perc_" +:+ batch) (categories bt)).
    by rewrite map_map. }
  intros i cluster Hi. set (n := np_sum (eq_mask (values cl) cluster)).
  pose proof (perc_row_eq (values cl) (values bt) (categories cl) (categories bt)
                i cluster Hi) as Hrow.
  split; [exact Hrow|].
  intros Hn Hnd Hlen Hlab.
  pose proof (cells_in_sum _ _ _ _ Hnd Hlen Hlab) as Hsum. fold n in Hsum.
  split; [exact Hsum|].
  set (count := cells_in (values cl) (values bt) cluster) in *.
  fold n in Hrow.
  assert (Hle : Forall (fun a => a <= n) (map count (categories bt))).
  { apply Forall_forall. intros a Ha.
    change (map count (categories bt)) with (count <$> categories bt) in Ha.
    apply list_elem_of_fmap in Ha as (batch & -> & Hb).
    rewrite <- Hsum. by apply sum_list_with_ge. }
  destruct (row_hundredths n (map count (categories bt)) Hn Hle)
    as (ks & Hks & Hnear).
  rewrite map_map in Hks.
  pose proof (hundredths_sum _ _ _ Hnear) as Hs.
  rewrite sum_list_map, length_map, Hsum in Hs.
  assert (Hs' : (2 * Z.abs (Zsum ks - 100) <= Z.of_nat (length (categories bt)))%Z).
  { replace (Zsum ks * Z.of_nat n - 100 * Z.of_nat n)%Z
      with ((Zsum ks - 100) * Z.of_nat n)%Z in Hs by ring.
    rewrite Z.abs_mul, (Z.abs_eq (Z.of_nat n)) in Hs by lia.
    apply (Z.mul_le_mono_pos_r _ _ (Z.of_nat n)); lia. }
  exists ks. split; [by rewrite Hrow|]. split.
  { clear -Hnear. revert ks Hnear.
    induction (categories bt) as [|batch batches IH]; intros ks Hnear;
      inversion Hnear; subst; constructor; auto. }
  split; [exact Hs'|].
  assert (Hrange : Forall (fun k => (0 <= k <= 100)%Z) ks).
  { clear -Hnear. induction Hnear as [|? ? ? ? [? _]]; constructor; auto. }
  destruct (float_sum_hundredths ks Hrange) as (total & Htotal & Hbound).
  exists total. split; [by rewrite Hrow, Hks|].
  assert (Hlen' : length ks = length (categories bt)).
  { apply Forall2_length in Hnear. by rewrite length_map in Hnear. }
  rewrite Hlen' in Hbound.
  assert (Hq : (Qabs (inject_Z (Zsum ks) / 100 - 1)
                <= inject_Z (Z.of_nat (length (categories bt))) * (1 # 200))%Q).
  { apply Qabs_Qle_condition.
    assert (H1 : (inject_Z (2 * Zsum ks)
                  <= inject_Z (Z.of_nat (length (categories bt)) + 200))%Q)
      by (rewrite <- Zle_Qle; lia).
    assert (H2 : (inject_Z 200
                  <= inject_Z (2 * Zsum ks + Z.of_nat (length (categories bt))))%Q)
      by (rewrite <- Zle_Qle; lia).
    rewrite inject_Z_plus, inject_Z_mult in H1, H2.
    change (inject_Z 2) with 2%Q in *. change (inject_Z 200) with 200%Q in *.
    revert H1 H2.
    generalize (inject_Z (Zsum ks)) (inject_Z (Z.of_nat (length (categories bt)))).
    intros s m H1 H2.
    assert (E : (s / 100 - 1 == (s + -100) / 100)%Q) by field.
    rewrite E. split.
    - apply Qle_shift_div_l; [reflexivity | lra].
    - apply Qle_shift_div_r; [reflexivity | lra]. }
  apply Qabs_Qle_condition in Hbound, Hq. apply Qabs_Qle_condition.
  revert Hbound Hq.
  generalize (inject_Z (Zsum ks) / 100)%Q
             (inject_Z (Z.of_nat (length (categories bt)))) (2 ^ (-53))%Q.
  intros s m u ? ?. split; lra.
Qed.

(** The statement of C7 (amended) for three cells in three batches: the
    percentages are the floats of 33 hundredths each. *)
Lemma cluster_distr_percentages_witness :
  obs_three_batches !! "louvain"
    = Some (Build_Categorical ["0"] [Some "0"; Some "0"; Some "0"]) /\
  obs_three_batches !! "batch"
    = Some (Build_Categorical ["a"; "b"; "c"] [Some "a"; Some "b"; Some "c"]) /\
  exists warnings table,
    cluster_distr (fun _ => None) obs_three_batches "louvain" "batch" (2 # 5)
      = (warnings, Ok table) /\
    exists hundredths : list Z,
      perc_row (perc table) 0 = map hundredth hundredths /\
      (2 * Z.abs (Zsum hundredths - 100) <= Z.of_nat 3)%Z /\
      exists total,
        float_sum (perc_row (perc table) 0) = Some total /\
        (Qabs (total - 1) <= inject_Z (Z.of_nat 3) * ((1 # 200) + 2 ^ (-53)))%Q.
Proof.
  assert (Hc : obs_three_batches !! "louvain"
               = Some (Build_Categorical ["0"] [Some "0"; Some "0"; Some "0"]))
    by (vm_compute; reflexivity).
  assert (Hb : obs_three_batches !! "batch"
               = Some (Build_Categorical ["a"; "b"; "c"]
                         [Some "a"; Some "b"; Some "c"]))
    by (vm_compute; reflexivity).
  split; [exact Hc|]. split; [exact Hb|].
  destruct (cluster_distr_percentages (fun _ => None) obs_three_batches
              "louvain" "batch" (2 # 5) _ _ Hc Hb)
    as (warnings & table & Hrun & _ & _ & _ & Hrows).
  exists warnings, table. split; [exact Hrun|].
  destruct (Hrows 0%nat "0" eq_refl) as [_ Hsum].
  destruct Hsum as (_ & ks & Hks & _ & Hs & Htotal).
  - vm_compute. split; reflexivity.
  - apply (bool_decide_unpack _). vm_compute. exact I.
  - reflexivity.
  - unfold labelled. simpl.
    repeat constructor; intros _; eexists; (split; [reflexivity|]);
      apply (bool_decide_unpack _); vm_compute; exact I.
  - exists ks. split; [exact Hks|]. split; [exact Hs | exact Htotal].
Defined.

(** C7, as stated, fails for a cluster category without cells: its
    percentages are 0/0, NaN, and do not sum to 1. *)
Lemma cluster_distr_unused_cluster :
  cluster_distr (fun _ => None) obs_unused_cluster "louvain" "batch" (2 # 5)
    = ([],
       Ok {| index := ["0"; "1"];
             total_number := [1; 0]%nat;
             perc := [("perc_a", [Some 1%Q; None])];
             entropy_col := [None; None] |}) /\
  float_sum (perc_row [("perc_a", [Some 1%Q; None])] 1) = None.
Proof. split; vm_compute; reflexivity. Qed.

(** Where the exact quotient lies halfway between two hundredths, the
    binary64 quotient decides: 23 of 40 cells and the other 17 give 0.57
    and 0.42, which add up to 0.99, and 109 of 200 give 0.55. *)
Lemma np_round2_halfway :
  np_round2 (np_div 23 40) = hundredth 57 /\
  np_round2 (np_div 17 40) = hundredth 42 /\
  np_round2 (np_div 109 200) = hundredth 55 /\
  np_round2 (np_div 1 3) = hundredth 33.
Proof. repeat split; vm_compute; reflexivity. Qed.

End ClusterDistrFacts.

(** * Further properties *)

(** ** Further properties of [check_markers] *)

Section CheckMarkersRuns.

Import Markers.

Lemma run_rejects_parse cs : forall st,
  Re.run_rejects cs st = true ->
  match Re.run cs st with
  | Some st' => Re.finish st'
  | None => None
  end = None.
Proof.
  induction cs as [|c cs IH]; intros st H; cbn [Re.run_rejects Re.run] in *.
  - by destruct (Re.finish st).
  - destruct (Re.step c st); [by apply IH | done].
Qed.

Lemma rejects_not_valid p : Re.rejects p = true -> Re.valid p = false.
Proof.
  intros H. unfold Re.valid, Re.parse.
  by rewrite (run_rejects_parse _ _ H).
Qed.

Lemma compile_modelled_error p ic e :
  Re.valid p || Re.rejects p = true ->
  Re.compile p ic = Raise e -> e = ReError /\ Re.rejects p = true.
Proof.
  intros Hm H. destruct (Re.valid p) eqn:Hv.
  - destruct (compile_ok_valid p ic Hv) as [r Hr]. congruence.
  - rewrite (compile_raise p ic Hv) in H. cbn [orb] in Hm. rewrite Hm in H.
    by injection H as <-.
Qed.

Lemma markers_loop_error de markers : forall acc e,
  forallb (fun gene => Re.valid ("^" +:+ gene +:+ "$") ||
                       Re.rejects ("^" +:+ gene +:+ "$")) markers = true ->
  markers_loop de markers acc = Raise e ->
  e = ReError /\
  exists gene, gene ∈ markers /\ Re.rejects ("^" +:+ gene +:+ "$") = true.
Proof.
  induction markers as [|gene rest IH]; intros acc e Hm H;
    cbn [markers_loop forallb] in *; [discriminate|].
  apply andb_true_iff in Hm as [Hg Hm].
  destruct (Re.compile ("^" +:+ gene +:+ "$") true) as [regex|e'] eqn:Hc;
    cbn [bind] in H.
  - destruct (IH _ _ Hm H) as (-> & g & Hin & Hr).
    split; [done|]. exists g. split; [by right | done].
  - injection H as <-.
    destruct (compile_modelled_error _ _ _ Hg Hc) as [-> Hr].
    split; [done|]. exists gene. split; [left | done].
Qed.

Lemma keys_loop_error de items : forall acc e,
  forallb (fun it : string * list string =>
             forallb (fun gene => Re.valid ("^" +:+ gene +:+ "$") ||
                                  Re.rejects ("^" +:+ gene +:+ "$")) it.2)
    items = true ->
  keys_loop de items acc = Raise e ->
  e = ReError /\
  exists key markers gene,
    (key, markers) ∈ items /\ gene ∈ markers /\
    Re.rejects ("^" +:+ gene +:+ "$") = true.
Proof.
  induction items as [|[k markers] rest IH]; intros acc e Hm H;
    cbn [keys_loop forallb snd] in *; [discriminate|].
  apply andb_true_iff in Hm as [Hk Hm].
  destruct (markers_loop de markers []) as [genes_found|e'] eqn:Hl;
    cbn [bind] in H.
  - destruct (IH _ _ Hm H) as (-> & key & ms & g & Hin & Hg & Hr).
    split; [done|]. exists key, ms, g. split; [by right | done].
  - injection H as <-.
    destruct (markers_loop_error _ _ _ _ Hk Hl) as (-> & g & Hg & Hr).
    split; [done|]. exists k, markers, g. split; [left | done].
Qed.

Lemma groups_loop_error mk cols : forall acc e,
  all_modelled mk = true ->
  groups_loop cols mk acc = Raise e ->
  e = ReError /\
  exists key markers gene,
    mk !! key = Some markers /\ gene ∈ markers /\
    Re.rejects ("^" +:+ gene +:+ "$") = true.
Proof.
  induction cols as [|[g col] rest IH]; intros acc e Hm H;
    cbn [groups_loop] in H; [discriminate|].
  destruct (keys_loop col (map_to_list mk) ∅) as [matches_group|e'] eqn:Hk;
    cbn [bind] in H; [eauto|].
  injection H as <-.
  destruct (keys_loop_error _ _ _ _ Hm Hk) as (-> & key & ms & gene & Hin & Hg & Hr).
  split; [done|]. exists key, ms, gene.
  split; [by apply elem_of_map_to_list | done].
Qed.

(** X1.  For a marker dictionary whose patterns are all of the syntax
    read here, [check_markers] raises exactly when the DE table has a
    column and [re.compile] rejects some pattern of the dictionary in its
    anchored form; what it raises is then [re.error].  With a DE table
    without columns no pattern is compiled, and a malformed pattern goes
    unnoticed. *)
Theorem check_markers_raises_iff (de mk : gmap string (list string)) (e : exn)
    (Hmodelled : all_modelled mk = true) :
  check_markers de mk = Raise e <->
  e = ReError /\ de <> ∅ /\
  exists key markers gene,
    mk !! key = Some markers /\ gene ∈ markers /\
    Re.rejects ("^" +:+ gene +:+ "$") = true.
Proof.
  split.
  - intros H.
    destruct (groups_loop_error _ _ _ _ Hmodelled H) as [-> Hex].
    split; [done|]. split; [|done].
    intros ->. unfold check_markers in H. rewrite map_to_list_empty in H.
    discriminate.
  - intros (-> & Hne & key & markers & gene & Hkey & Hgene & Hr).
    destruct (check_markers de mk) as [m|e] eqn:H.
    + exfalso. unfold check_markers in H.
      destruct (map_to_list de) as [|[g col] rest] eqn:Hl.
      { by apply map_to_list_empty_iff in Hl. }
      cbn [groups_loop] in H.
      destruct (keys_loop col (map_to_list mk) ∅) as [mg|] eqn:Hk;
        [|discriminate].
      apply keys_loop_valid in Hk.
      apply elem_of_map_to_list in Hkey.
      rewrite Forall_forall in Hk. specialize (Hk _ Hkey). cbn [snd] in Hk.
      rewrite Forall_forall in Hk. specialize (Hk _ Hgene).
      apply rejects_not_valid in Hr. congruence.
    + f_equal. by destruct (groups_loop_error _ _ _ _ Hmodelled H) as [-> _].
Qed.

(** The statement of X1 for the dictionary [{'Tcell': ['Cd3e', 'Cd(']}],
    whose second pattern leaves a group open. *)
Lemma check_markers_raises_iff_witness :
  all_modelled {[ "Tcell" := ["Cd3e"; "Cd("] ]} = true /\
  check_markers {[ "0" := ["Cd3e"] ]} {[ "Tcell" := ["Cd3e"; "Cd("] ]}
    = Raise ReError /\
  check_markers ∅ {[ "Tcell" := ["Cd3e"; "Cd("] ]} = Ok ∅.
Proof.
  assert (Hm : all_modelled {[ "Tcell" := ["Cd3e"; "Cd("] ]} = true)
    by (vm_compute; reflexivity).
  split; [exact Hm|].
  split; [|vm_compute; reflexivity].
  apply (check_markers_raises_iff _ _ ReError Hm).
  split; [done|]. split.
  - intros Hde. apply (f_equal (fun m => m !! "0")) in Hde.
    vm_compute in Hde. discriminate.
  - exists "Tcell", ["Cd3e"; "Cd("], "Cd(". split; [vm_compute; reflexivity|].
    split; [apply list_elem_of_In; simpl; tauto | vm_compute; reflexivity].
Defined.

(** X2.  The entry of a cluster depends on the DE genes of that cluster
    and on the marker dictionary only: two DE tables that agree on the
    column give the cluster the same entry, and the table made of this
    column alone gives exactly this entry. *)
Theorem check_markers_cluster_alone (de de' mk : gmap string (list string))
    (matches matches' : gmap string (gmap string (list string)))
    (group : string) (de_genes_group : list string)
    (Hde : de !! group = Some de_genes_group)
    (Hde' : de' !! group = Some de_genes_group)
    (Hrun : check_markers de mk = Ok matches)
    (Hrun' : check_markers de' mk = Ok matches') :
  matches !! group = matches' !! group /\
  check_markers {[ group := de_genes_group ]} mk =
    Ok {[ group := default ∅ (matches !! group) ]}.
Proof.
  pose proof (check_markers_lookup _ _ _ group Hrun) as H1.
  pose proof (check_markers_lookup _ _ _ group Hrun') as H2.
  rewrite Hde in H1. rewrite Hde' in H2.
  destruct H1 as (mg & Hk & Hm). destruct H2 as (mg' & Hk' & Hm').
  rewrite Hk in Hk'. injection Hk' as <-.
  split; [by rewrite Hm, Hm'|].
  unfold check_markers. rewrite map_to_list_singleton. simpl.
  rewrite Hk. simpl. rewrite Hm. simpl. by rewrite insert_empty.
Qed.

Lemma check_markers_cluster_alone_witness :
  ({[ "0" := ["Cd3e"; "Foxp3"]; "1" := ["Cd4"] ]}
     : gmap string (list string)) !! "0" = Some ["Cd3e"; "Foxp3"] /\
  check_markers {[ "0" := ["Cd3e"; "Foxp3"] ]} {[ "Tcell" := ["Cd3e"; "Cd3d"] ]}
    = Ok {[ "0" := {[ "Tcell" := ["Cd3e"] ]} ]}.
Proof.
  assert (H1 : ({[ "0" := ["Cd3e"; "Foxp3"]; "1" := ["Cd4"] ]}
                  : gmap string (list string)) !! "0" = Some ["Cd3e"; "Foxp3"])
    by (vm_compute; reflexivity).
  split; [exact H1|].
  assert (Hrun : check_markers {[ "0" := ["Cd3e"; "Foxp3"]; "1" := ["Cd4"] ]}
                   {[ "Tcell" := ["Cd3e"; "Cd3d"] ]}
                 = Ok {[ "0" := {[ "Tcell" := ["Cd3e"] ]}; "1" := ∅ ]})
    by (vm_compute; reflexivity).
  destruct (check_markers_cluster_alone _ _ _ _ _ "0" _ H1 H1 Hrun Hrun) as [_ H].
  rewrite H. vm_compute. reflexivity.
Defined.

Lemma omap_length {A B} (f : A -> option B) (l : list A) :
  length (omap f l) <= length l.
Proof.
  induction l as [|a l IH]; [done|].
  change (omap f (a :: l)) with (match f a with Some y => y :: omap f l | None => omap f l end).
  destruct (f a); simpl; lia.
Qed.

(** X3.  Every list recorded under a cluster and a category belongs to
    a column of the DE table and to a category of the marker dictionary;
    it is not empty, holds DE genes of that cluster only, and is at most
    as long as the pattern list of the category. *)
Theorem check_markers_genes_of_cluster (de mk : gmap string (list string))
    (matches : gmap string (gmap string (list string)))
    (group key : string) (matches_group : gmap string (list string))
    (genes_found : list string)
    (Hrun : check_markers de mk = Ok matches)
    (Hgroup : matches !! group = Some matches_group)
    (Hkey : matches_group !! key = Some genes_found) :
  exists de_genes_group markers,
    de !! group = Some de_genes_group /\ mk !! key = Some markers /\
    (forall g, g ∈ genes_found -> g ∈ de_genes_group) /\
    0 < length genes_found <= length markers.
Proof.
  pose proof (check_markers_lookup _ _ _ group Hrun) as H.
  destruct (de !! group) as [col|] eqn:Hde; [|congruence].
  destruct H as (mg & Hk & Hm). rewrite Hgroup in Hm. injection Hm as <-.
  pose proof (keys_loop_map _ _ _ key Hk) as Hl. rewrite Hkey in Hl.
  destruct (mk !! key) as [markers|] eqn:Hmk; [|discriminate].
  exists col, markers. split; [done|]. split; [done|].
  destruct (omap (first_hit col) markers) as [|x l] eqn:Ho; [discriminate|].
  injection Hl as ->. rewrite <- Ho. split.
  - intros g Hg. apply list_elem_of_omap in Hg as (gene & _ & Hf).
    by apply first_hit_Some in Hf as [? _].
  - split; [rewrite Ho; simpl; lia | apply omap_length].
Qed.

Lemma check_markers_genes_of_cluster_witness :
  check_markers {[ "0" := ["Cd3e"; "Foxp3"] ]} {[ "Tcell" := ["Cd3e"; "Cd3d"] ]}
    = Ok {[ "0" := {[ "Tcell" := ["Cd3e"] ]} ]} /\
  exists de_genes_group markers,
    ({[ "0" := ["Cd3e"; "Foxp3"] ]} : gmap string (list string)) !! "0"
      = Some de_genes_group /\
    ({[ "Tcell" := ["Cd3e"; "Cd3d"] ]} : gmap string (list string)) !! "Tcell"
      = Some markers /\
    (forall g, g ∈ ["Cd3e"] -> g ∈ de_genes_group) /\
    0 < length ["Cd3e"] <= length markers.
Proof.
  assert (Hrun : check_markers {[ "0" := ["Cd3e"; "Foxp3"] ]}
                   {[ "Tcell" := ["Cd3e"; "Cd3d"] ]}
                 = Ok {[ "0" := {[ "Tcell" := ["Cd3e"] ]} ]})
    by (vm_compute; reflexivity).
  split; [exact Hrun|].
  apply (check_markers_genes_of_cluster _ _ _ "0" "Tcell" {[ "Tcell" := ["Cd3e"] ]}
           ["Cd3e"] Hrun); vm_compute; reflexivity.
Defined.

End CheckMarkersRuns.

(** ** Further properties of [plot_markers] *)

Section PlotMarkersRuns.

Import Markers.

(** X4.  In protein mode neither the markers dictionary nor the
    feature names are consulted: [plot_markers] prints and returns the
    same whatever dictionary is passed, and the resolution is the same
    for all lists of feature names. *)
Theorem plot_markers_protein_ignores_markers (adata : AnnData) (key : string)
    (markers markers' : option (gmap string (list string))) (basis : string)
    (n_max : Z) (use_raw ignore_case : bool) (prot_key prot_names_key : string) :
  plot_markers adata key markers basis n_max use_raw ignore_case true
    prot_key prot_names_key =
  plot_markers adata key markers' basis n_max use_raw ignore_case true
    prot_key prot_names_key /\
  forall names names',
    resolve adata names key markers ignore_case true prot_key prot_names_key =
    resolve adata names' key markers' ignore_case true prot_key prot_names_key.
Proof.
  assert (Hr : forall names names',
    resolve adata names key markers ignore_case true prot_key prot_names_key =
    resolve adata names' key markers' ignore_case true prot_key prot_names_key).
  { intros names names'. unfold resolve. by destruct markers, markers'. }
  split; [|exact Hr].
  unfold plot_markers. case_bool_decide; [|done].
  unfold mbind at 1 2 3 . simpl.
  destruct (get_var_names adata use_raw) as [l [names|e]]; [|done].
  unfold mbind at 1 3. by rewrite (Hr names names).
Qed.

Lemma search_all_subset reg_ex names g : g ∈ search_all reg_ex names -> g ∈ names.
Proof.
  unfold search_all. rewrite !list_elem_of_In, filter_In. tauto.
Qed.

Lemma genes_pre_loop_subset ic names genes_pre : forall genes not_found genes' not_found',
  genes_pre_loop ic names genes_pre genes not_found = Ok (genes', not_found') ->
  (forall g, g ∈ genes' -> g ∈ genes \/ g ∈ names) /\
  length genes' + length not_found' =
    length genes + length not_found + length genes_pre /\
  exists missing, not_found' = not_found ++ missing /\ missing `sublist_of` genes_pre.
Proof.
  induction genes_pre as [|gene rest IH]; intros genes nf genes' nf' H; simpl in H.
  - injection H as <- <-. split; [auto|]. split; [simpl; lia|].
    exists []. by rewrite app_nil_r.
  - destruct (if ic then _ else _) as [reg_ex|]; simpl in H; [|discriminate].
    destruct (search_all reg_ex names) as [|g gs] eqn:Hs.
    + destruct (IH _ _ _ _ H) as (Hsub & Hlen & missing & -> & Hm).
      split; [exact Hsub|]. split; [rewrite Hlen, length_app; simpl; lia|].
      exists (gene :: missing). split; [by rewrite <- app_assoc|].
      by apply sublist_skip.
    + destruct (IH _ _ _ _ H) as (Hsub & Hlen & missing & -> & Hm).
      split.
      * intros x Hx. destruct (Hsub x Hx) as [Hin|Hin]; [|by right].
        apply elem_of_app in Hin as [Hin|Hin]; [by left|].
        apply list_elem_of_singleton in Hin. subst x. right.
        apply (search_all_subset reg_ex). rewrite Hs. left.
      * split; [rewrite Hlen, length_app; simpl; lia|].
        exists missing. split; [done|]. by apply sublist_cons.
Qed.

Lemma key_loop_subset ic names key : forall genes genes',
  key_loop ic names key genes = Ok genes' ->
  (forall g, g ∈ genes' -> g ∈ genes \/ g ∈ names) /\
  length genes' = length genes + length key.
Proof.
  induction key as [|c rest IH]; intros genes genes' H; simpl in H.
  - injection H as <-. split; [auto | simpl; lia].
  - destruct (if ic then _ else _) as [reg_ex|]; simpl in H; [|discriminate].
    destruct (search_all reg_ex names) as [|g [|g' gs]] eqn:Hs; try discriminate.
    destruct (IH _ _ H) as [Hsub Hlen]. split.
    + intros x Hx. destruct (Hsub x Hx) as [Hin|Hin]; [|by right].
      apply elem_of_app in Hin as [Hin|Hin]; [by left|].
      apply list_elem_of_singleton in Hin. subst x. right.
      apply (search_all_subset reg_ex). rewrite Hs. left.
    + rewrite Hlen, length_app. simpl. lia.
Qed.

(** The names [resolve] returns are names of the list it searched. *)
Lemma resolve_subset adata names key markers ic protein pk pnk genes :
  (resolve adata names key markers ic protein pk pnk).2 = Ok genes ->
  forall g, g ∈ genes ->
    g ∈ (if protein then default [] (uns adata !! pnk) else names).
Proof.
  unfold resolve. intros H g Hg.
  destruct protein.
  - assert (Hp : (let '(l, r) :=
               match uns adata !! pnk with
               | Some protein_names =>
                   if bool_decide (pk ∈ obsm_keys adata) then
                     mbind (lift (if ic then Re.compile key true else Re.compile key false))
                       (fun reg_ex => ret (search_all reg_ex protein_names))
                   else raise (ValueError ("Requires a filed '" +:+ pnk +:+
                               "' in adata.uns and a field '" +:+ pk +:+
                               "' in adata.obsm"))
               | None => raise (ValueError ("Requires a filed '" +:+ pnk +:+
                             "' in adata.uns and a field '" +:+ pk +:+
                             "' in adata.obsm"))
               end in r) = Ok genes).
    { destruct markers; simpl in H;
        destruct (uns adata !! pnk); try discriminate;
        case_bool_decide; try discriminate;
        destruct (if ic then _ else _); simpl in *; done. }
    clear H. destruct (uns adata !! pnk) as [pn|]; [|discriminate].
    case_bool_decide; [|discriminate].
    destruct (if ic then _ else _) as [reg_ex|]; simpl in Hp; [|discriminate].
    injection Hp as <-. simpl. by eapply search_all_subset.
  - destruct markers as [m|].
    + destruct (m !! key) as [genes_pre|].
      * destruct (genes_pre_loop ic names genes_pre [] []) as [[gs nf]|] eqn:Hl;
          simpl in H.
        -- destruct (0 <? length nf)%nat; simpl in H; injection H as <-;
             apply genes_pre_loop_subset in Hl as [Hsub _];
             (destruct (Hsub g Hg) as [Hin|Hin]; [by apply elem_of_nil in Hin | done]).
        -- discriminate.
      * destruct (if ic then _ else _) as [reg_ex|]; simpl in H; [|discriminate].
        injection H as <-. by eapply search_all_subset.
    + simpl in H.
      destruct (key_loop ic names (list_ascii_of_string key) []) as [gs|] eqn:Hl;
        simpl in H; [|discriminate].
      injection H as <-. apply key_loop_subset in Hl as [Hsub _].
      destruct (Hsub g Hg) as [Hin|Hin]; [by apply elem_of_nil in Hin | done].
Qed.

Lemma slice_to_subset {A} (l : list A) n x : x ∈ slice_to l n -> x ∈ l.
Proof.
  unfold slice_to. destruct (0 <=? n)%Z; intros H;
    by eapply (subseteq_take (A:=A)).
Qed.

(** X5.  What enters the drawing stage was found in the data: the
    features drawn are proteins exactly in protein mode, and each of them
    is one of the protein names stored in [adata.uns] then, and one of
    the feature names searched (those of [adata.raw] when it is used and
    exists) otherwise. *)
Theorem plot_markers_draws_searched_names (adata : AnnData) (key : string)
    (markers : option (gmap string (list string))) (basis : string) (n_max : Z)
    (use_raw ignore_case protein : bool) (prot_key prot_names_key : string)
    (p : bool) (features : list string)
    (Hplot : Plot p features ∈
               (plot_markers adata key markers basis n_max use_raw ignore_case
                  protein prot_key prot_names_key).1) :
  p = protein /\
  forall f, f ∈ features ->
    f ∈ (if protein then default [] (uns adata !! prot_names_key)
         else searched_names adata use_raw).
Proof.
  destruct (decide ("X_" +:+ basis ∈ obsm_keys adata)) as [Hb|Hb].
  - destruct (plot_markers_with_basis adata key markers basis n_max use_raw
                ignore_case protein prot_key prot_names_key Hb)
      as (log1 & log2 & r & Hl1 & Hr & Heq).
    rewrite Heq in Hplot. clear Heq.
    pose proof (resolve_spec adata (searched_names adata use_raw) key markers
                  ignore_case protein prot_key prot_names_key) as [Hpl _].
    pose proof (resolve_subset adata (searched_names adata use_raw) key markers
                  ignore_case protein prot_key prot_names_key) as Hsub.
    rewrite Hr in Hpl, Hsub. simpl in Hpl, Hsub.
    assert (Hno : forall q f, Plot q f ∉ log1 ++ log2).
    { intros q f. apply not_plotted_elem. by rewrite plotted_app, Hl1, Hpl. }
    destruct r as [[|g genes]|e]; cbn [fst] in Hplot;
      try (by apply Hno in Hplot).
    cbn zeta in Hplot. rewrite app_assoc in Hplot.
    apply elem_of_app in Hplot as [Hin|Hin]; [by apply Hno in Hin|].
    apply elem_of_app in Hin as [Hin|Hin].
    { destruct (n_max <? _)%Z; [|by apply elem_of_nil in Hin].
      apply list_elem_of_singleton in Hin. discriminate. }
    apply elem_of_cons in Hin as [Hin|Hin]; [discriminate|].
    apply list_elem_of_singleton in Hin. injection Hin as -> ->.
    split; [done|]. intros f Hf. apply (Hsub _ eq_refl).
    destruct (n_max <? _)%Z; [by eapply slice_to_subset | done].
  - unfold plot_markers in Hplot. rewrite bool_decide_eq_false_2 in Hplot by done.
    by apply elem_of_nil in Hplot.
Qed.

Lemma plot_markers_draws_searched_names_witness :
  Plot false ["Cd3e"; "Cd4"] ∈
    (plot_markers adata_cd "cd" (Some ∅) "umap" 2 false true false
       "prot" "prot_names").1 /\
  forall f, f ∈ ["Cd3e"; "Cd4"] -> f ∈ searched_names adata_cd false.
Proof.
  assert (H : Plot false ["Cd3e"; "Cd4"] ∈
                (plot_markers adata_cd "cd" (Some ∅) "umap" 2 false true false
                   "prot" "prot_names").1).
  { assert (Hout : plot_markers adata_cd "cd" (Some ∅) "umap" 2 false true false
                     "prot" "prot_names"
                   = ([Print "Current key: cd"; Print "Basis: umap";
                       Print "Key not in the markers dict. Searching in the var names.";
                       Print "Found 3 matches.";
                       PrintList "Plotting the following genes:" ["Cd3e"; "Cd4"];
                       Plot false ["Cd3e"; "Cd4"]], Ok tt))
      by (vm_compute; reflexivity).
    rewrite Hout. apply list_elem_of_In. simpl. tauto. }
  split; [exact H|].
  exact (proj2 (plot_markers_draws_searched_names _ _ _ _ _ _ _ _ _ _ _ _ H)).
Defined.

(** X7.  When [key] is a category of the markers dictionary, every
    pattern of the category yields one name or is reported: the names
    resolved and the patterns not found add up to the patterns of the
    category, the patterns not found are kept in the order of the
    category, and the line ['Could not find the following genes: '] is
    printed exactly when there is one. *)
Theorem plot_markers_category_bookkeeping (adata : AnnData) (names : list string)
    (key : string) (markers : gmap string (list string))
    (genes_pre genes : list string) (log : list event)
    (ignore_case : bool) (prot_key prot_names_key : string)
    (Hkey : markers !! key = Some genes_pre)
    (Hres : resolve adata names key (Some markers) ignore_case false
              prot_key prot_names_key = (log, Ok genes)) :
  exists not_found,
    length genes + length not_found = length genes_pre /\
    not_found `sublist_of` genes_pre /\
    log = Print "Key found in the markers dict." ::
          match not_found with
          | [] => []
          | _ :: _ => [PrintList "Could not find the following genes: " not_found]
          end.
Proof.
  unfold resolve in Hres. rewrite Hkey in Hres.
  destruct (genes_pre_loop ignore_case names genes_pre [] []) as [[gs nf]|] eqn:Hl;
    [|discriminate].
  apply genes_pre_loop_subset in Hl as (_ & Hlen & missing & Hnf & Hsub).
  cbn [app] in Hnf. subst nf. cbn [length Nat.add] in Hlen.
  exists missing. split; [|split; [done|]].
  - destruct missing; cbv [mbind emit lift ret] in Hres; cbn [length Nat.ltb Nat.leb app] in Hres;
      injection Hres as <- <-; cbn [length] in *; lia.
  - destruct missing; cbv [mbind emit lift ret] in Hres; cbn [length Nat.ltb Nat.leb app] in Hres;
      by injection Hres as <- <-.
Qed.

Lemma plot_markers_category_bookkeeping_witness :
  exists not_found,
    length ["Cd3e"; "Cd4"] + length not_found = length ["cd3e"; "Foxp3"; "cd4"] /\
    not_found `sublist_of` ["cd3e"; "Foxp3"; "cd4"].
Proof.
  assert (Hk : ({[ "Tcell" := ["cd3e"; "Foxp3"; "cd4"] ]}
                  : gmap string (list string)) !! "Tcell"
               = Some ["cd3e"; "Foxp3"; "cd4"]) by (vm_compute; reflexivity).
  destruct (plot_markers_category_bookkeeping adata_cd (var_names adata_cd)
              "Tcell" _ _ ["Cd3e"; "Cd4"]
              [Print "Key found in the markers dict.";
               PrintList "Could not find the following genes: " ["Foxp3"]]
              true "prot" "prot_names" Hk)
    as (nf & H1 & H2 & _).
  - vm_compute. reflexivity.
  - exists nf. split; [exact H1 | exact H2].
Defined.

Lemma mbind_ok {A B} (log : list event) (a : A) (f : A -> M B) :
  mbind (log, Ok a) f = (log ++ (f a).1, (f a).2).
Proof. unfold mbind. by destruct (f a). Qed.

(** X8.  Asking for the raw data when [adata.raw] does not exist falls
    back to [adata.var_names]: with the basis present, the run with
    [use_raw] prints the two lines about the raw data and otherwise
    prints and returns what the run without [use_raw] does. *)
Theorem plot_markers_without_raw (adata : AnnData) (key : string)
    (markers : option (gmap string (list string))) (basis : string) (n_max : Z)
    (ignore_case protein : bool) (prot_key prot_names_key : string)
    (Hraw : raw_var_names adata = None)
    (Hbasis : "X_" +:+ basis ∈ obsm_keys adata) :
  exists rest r,
    plot_markers adata key markers basis n_max false ignore_case protein
      prot_key prot_names_key =
      ([Print ("Current key: " +:+ key); Print ("Basis: " +:+ basis)] ++ rest, r) /\
    plot_markers adata key markers basis n_max true ignore_case protein
      prot_key prot_names_key =
      ([Print ("Current key: " +:+ key); Print ("Basis: " +:+ basis);
        Print "Using the rawdata"; Print "adata.raw does not seem to exist"]
       ++ rest, r).
Proof.
  unfold plot_markers. rewrite bool_decide_eq_true_2 by done.
  unfold get_var_names. rewrite Hraw.
  cbv [ret emit]. repeat (rewrite mbind_ok; cbn beta; cbn [fst snd app]).
  match goal with
  | |- context [mbind (resolve ?a ?b ?c ?d ?e ?f ?g ?h) ?k] =>
      set (X := mbind (resolve a b c d e f g h) k)
  end.
  exists X.1, X.2. split; reflexivity.
Qed.

Lemma plot_markers_without_raw_witness :
  exists rest r,
    plot_markers adata_cd "Cd4" None "umap" 10 false true false "prot" "prot_names" =
      ([Print "Current key: Cd4"; Print "Basis: umap"] ++ rest, r) /\
    plot_markers adata_cd "Cd4" None "umap" 10 true true false "prot" "prot_names" =
      ([Print "Current key: Cd4"; Print "Basis: umap";
        Print "Using the rawdata"; Print "adata.raw does not seem to exist"]
       ++ rest, r).
Proof.
  apply (plot_markers_without_raw adata_cd "Cd4" None "umap" 10 true false
           "prot" "prot_names").
  - reflexivity.
  - apply (bool_decide_unpack _). vm_compute. exact I.
Defined.

Lemma key_loop_chars ic names key : forall genes genes',
  key_loop ic names key genes = Ok genes' ->
  exists added,
    genes' = genes ++ added /\
    Forall2 (fun c g => exists reg_ex,
               Re.compile (String c EmptyString) ic = Ok reg_ex /\
               search_all reg_ex names = [g]) key added.
Proof.
  induction key as [|c key IH]; intros genes genes' H; cbn [key_loop] in H.
  - injection H as <-. exists []. by rewrite app_nil_r.
  - destruct (Re.compile (String c EmptyString) ic) as [reg_ex|e] eqn:Hc.
    2: { by destruct ic; rewrite Hc in H. }
    assert (H' : match search_all reg_ex names with
                 | [g] => key_loop ic names key (genes ++ [g])
                 | _ => Raise TypeError
                 end = Ok genes') by (by destruct ic; rewrite Hc in H).
    clear H. destruct (search_all reg_ex names) as [|g [|g' l]] eqn:Hs; try discriminate.
    apply IH in H' as (added & -> & HF).
    exists (g :: added). split; [by rewrite <- app_assoc|].
    constructor; [|done]. by exists reg_ex.
Qed.

(** X9.  Without a markers dictionary the key is read character by
    character (lines 189-196): when this branch resolves, it yields one
    name per character of the key, the name which that character, as a
    pattern, finds alone among the feature names. *)
Theorem plot_markers_key_read_by_character (adata : AnnData) (names : list string)
    (key : string) (ignore_case : bool) (prot_key prot_names_key : string)
    (log : list event) (genes : list string)
    (Hres : resolve adata names key None ignore_case false prot_key prot_names_key
              = (log, Ok genes)) :
  length genes = String.length key /\
  Forall2 (fun c g => exists reg_ex,
             Re.compile (String c EmptyString) ignore_case = Ok reg_ex /\
             search_all reg_ex names = [g])
          (list_ascii_of_string key) genes.
Proof.
  unfold resolve in Hres. cbv [mbind emit lift] in Hres.
  destruct (key_loop ignore_case names (list_ascii_of_string key) []) as [gs|e] eqn:Hk;
    [|discriminate].
  injection Hres as _ <-.
  apply key_loop_chars in Hk as (added & -> & HF). cbn [app].
  split; [|done].
  apply Forall2_length in HF. rewrite <- HF.
  clear. induction key; cbn; congruence.
Qed.
Lemma plot_markers_key_read_by_character_witness :
  length ["Cd3e"; "Cd8a"] = String.length "38".
Proof.
  assert (Hres : resolve adata_cd (var_names adata_cd) "38" None true false
                   "prot" "prot_names"
                 = ([Print "No markers dict given. Searching in the var names."],
                    Ok ["Cd3e"; "Cd8a"]))
    by (vm_compute; reflexivity).
  exact (proj1 (plot_markers_key_read_by_character _ _ _ _ _ _ _ _ Hres)).
Defined.

End PlotMarkersRuns.

(** ** The grid of [plot_markers] *)

Section GridFacts.

Import Grid.

Lemma multi_line_rows (n_genes : nat) :
  Qceiling (inject_Z (Z.of_nat n_genes) + 1 / inject_Z 3) = (Z.of_nat n_genes + 1)%Z.
Proof.
  set (n := Z.of_nat n_genes).
  assert (Hlo : (inject_Z n < inject_Z n + 1 / inject_Z 3)%Q).
  { change (1 / inject_Z 3)%Q with (1 # 3)%Q. lra. }
  assert (Hhi : (inject_Z n + 1 / inject_Z 3 <= inject_Z (n + 1))%Q).
  { rewrite inject_Z_plus. change (1 / inject_Z 3)%Q with (1 # 3)%Q.
    change (inject_Z 1) with 1%Q. lra. }
  pose proof (Qle_ceiling (inject_Z n + 1 / inject_Z 3)) as H1.
  pose proof (Qceiling_lt (inject_Z n + 1 / inject_Z 3)) as H2.
  set (c := Qceiling (inject_Z n + 1 / inject_Z 3)) in *.
  assert (Hc1 : (inject_Z n < inject_Z c)%Q) by lra.
  rewrite <- Zlt_Qlt in Hc1.
  assert (Hc2 : (inject_Z (c - 1) < inject_Z (n + 1))%Q) by lra.
  rewrite <- Zlt_Qlt in Hc2. lia.
Qed.

Lemma filter_none {A} (f : A -> bool) (l : list A) :
  (forall x, In x l -> f x = false) -> List.filter f l = [].
Proof.
  induction l as [|a l IH]; intros H; [done|].
  simpl. rewrite (H a) by (by left). apply IH. intros x Hx. apply H. by right.
Qed.

(** X10.  The grid of the multi-line layout has [n_genes + 1] rows of
    three cells, [n_genes+1/n_col] being [n_genes] plus a third, and
    holds all [n_genes + 2] subplots.  The single-line grid has
    [n_genes + 1] cells: of the subplots requested exactly the last, with
    index [n_genes + 1], is not a cell of it. *)
Theorem plot_markers_grid_cells (n_genes : nat) :
  grid_shape true n_genes = (Z.of_nat n_genes + 1, 3)%Z /\
  List.filter (fun i => negb (in_grid (grid_shape true n_genes) i))
    (subplots n_genes) = [] /\
  List.filter (fun i => negb (in_grid (grid_shape false n_genes) i))
    (subplots n_genes) = [n_genes + 1].
Proof.
  assert (Hshape : grid_shape true n_genes = (Z.of_nat n_genes + 1, 3)%Z).
  { unfold grid_shape. cbv zeta. by rewrite multi_line_rows. }
  split; [done|]. split.
  - rewrite Hshape. apply filter_none. intros i Hi.
    apply in_seq in Hi. unfold in_grid. cbn [fst snd].
    apply negb_false_iff, Z.ltb_lt. lia.
  - unfold subplots. replace (n_genes + 2) with (S (n_genes + 1)) by lia.
    rewrite seq_S, List.filter_app. rewrite filter_none.
    + cbn [List.filter app grid_shape]. unfold in_grid. cbn [fst snd].
      destruct (Z.ltb_spec (Z.of_nat (0 + (n_genes + 1)))
                  (1 * (Z.of_nat n_genes + 1))); [lia | done].
    + intros i Hi. apply in_seq in Hi. unfold in_grid, grid_shape. cbn [fst snd].
      apply negb_false_iff, Z.ltb_lt. lia.
Qed.

End GridFacts.

(** ** Further properties of [map_to_mgi] *)

Section MapToMgiTables.

Import Mgi.

Lemma find_app_l {A} (f : A -> bool) (l1 l2 : list A) :
  List.find f (l1 ++ l2) =
  match List.find f l1 with
  | Some x => Some x
  | None => List.find f l2
  end.
Proof. induction l1 as [|a l1 IH]; simpl; [done|]. by destruct (f a). Qed.

Lemma find_id_None (conv_table : list (string * option string)) id :
  List.find (fun r => String.eqb (fst r) id) conv_table = None <->
  id ∉ map fst conv_table.
Proof.
  induction conv_table as [|[id' name] rest IH]; simpl.
  - split; [intros _; apply not_elem_of_nil | done].
  - destruct (String.eqb_spec id' id) as [->|Hne].
    + split; [done|]. intros H. exfalso. apply H. left.
    + rewrite IH. rewrite not_elem_of_cons. intuition congruence.
Qed.

Lemma first_symbol_app conv_table extra id :
  (forall r, r ∈ extra -> fst r ∈ map fst conv_table) ->
  first_symbol (conv_table ++ extra) id = first_symbol conv_table id.
Proof.
  intros Hex. unfold first_symbol. rewrite find_app_l.
  destruct (List.find _ conv_table) eqn:Hf; [done|].
  apply find_id_None in Hf.
  destruct (List.find _ extra) as [r|] eqn:Hf'; [|done].
  apply find_some in Hf' as [Hin Heq]. apply String.eqb_eq in Heq.
  apply list_elem_of_In, Hex in Hin. rewrite Heq in Hin. done.
Qed.

(** X11.  Rows appended to the conversion table for identifiers the
    table lists already do not change the symbols written: the first row
    of an identifier decides. *)
Theorem map_to_mgi_later_rows_ignored (var_names : list string)
    (conv_table extra : list (string * option string))
    (Hextra : forall r, r ∈ extra -> fst r ∈ map fst conv_table) :
  map_to_mgi var_names (conv_table ++ extra) = map_to_mgi var_names conv_table.
Proof.
  rewrite !map_to_mgi_eq. f_equal. apply map_ext. intros id.
  by rewrite first_symbol_app.
Qed.

Lemma map_to_mgi_later_rows_ignored_witness :
  map_to_mgi ["ENSMUSG1"; "ENSMUSG2"]
    ([("ENSMUSG1", Some "Gnai3"); ("ENSMUSG2", None)] ++
     [("ENSMUSG2", Some "Pbsn"); ("ENSMUSG1", Some "Cdc45")]) =
  map_to_mgi ["ENSMUSG1"; "ENSMUSG2"]
    [("ENSMUSG1", Some "Gnai3"); ("ENSMUSG2", None)].
Proof.
  apply map_to_mgi_later_rows_ignored.
  intros r Hr. apply list_elem_of_In in Hr. apply list_elem_of_In.
  simpl in Hr. simpl. intuition (subst; simpl; tauto).
Defined.

Lemma first_symbol_NoDup conv_table id name :
  NoDup (map fst conv_table) -> (id, name) ∈ conv_table ->
  first_symbol conv_table id = name.
Proof.
  unfold first_symbol.
  induction conv_table as [|[id' name'] rest IH]; intros Hnd Hin.
  - by apply elem_of_nil in Hin.
  - cbn [map fst] in Hnd. apply NoDup_cons in Hnd as [Hni Hnd].
    cbn [List.find fst]. apply elem_of_cons in Hin as [Heq|Hin].
    + injection Heq as <- <-. by rewrite String.eqb_refl.
    + destruct (String.eqb_spec id' id) as [->|Hne]; [|by apply IH].
      exfalso. apply Hni. apply list_elem_of_fmap. by exists (id, name).
Qed.

Lemma first_symbol_Permutation t1 t2 id :
  NoDup (map fst t1) -> t1 ≡ₚ t2 -> first_symbol t1 id = first_symbol t2 id.
Proof.
  intros Hnd Hp.
  assert (Hnd2 : NoDup (map fst t2)).
  { eapply NoDup_Permutation_proper; [|exact Hnd].
    symmetry. by apply fmap_Permutation. }
  destruct (List.find (fun r => String.eqb (fst r) id) t1) as [[id' name]|] eqn:Hf.
  - apply find_some in Hf as [Hin Heq]. apply String.eqb_eq in Heq.
    simpl in Heq. subst id'. apply list_elem_of_In in Hin.
    rewrite (first_symbol_NoDup t1 id name) by done.
    symmetry. apply first_symbol_NoDup; [done|]. by rewrite <- Hp.
  - unfold first_symbol at 1. rewrite Hf.
    apply find_id_None in Hf.
    assert (Hf2 : id ∉ map fst t2).
    { intros Hin. apply Hf. eapply elem_of_Permutation_proper; [|exact Hin].
      by apply fmap_Permutation. }
    apply find_id_None in Hf2. unfold first_symbol. by rewrite Hf2.
Qed.

(** X12.  For a conversion table that lists every identifier once the
    order of its rows does not matter. *)
Theorem map_to_mgi_row_order (var_names : list string)
    (conv_table conv_table' : list (string * option string))
    (Hids : NoDup (map fst conv_table))
    (Hperm : conv_table ≡ₚ conv_table') :
  map_to_mgi var_names conv_table = map_to_mgi var_names conv_table'.
Proof.
  rewrite !map_to_mgi_eq. f_equal. apply map_ext. intros id.
  by rewrite (first_symbol_Permutation _ _ id Hids Hperm).
Qed.

Lemma map_to_mgi_row_order_witness :
  map_to_mgi ["ENSMUSG2"; "ENSMUSG1"]
    [("ENSMUSG1", Some "Gnai3"); ("ENSMUSG2", Some "Pbsn")] =
  map_to_mgi ["ENSMUSG2"; "ENSMUSG1"]
    [("ENSMUSG2", Some "Pbsn"); ("ENSMUSG1", Some "Gnai3")].
Proof.
  apply map_to_mgi_row_order.
  - apply (bool_decide_unpack _). vm_compute. exact I.
  - apply perm_swap.
Defined.

End MapToMgiTables.

(** ** Further properties of [cluster_distr] *)

Section ClusterDistrTables.

Import Batch.

(** X13.  [cluster_distr] raises exactly when one of the two keys is
    not a column of [adata.obs]: a [ValueError] that names the cluster
    key if that one is missing, and the batch key otherwise; no warning
    is printed before. *)
Theorem cluster_distr_missing_key (entropy : list float -> float)
    (obs : gmap string Categorical)
    (cluster_key batch_key : string) (eps : Q)
    (warnings : list string) (e : exn) :
  cluster_distr entropy obs cluster_key batch_key eps = (warnings, Raise e) <->
  warnings = [] /\
  exists key,
    e = ValueError ("The key '" +:+ key +:+ "' does not exist in adata.obs") /\
    obs !! key = None /\
    (key = cluster_key \/ (key = batch_key /\ is_Some (obs !! cluster_key))).
Proof.
  unfold cluster_distr. split.
  - destruct (obs !! cluster_key) as [cl|] eqn:Hc.
    + destruct (obs !! batch_key) as [bt|] eqn:Hb; [discriminate|].
      intros [= <- <-]. split; [done|]. exists batch_key.
      split; [done|]. split; [done|]. right. split; [done|]. by eexists.
    + intros [= <- <-]. split; [done|]. exists cluster_key. by auto.
  - intros (-> & key & -> & Hk & [->|[-> [cl Hc]]]).
    + by rewrite Hk.
    + by rewrite Hc, Hk.
Qed.

Lemma cells_in_le cluster batch (bt : list (option string)) :
  forall cl, cells_in cl bt cluster batch <= np_sum (eq_mask cl cluster).
Proof.
  induction bt as [|bv bt IH]; intros [|cv cl].
  - done.
  - unfold cells_in. simpl. lia.
  - done.
  - rewrite cells_in_cons.
    change (eq_mask (cv :: cl) cluster)
      with (bool_decide (cv = Some cluster) :: eq_mask cl cluster).
    rewrite np_sum_cons. specialize (IH cl).
    destruct (bool_decide (bv = Some batch)), (bool_decide (cv = Some cluster));
      simpl; lia.
Qed.

Lemma np_round2_ratio (a n : nat) :
  a <= n ->
  match np_round2 (np_div a n) with
  | None => n = 0
  | Some q =>
      0 < n /\
      ((Z.of_nat n < 2 ^ 44)%Z ->
       (0 <= q <= 1)%Q /\
       exists k : Z, (0 <= k <= 100)%Z /\ q = fl (inject_Z k / 100))
  end.
Proof.
  intros Hle. destruct n as [|n]; [done|].
  destruct (np_round2 (np_div a (S n))) as [q|] eqn:Hq; [|done].
  split; [lia|]. intros Hn.
  destruct (np_round2_div a (S n) Hle) as (k & Hk & Hr & _); [lia|].
  rewrite Hk in Hq. injection Hq as <-.
  split; [by apply hundredth_range | by exists k].
Qed.

(** X14.  Every entry of a percentage column belongs to a cluster of
    the index.  It is NaN exactly when the cluster has no cell; and for
    a cluster of fewer than [2^44] cells it is a number between 0 and 1,
    the binary64 number nearest to a whole number of hundredths. *)
Theorem cluster_distr_percentage_range (entropy : list float -> float)
    (obs : gmap string Categorical)
    (cluster_key batch_key : string) (eps : Q)
    (warnings : list string) (table : Table)
    (label : string) (column : list float) (i : nat) (x : float)
    (Hrun : cluster_distr entropy obs cluster_key batch_key eps
            = (warnings, Ok table))
    (Hcol : (label, column) ∈ perc table)
    (Hx : column !! i = Some x) :
  exists cluster n,
    index table !! i = Some cluster /\
    total_number table !! i = Some n /\
    match x with
    | None => n = 0
    | Some q =>
        0 < n /\
        ((Z.of_nat n < 2 ^ 44)%Z ->
         (0 <= q <= 1)%Q /\
         exists k : Z, (0 <= k <= 100)%Z /\ q = fl (inject_Z k / 100))
    end.
Proof.
  unfold cluster_distr in Hrun.
  destruct (obs !! cluster_key) as [cl|]; [|discriminate].
  destruct (obs !! batch_key) as [bt|]; [|discriminate].
  injection Hrun as _ <-. cbn [perc index total_number] in *.
  change (map ?f (categories bt)) with (f <$> categories bt) in Hcol.
  apply list_elem_of_fmap in Hcol as (batch & [= -> ->] & _).
  rewrite perc_column_eq in Hx.
  change (map ?f (categories cl)) with (f <$> categories cl) in Hx.
  rewrite list_lookup_fmap in Hx.
  destruct (categories cl !! i) as [cluster|] eqn:Hi; [|discriminate].
  injection Hx as <-.
  exists cluster, (np_sum (eq_mask (values cl) cluster)).
  split; [done|]. split.
  - unfold cells_per_cluster.
    change (map ?f (categories cl)) with (f <$> categories cl).
    by rewrite list_lookup_fmap, Hi.
  - apply np_round2_ratio, cells_in_le.
Qed.

Lemma cluster_distr_percentage_range_witness :
  exists cluster n,
    ["0"] !! 0 = Some cluster /\
    [3] !! 0 = Some n /\
    0 < n /\
    ((Z.of_nat n < 2 ^ 44)%Z ->
     (0 <= fl (33 # 100) <= 1)%Q /\
     exists k : Z, (0 <= k <= 100)%Z /\ fl (33 # 100) = fl (inject_Z k / 100)).
Proof.
  assert (Hrun : cluster_distr (fun _ => None) obs_three_batches
                   "louvain" "batch" (2 # 5)
                 = ([],
                    Ok {| index := ["0"]; total_number := [3];
                          perc := [("perc_a", [Some (fl (33 # 100))]);
                                   ("perc_b", [Some (fl (33 # 100))]);
                                   ("perc_c", [Some (fl (33 # 100))])];
                          entropy_col := [None] |}))
    by (vm_compute; reflexivity).
  destruct (cluster_distr_percentage_range (fun _ => None) obs_three_batches
              "louvain" "batch" (2 # 5) [] _
              "perc_b" [Some (fl (33 # 100))] 0 (Some (fl (33 # 100))) Hrun)
    as (cluster & n & H1 & H2 & H3).
  - apply list_elem_of_In. simpl. tauto.
  - reflexivity.
  - exists cluster, n. auto.
Defined.

End ClusterDistrTables.

(** ** The counts of [print_numbers] and [cluster_distr] *)

Section CountsFacts.

Import Batch Numbers.

Lemma np_sum_eq_mask_cons v column level :
  np_sum (eq_mask (v :: column) level) =
  ((if bool_decide (v = Some level) then 1 else 0) + np_sum (eq_mask column level))%nat.
Proof.
  change (eq_mask (v :: column) level)
    with (bool_decide (v = Some level) :: eq_mask column level).
  apply np_sum_cons.
Qed.

(** Summed over duplicate-free levels, the counts are the cells that
    carry one of the levels. *)
Lemma level_counts_sum (levels : list string) (column : list (option string)) :
  NoDup levels ->
  sum_list_with (fun level => np_sum (eq_mask column level)) levels =
  length (with_level levels column).
Proof.
  intros Hnd. induction column as [|v column IH].
  - simpl. apply sum_list_with_zero. done.
  - rewrite (sum_list_with_eq _
               (fun level => ((if bool_decide (v = Some level) then 1 else 0) +
                              np_sum (eq_mask column level))%nat))
      by (intros level; apply np_sum_eq_mask_cons).
    rewrite sum_list_with_plus, IH. unfold with_level. cbn [List.filter].
    destruct v as [level0|].
    + destruct (decide (level0 ∈ levels)) as [Hin|Hni].
      * rewrite (bool_decide_eq_true_2 _ Hin). cbn [length].
        by rewrite sum_indicator.
      * rewrite (bool_decide_eq_false_2 _ Hni).
        rewrite sum_list_with_zero; [done|].
        intros level Hl. rewrite bool_decide_eq_false_2; [done|].
        intros [= ->]. done.
    + rewrite sum_list_with_zero; [done|]. intros level _.
      by rewrite bool_decide_eq_false_2.
Qed.

Lemma with_level_length levels column :
  length (with_level levels column) <= length column.
Proof. apply List.filter_length_le. Qed.

Lemma with_level_all levels column :
  length (with_level levels column) = length column <->
  Forall (fun v => exists level, v = Some level /\ level ∈ levels) column.
Proof.
  induction column as [|v column IH].
  - split; [constructor | done].
  - unfold with_level. cbn [List.filter]. fold (with_level levels column).
    pose proof (with_level_length levels column) as Hle.
    destruct v as [level|].
    + case_bool_decide as Hin; cbn [length].
      * rewrite Forall_cons, <- IH. split; [|intros [_ ?]; lia].
        intros H. split; [by exists level | lia].
      * split; [lia|]. intros H. apply Forall_cons in H as [(l & [= ->] & Hl) _].
        done.
    + cbn [length]. split; [lia|].
      intros H. by apply Forall_cons in H as [(l & ? & _) _].
Qed.

Lemma zip_with_map_self {A B C} (f : B -> A -> C) (g : A -> B) (l : list A) :
  zip_with f (map g l) l = map (fun x => f (g x) x) l.
Proof. induction l as [|a l IH]; [done|]. simpl. by rewrite IH. Qed.

(** X15.  [print_numbers] prints one line per level, in the order of
    the categories, and then the total.  The counts of the levels add up
    to at most the number of cells, and to the number of cells exactly
    when every cell carries one of the levels. *)
Theorem print_numbers_counts (obs : gmap string Categorical)
    (n_obs n_vars : nat) (groupby : string) (column : Categorical)
    (Hcol : obs !! groupby = Some column)
    (Hlevels : NoDup (categories column))
    (Hobs : length (values column) = n_obs) :
  print_numbers obs n_obs n_vars groupby =
    Done (zip_with cells_line (level_counts column) (categories column) ++
          [total_line n_obs n_vars]) /\
  length (level_counts column) = length (categories column) /\
  sum_list (level_counts column) <= n_obs /\
  (sum_list (level_counts column) = n_obs <->
   Forall (fun v => exists level, v = Some level /\ level ∈ categories column)
     (values column)).
Proof.
  unfold print_numbers, level_counts. rewrite Hcol. split; [|split; [|split]].
  - by rewrite zip_with_map_self.
  - by rewrite length_map.
  - rewrite sum_list_map, level_counts_sum by done. subst n_obs.
    apply with_level_length.
  - rewrite sum_list_map, level_counts_sum by done. subst n_obs.
    apply with_level_all.
Qed.

Lemma print_numbers_counts_witness :
  print_numbers obs_three_batches 3 5 "batch" =
    Done ["1 cells in batch a"; "1 cells in batch b"; "1 cells in batch c";
          "Total: 3 cells, 5 genes"].
Proof.
  assert (Hcol : obs_three_batches !! "batch" =
                 Some (Build_Categorical ["a"; "b"; "c"]
                         [Some "a"; Some "b"; Some "c"]))
    by (vm_compute; reflexivity).
  assert (Hnd : NoDup (categories (Build_Categorical ["a"; "b"; "c"]
                         [Some "a"; Some "b"; Some "c"])))
    by (apply (bool_decide_unpack _); vm_compute; exact I).
  destruct (print_numbers_counts obs_three_batches 3 5 "batch" _ Hcol Hnd eq_refl)
    as [H _].
  rewrite H. vm_compute. reflexivity.
Defined.

End CountsFacts.

Section ClusterDistrTotals.

Import Batch Numbers.

(** X16.  The column ['total number'] has one entry per cluster and,
    the categories being distinct, adds up to the number of cells that
    carry one of them, hence to at most the number of cells. *)
Theorem cluster_distr_total_numbers (entropy : list float -> float)
    (obs : gmap string Categorical)
    (cluster_key batch_key : string) (eps : Q)
    (warnings : list string) (table : Table) (cl : Categorical)
    (Hrun : cluster_distr entropy obs cluster_key batch_key eps
            = (warnings, Ok table))
    (Hcl : obs !! cluster_key = Some cl)
    (Hclusters : NoDup (categories cl)) :
  length (total_number table) = length (index table) /\
  sum_list (total_number table) =
    length (with_level (categories cl) (values cl)) /\
  sum_list (total_number table) <= length (values cl).
Proof.
  unfold cluster_distr in Hrun. rewrite Hcl in Hrun.
  destruct (obs !! batch_key) as [bt|]; [|discriminate].
  injection Hrun as _ <-. cbn [total_number index]. unfold cells_per_cluster.
  rewrite length_map, sum_list_map, level_counts_sum by done.
  split; [done|]. split; [done|]. apply with_level_length.
Qed.

Lemma cluster_distr_total_numbers_witness :
  sum_list [1; 0] = length (with_level ["0"; "1"] [Some "0"]).
Proof.
  assert (Hcl : obs_unused_cluster !! "louvain" =
                Some (Build_Categorical ["0"; "1"] [Some "0"]))
    by (vm_compute; reflexivity).
  assert (Hnd : NoDup (categories (Build_Categorical ["0"; "1"] [Some "0"])))
    by (apply (bool_decide_unpack _); vm_compute; exact I).
  assert (Hrun : cluster_distr (fun _ => None) obs_unused_cluster
                   "louvain" "batch" (2 # 5)
                 = ([],
                    Ok {| index := ["0"; "1"]; total_number := [1; 0];
                          perc := [("perc_a", [Some 1%Q; None])];
                          entropy_col := [None; None] |}))
    by (vm_compute; reflexivity).
  destruct (cluster_distr_total_numbers (fun _ => None) obs_unused_cluster
              "louvain" "batch" (2 # 5) [] _ _ Hrun Hcl Hnd) as (_ & H & _).
  exact H.
Defined.

End ClusterDistrTotals.

(** ** The table of [de_results] *)

Section DeResultsFacts.

Import DeResults.

Lemma dict_get_app {V} (d1 d2 : list (string * V)) k :
  dict_get (d1 ++ d2) k =
  match dict_get d1 k with
  | Some v => Some v
  | None => dict_get d2 k
  end.
Proof. unfold dict_get. rewrite find_app_l. by destruct (List.find _ d1). Qed.

Lemma dict_get_cons {V} k0 (v0 : V) d k :
  dict_get ((k0, v0) :: d) k = if String.eqb k0 k then Some v0 else dict_get d k.
Proof. unfold dict_get. cbn [List.find fst]. by destruct (String.eqb k0 k). Qed.

Lemma dict_get_set {V} (d : list (string * V)) k v k' :
  dict_get (dict_set d k v) k' =
  if String.eqb k k' then Some v else dict_get d k'.
Proof.
  induction d as [|[k0 v0] d IH]; cbn [dict_set].
  - by rewrite dict_get_cons.
  - destruct (String.eqb_spec k0 k) as [->|Hne].
    + rewrite !dict_get_cons. by destruct (String.eqb k k').
    + rewrite !dict_get_cons, IH.
      destruct (String.eqb_spec k0 k') as [->|Hne']; [|done].
      destruct (String.eqb_spec k k'); [congruence | done].
Qed.

Lemma dict_set_keys {V} (d : list (string * V)) k v k' :
  k' ∈ map fst (dict_set d k v) <-> k' = k \/ k' ∈ map fst d.
Proof.
  induction d as [|[k0 v0] d IH]; cbn [dict_set map fst].
  - rewrite list_elem_of_singleton, elem_of_nil. tauto.
  - destruct (String.eqb_spec k0 k) as [->|Hne]; cbn [map fst].
    + rewrite !elem_of_cons. tauto.
    + rewrite !elem_of_cons, IH. tauto.
Qed.

Lemma dict_set_NoDup {V} (d : list (string * V)) k v :
  NoDup (map fst d) -> NoDup (map fst (dict_set d k v)).
Proof.
  induction d as [|[k0 v0] d IH]; cbn [dict_set map fst]; intros Hnd.
  - apply NoDup_singleton.
  - apply NoDup_cons in Hnd as [Hni Hnd].
    destruct (String.eqb_spec k0 k) as [->|Hne]; cbn [map fst].
    + by apply NoDup_cons.
    + apply NoDup_cons. split; [|by apply IH].
      rewrite dict_set_keys. intros [?|?]; done.
Qed.

Lemma dict_get_elem {V} (d : list (string * V)) k v :
  NoDup (map fst d) -> (k, v) ∈ d <-> dict_get d k = Some v.
Proof.
  induction d as [|[k0 v0] d IH]; intros Hnd.
  - rewrite elem_of_nil. done.
  - cbn [map fst] in Hnd. apply NoDup_cons in Hnd as [Hni Hnd].
    rewrite dict_get_cons, elem_of_cons.
    destruct (String.eqb_spec k0 k) as [->|Hne].
    + split.
      * intros [[= ->]|Hin]; [done|]. exfalso. apply Hni.
        apply list_elem_of_fmap. by exists (k, v).
      * intros [= ->]. by left.
    + rewrite <- IH by done. split; [|by right].
      intros [[= ? ?]|?]; [congruence | done].
Qed.

Lemma build_get {V} (items : list (string * V)) : forall d k,
  dict_get (build items d) k =
  match dict_get (rev items) k with
  | Some v => Some v
  | None => dict_get d k
  end.
Proof.
  induction items as [|[k0 v0] items IH]; intros d k; [done|].
  cbn [build fold_left rev fst snd]. fold (build items (dict_set d k0 v0)).
  rewrite IH, dict_get_app, dict_get_set, dict_get_cons.
  destruct (dict_get (rev items) k); [done|].
  by destruct (String.eqb k0 k).
Qed.

Lemma build_NoDup {V} (items : list (string * V)) : forall d,
  NoDup (map fst d) -> NoDup (map fst (build items d)).
Proof.
  induction items as [|[k0 v0] items IH]; intros d Hnd; [done|].
  apply IH. by apply dict_set_NoDup.
Qed.

Lemma dict_get_rev_Some {V} (items : list (string * V)) k v :
  dict_get (rev items) k = Some v <->
  exists l1 l2, items = l1 ++ (k, v) :: l2 /\ Forall (fun item => fst item <> k) l2.
Proof.
  induction items as [|[k0 v0] items IH] using rev_ind.
  - split; [done|]. intros (l1 & l2 & H & _). by destruct l1.
  - rewrite rev_app_distr. cbn [rev app]. rewrite dict_get_cons.
    destruct (String.eqb_spec k0 k) as [->|Hne].
    + split.
      * intros [= ->]. exists items, []. by split.
      * intros (l1 & l2 & Heq & Hl2).
        destruct l2 as [|b l2 _] using rev_ind.
        -- apply app_inj_tail in Heq as [_ [= ->]]. done.
        -- rewrite app_comm_cons, app_assoc in Heq.
           apply app_inj_tail in Heq as [_ <-].
           apply Forall_app in Hl2 as [_ Hb]. rewrite Forall_singleton in Hb.
           exfalso. by apply Hb.
    + rewrite IH. split.
      * intros (l1 & l2 & -> & Hl2). exists l1, (l2 ++ [(k0, v0)]).
        split; [by rewrite <- app_assoc|].
        apply Forall_app. split; [done|]. by apply Forall_singleton.
      * intros (l1 & l2 & Heq & Hl2).
        destruct l2 as [|b l2 _] using rev_ind.
        -- apply app_inj_tail in Heq as [_ [= ? ?]]. congruence.
        -- rewrite app_comm_cons, app_assoc in Heq.
           apply app_inj_tail in Heq as [-> <-].
           apply Forall_app in Hl2 as [Hl2 _]. by exists l1, l2.
Qed.

Lemma keys_loop_build result group keys : forall table table',
  keys_loop result group keys table = Done table' ->
  Forall (fun key => exists column, getitem result key group = Done column) keys /\
  table' = build (map (fun key => item_of result (group, key)) keys) table.
Proof.
  induction keys as [|key keys IH]; intros table table' H; cbn [keys_loop] in H.
  - injection H as <-. by split.
  - destruct (getitem result key group) as [column|e] eqn:Hg; [|discriminate].
    cbn [and_then] in H. apply IH in H as [HF ->]. split.
    + constructor; [by exists column | done].
    + assert (E : item_of result (group, key) = (label group key, column)).
      { unfold item_of, value_of. cbn [fst snd]. by rewrite Hg. }
      cbn [map]. unfold build. cbn [fold_left]. by rewrite E.
Qed.

Lemma build_app {V} (l1 l2 d : list (string * V)) :
  build (l1 ++ l2) d = build l2 (build l1 d).
Proof. unfold build. by rewrite fold_left_app. Qed.

Lemma groups_loop_build result keys group_names : forall table table',
  groups_loop result keys group_names table = Done table' ->
  Forall (fun p => exists column, getitem result (snd p) (fst p) = Done column)
    (pairs group_names keys) /\
  table' = build (map (item_of result) (pairs group_names keys)) table.
Proof.
  induction group_names as [|group groups IH]; intros table table' H;
    cbn [groups_loop] in H.
  - injection H as <-. by split.
  - destruct (keys_loop result group keys table) as [table1|e] eqn:Hk;
      [|discriminate].
    cbn [and_then] in H. apply keys_loop_build in Hk as [HF1 ->].
    apply IH in H as [HF2 ->]. cbn [pairs flat_map]. fold (pairs groups keys).
    split.
    + apply Forall_app. split; [|done].
      clear -HF1. induction keys as [|key keys IH]; [constructor|].
      apply Forall_cons in HF1 as [H1 H2]. cbn [map].
      constructor; [done | by apply IH].
    + rewrite map_app, build_app, map_map. done.
Qed.

(** X17.  [de_results] only checks that [cluster_key] is a key of
    [adata.obs]: two keys that pass the check give the same outcome. *)
Theorem de_results_cluster_key_only_checked (adata : AnnData)
    (keys : list string) (cluster_key cluster_key' : string) (n_genes : Z)
    (Hkey : cluster_key ∈ obs_keys adata)
    (Hkey' : cluster_key' ∈ obs_keys adata) :
  de_results adata keys cluster_key n_genes =
  de_results adata keys cluster_key' n_genes.
Proof.
  unfold de_results. by rewrite !bool_decide_eq_true_2.
Qed.

(** X18.  The columns of the table [de_results] returns have distinct
    labels, and a column is in the table exactly when it is the slice
    [[:n_genes]] of [result[key][group]] for the last pair of a group and
    a key, in the order of the comprehension, that has its label.  Keys
    that agree on their first ten characters share their labels, and
    only the later one is kept. *)
Theorem de_results_last_pair_wins (adata : AnnData) (keys : list string)
    (cluster_key : string) (n_genes : Z)
    (result : gmap string (list (string * list string)))
    (names table : list (string * list string))
    (Hresult : rank_genes_groups adata = Some result)
    (Hnames : result !! "names" = Some names)
    (Hrun : de_results adata keys cluster_key n_genes = Done table) :
  NoDup (map fst table) /\
  forall column_label column,
    (column_label, column) ∈ table <->
    exists before group key after values,
      pairs (map fst names) keys = before ++ (group, key) :: after /\
      label group key = column_label /\
      Forall (fun p => label (fst p) (snd p) <> column_label) after /\
      getitem result key group = Done values /\
      column = Markers.slice_to values n_genes.
Proof.
  unfold de_results in Hrun. rewrite Hresult, Hnames in Hrun.
  destruct (bool_decide _); [|discriminate].
  destruct (groups_loop result keys (map fst names) []) as [full|e] eqn:Hl;
    [|discriminate].
  cbn [and_then] in Hrun. destruct (same_length full); [|discriminate].
  injection Hrun as <-.
  apply groups_loop_build in Hl as [Hok ->].
  set (ps := pairs (map fst names) keys) in *.
  assert (Hnd : NoDup (map fst (build (map (item_of result) ps) []))).
  { apply build_NoDup. constructor. }
  split.
  - by rewrite map_map, (map_ext _ fst).
  - intros column_label column.
    change (map ?f ?l) with (f <$> l) at 1. rewrite list_elem_of_fmap. split.
    + intros ([lbl values] & [= -> ->] & Hin). cbn [fst snd].
      apply dict_get_elem in Hin; [|done].
      rewrite build_get in Hin. cbn [dict_get List.find] in Hin.
      destruct (dict_get (rev (map (item_of result) ps)) lbl) as [v|] eqn:Hg;
        [|discriminate].
      injection Hin as ->.
      apply dict_get_rev_Some in Hg as (l1 & l2 & Heq & Hl2).
      change (map ?f ?l) with (f <$> l) in Heq.
      apply fmap_app_inv in Heq as (before & rest & -> & Hrest & Hps).
      symmetry in Hrest. apply fmap_cons_inv in Hrest as ([group key] & after & Hitem & -> & ->).
      injection Hitem as Hlbl Hval.
      exists before, group, key, after, values. cbn [fst snd] in *.
      split; [done|]. split; [done|]. split.
      * apply Forall_forall. intros p Hp. rewrite Forall_forall in Hl2.
        apply (Hl2 (item_of result p)).
        apply list_elem_of_fmap. by exists p.
      * split; [|done]. rewrite Hps in Hok.
        apply Forall_app in Hok as [_ Hok]. apply Forall_cons in Hok as [[c Hc] _].
        cbn [fst snd] in Hc. unfold value_of in Hval. cbn [fst snd] in Hval.
        rewrite Hc in Hval. by subst.
    + intros (before & group & key & after & values & Hps & <- & Hafter & Hg & ->).
      exists (label group key, values). split; [done|].
      apply dict_get_elem; [done|]. rewrite build_get.
      assert (Hrev : dict_get (rev (map (item_of result) ps)) (label group key)
                     = Some values).
      { apply dict_get_rev_Some.
        exists (map (item_of result) before), (map (item_of result) after).
        split.
        - assert (E : item_of result (group, key) = (label group key, values)).
          { unfold item_of, value_of. cbn [fst snd]. by rewrite Hg. }
          rewrite Hps, map_app. cbn [map]. by rewrite E.
        - apply Forall_forall. intros item Hitem.
          change (map ?f ?l) with (f <$> l) in Hitem.
          apply list_elem_of_fmap in Hitem as (p & -> & Hp).
          rewrite Forall_forall in Hafter. by apply Hafter. }
      by rewrite Hrev.
Qed.

Lemma de_results_last_pair_wins_witness :
  NoDup (map fst [("0_pvals_adj_", ["0.03"; "0.4"])]) /\
  (("0_pvals_adj_", ["0.03"; "0.4"]) ∈ [("0_pvals_adj_", ["0.03"; "0.4"])] <->
   exists before group key after values,
     pairs (map fst [("0", ["Cd3e"; "Cd4"])])
       ["pvals_adj_bonferroni"; "pvals_adj_bh"] =
       before ++ (group, key) :: after /\
     label group key = "0_pvals_adj_" /\
     Forall (fun p => label (fst p) (snd p) <> "0_pvals_adj_") after /\
     getitem
       (<["names" := [("0", ["Cd3e"; "Cd4"])]]>
          (<["pvals_adj_bonferroni" := [("0", ["0.01"; "0.2"])]]>
             (<["pvals_adj_bh" := [("0", ["0.03"; "0.4"])]]> ∅)))
       key group = Done values /\
     ["0.03"; "0.4"] = Markers.slice_to values 50).
Proof.
  pose (result :=
          <["names" := [("0", ["Cd3e"; "Cd4"])]]>
            (<["pvals_adj_bonferroni" := [("0", ["0.01"; "0.2"])]]>
               (<["pvals_adj_bh" := [("0", ["0.03"; "0.4"])]]>
                  (∅ : gmap string (list (string * list string)))))).
  destruct (de_results_last_pair_wins
              {| obs_keys := {[ "louvain" ]}; rank_genes_groups := Some result |}
              ["pvals_adj_bonferroni"; "pvals_adj_bh"] "louvain" 50 result
              [("0", ["Cd3e"; "Cd4"])] [("0_pvals_adj_", ["0.03"; "0.4"])])
    as [H1 H2].
  - reflexivity.
  - vm_compute. reflexivity.
  - vm_compute. reflexivity.
  - split; [exact H1 | exact (H2 "0_pvals_adj_" ["0.03"; "0.4"])].
Defined.

Lemma de_results_cluster_key_only_checked_witness :
  de_results {| obs_keys := {[ "louvain"; "batch" ]}; rank_genes_groups := None |}
    ["names"] "louvain" 50 =
  de_results {| obs_keys := {[ "louvain"; "batch" ]}; rank_genes_groups := None |}
    ["names"] "batch" 50.
Proof.
  apply de_results_cluster_key_only_checked;
    apply (bool_decide_unpack _); vm_compute; exact I.
Defined.

Lemma same_length_spec (table : list (string * list string)) :
  same_length table = true ->
  exists n, Forall (fun c => length (snd c) = n) table.
Proof.
  destruct table as [|[l column] rest]; intros H.
  - exists 0. constructor.
  - exists (length column). constructor; [done|].
    cbn [same_length] in H. rewrite forallb_forall in H.
    apply Forall_forall. intros c Hc. apply list_elem_of_In in Hc.
    by apply Nat.eqb_eq, H.
Qed.

(** X19.  For a non-negative [n_genes] all columns of the returned table
    have one length, which is at most [n_genes]. *)
Theorem de_results_rows (adata : AnnData) (keys : list string)
    (cluster_key : string) (n_genes : Z) (table : list (string * list string))
    (Hn : (0 <= n_genes)%Z)
    (Hrun : de_results adata keys cluster_key n_genes = Done table) :
  exists rows,
    rows <= Z.to_nat n_genes /\
    Forall (fun c => length (snd c) = rows) table.
Proof.
  unfold de_results in Hrun.
  destruct (bool_decide _); [|discriminate].
  destruct (rank_genes_groups adata) as [result|]; [|discriminate].
  destruct (result !! "names") as [names|]; [|discriminate].
  destruct (groups_loop result keys (map fst names) []) as [full|e];
    [|discriminate].
  cbn [and_then] in Hrun.
  destruct (same_length full) eqn:Hsame; [|discriminate].
  injection Hrun as <-.
  apply same_length_spec in Hsame as [n Hall].
  exists (Nat.min (Z.to_nat n_genes) n). split; [lia|].
  change (map ?f ?l) with (f <$> l). apply Forall_fmap.
  eapply Forall_impl; [exact Hall|]. intros [l column] Hlen.
  cbn [fst snd compose] in *. unfold Markers.slice_to.
  destruct (Z.leb_spec 0 n_genes); [|lia].
  by rewrite length_firstn, Hlen.
Qed.

Lemma de_results_rows_witness :
  exists rows,
    rows <= Z.to_nat 1 /\
    Forall (fun c => length (snd c) = rows)
      [("0_names", ["Cd3e"]); ("0_scores", ["9.1"])].
Proof.
  apply (de_results_rows
           {| obs_keys := {[ "louvain" ]};
              rank_genes_groups :=
                Some (<["names" := [("0", ["Cd3e"; "Cd4"])]]>
                        (<["scores" := [("0", ["9.1"; "7.5"])]]> ∅)) |}
           ["names"; "scores"] "louvain" 1).
  - lia.
  - vm_compute. reflexivity.
Defined.

End DeResultsFacts.

(** ** The grid of [interactive_histograms] *)

Section HistogramsFacts.

Import Histograms.

Variable repr : string -> string.
Variable obs_keys : gset string.
Variable var_keys : gset string.

Lemma even_mod2 (i : nat) : (i mod 2 =? 0) = Nat.even i.
Proof.
  destruct (Nat.even i) eqn:He.
  - apply Nat.eqb_eq. apply Nat.even_spec in He as [m ->].
    rewrite Nat.mul_comm. apply Nat.Div0.mod_mul.
  - apply Nat.eqb_neq. intros Hm.
    apply Nat.Div0.mod_divides in Hm as [c ->].
    rewrite Nat.even_mul in He. discriminate.
Qed.

Lemma rows_of_two_snoc {A} (x : A) : forall n (l : list A),
  length l <= n ->
  (Nat.even (length l) = true ->
   rows_of_two (l ++ [x]) = rows_of_two l ++ [[x]]) /\
  (Nat.even (length l) = false ->
   exists init a,
     rows_of_two l = init ++ [[a]] /\
     rows_of_two (l ++ [x]) = init ++ [[a; x]]).
Proof.
  induction n as [|n IH]; intros l Hlen.
  - destruct l; [|cbn [length] in Hlen; lia].
    split; [done | discriminate].
  - destruct l as [|a [|b l]].
    + split; [done | discriminate].
    + split; [discriminate|]. intros _. by exists [], a.
    + cbn [length] in Hlen. destruct (IH l) as [IH1 IH2]; [lia|].
      change ((a :: b :: l) ++ [x]) with (a :: b :: (l ++ [x])).
      cbn [rows_of_two length Nat.even]. split.
      * intros He. by rewrite IH1.
      * intros He. destruct (IH2 He) as (init & c & -> & ->).
        by exists ([a; b] :: init), c.
Qed.

Lemma hist_known key last :
  (known obs_keys var_keys) key ->
  (if bool_decide (key ∈ obs_keys) then Some (Obs key)
   else if bool_decide (key ∈ var_keys) then Some (Var key)
   else last) = Some (hist (figure_of obs_keys key)).
Proof.
  intros [Ho|Hv]; unfold figure_of; cbn [hist].
  - by rewrite !(bool_decide_eq_true_2 _ Ho).
  - case_bool_decide; [done|]. by rewrite (bool_decide_eq_true_2 _ Hv).
Qed.

Lemma figure_of_eta key :
  {| title := key; hist := hist (figure_of obs_keys key) |} = figure_of obs_keys key.
Proof. done. Qed.

Lemma figures_loop_rows keys : forall i st done cur,
  Forall (known obs_keys var_keys) keys ->
  i = length done -> 1 <= i ->
  current_list st = Some cur ->
  figures st ++ [cur] = rows_of_two done ->
  exists st' cur',
    figures_loop obs_keys var_keys i keys st = Done st' /\
    current_list st' = Some cur' /\
    figures st' ++ [cur'] =
      rows_of_two (done ++ map (figure_of obs_keys) keys).
Proof.
  induction keys as [|key keys IH]; intros i st done cur Hk Hi Hpos Hcur Hrows.
  - exists st, cur. rewrite app_nil_r. by cbn.
  - apply Forall_cons in Hk as [Hkey Hk].
    cbn [figures_loop]. unfold body.
    destruct (Nat.eqb_spec i 0) as [?|_]; [lia|].
    rewrite even_mod2, Hcur, (hist_known key (last_hist st) Hkey).
    destruct (rows_of_two_snoc (figure_of obs_keys key) (length done) done)
      as [Heven Hodd]; [done|].
    rewrite <- Hi in Heven, Hodd.
    cbn [map]. rewrite (cons_middle _ done), app_assoc.
    destruct (Nat.even i) eqn:He; cbn [and_then fst snd]; rewrite figure_of_eta.
    + eapply (IH (S i) _ (done ++ [figure_of obs_keys key])); try done.
      * rewrite length_app. cbn [length]. lia.
      * lia.
      * cbn [figures]. by rewrite Heven, Hrows.
    + destruct (Hodd eq_refl) as (init & a & Hinit & Hsnoc).
      rewrite Hinit in Hrows. apply app_inj_tail in Hrows as [Hfig ->].
      eapply (IH (S i) _ (done ++ [figure_of obs_keys key])); try done.
      * rewrite length_app. cbn [length]. lia.
      * lia.
      * cbn [figures]. by rewrite Hsnoc, Hfig.
Qed.

Lemma check_input_known keys :
  Forall (known obs_keys var_keys) keys -> check_input repr obs_keys var_keys keys = Done tt.
Proof.
  induction 1 as [|key keys Hkey _ IH]; [done|].
  cbn [check_input]. destruct Hkey as [Ho|Hv].
  - by rewrite (bool_decide_eq_false_2 (key ∉ obs_keys)) by (by intros ?).
  - rewrite (bool_decide_eq_false_2 (key ∉ var_keys)) by (by intros ?).
    by rewrite andb_false_r.
Qed.

Lemma check_input_fail keys e :
  check_input repr obs_keys var_keys keys = Fail e <->
  exists before key after,
    keys = before ++ key :: after /\
    Forall (known obs_keys var_keys) before /\ ~ (known obs_keys var_keys) key /\
    e = Exn (ValueError ("The key " +:+ repr key +:+
                         " does not exist in adata.obs or adata.var")).
Proof.
  induction keys as [|key keys IH]; cbn [check_input].
  - split; [discriminate|]. intros (before & ? & ? & H & _). by destruct before.
  - destruct (decide (known obs_keys var_keys key)) as [Hk|Hk].
    + assert (Hb : bool_decide (key ∉ obs_keys) && bool_decide (key ∉ var_keys)
                   = false).
      { destruct Hk as [Ho|Hv].
        - by rewrite (bool_decide_eq_false_2 (key ∉ obs_keys)) by (by intros ?).
        - rewrite (bool_decide_eq_false_2 (key ∉ var_keys)) by (by intros ?).
          by rewrite andb_false_r. }
      rewrite Hb, IH. split.
      * intros (before & k & after & -> & Hbefore & Hnk & ->).
        exists (key :: before), k, after. repeat split; try done.
        by constructor.
      * intros (before & k & after & Heq & Hbefore & Hnk & ->).
        destruct before as [|b before]; injection Heq as -> ->; [done|].
        apply Forall_cons in Hbefore as [_ Hbefore].
        by exists before, k, after.
    + assert (Hb : bool_decide (key ∉ obs_keys) && bool_decide (key ∉ var_keys)
                   = true).
      { unfold Histograms.known in Hk.
        rewrite !bool_decide_eq_true_2; [done | |]; intros ?; apply Hk; auto. }
      rewrite Hb. split.
      * intros [= <-]. exists [], key, keys. repeat split; try done.
      * intros (before & k & after & Heq & Hbefore & Hnk & ->).
        destruct before as [|b before]; injection Heq as -> ->; [done|].
        apply Forall_cons in Hbefore as [Hkk _]. done.
Qed.

Lemma rows_of_two_concat {A} : forall n (l : list A),
  length l <= n -> concat (rows_of_two l) = l.
Proof.
  induction n as [|n IH]; intros l Hlen.
  - by destruct l; [|cbn [length] in Hlen; lia].
  - destruct l as [|a [|b l]]; [done | done |].
    cbn [length] in Hlen. cbn [rows_of_two concat app]. rewrite IH by lia. done.
Qed.

Lemma rows_of_two_rows {A} : forall n (l : list A) i row,
  length l <= n ->
  rows_of_two l !! i = Some row ->
  length row = 2 \/ (length row = 1 /\ S i = length (rows_of_two l)).
Proof.
  induction n as [|n IH]; intros l i row Hlen Hrow.
  - destruct l; [done | cbn [length] in Hlen; lia].
  - destruct l as [|a [|b l]]; [done | |].
    + destruct i; [|done]. injection Hrow as <-. by right.
    + cbn [length] in Hlen. cbn [rows_of_two] in *. destruct i as [|i].
      * injection Hrow as <-. by left.
      * cbn [lookup list_lookup] in Hrow.
        destruct (IH l i row) as [?|[? ?]]; [lia | done | by left |].
        right. cbn [length]. split; [done | lia].
Qed.

Lemma check_input_done keys u :
  check_input repr obs_keys var_keys keys = Done u -> Forall (known obs_keys var_keys) keys.
Proof.
  induction keys as [|key keys IH]; cbn [check_input]; intros H; [constructor|].
  destruct (bool_decide (key ∉ obs_keys)) eqn:Ho;
    destruct (bool_decide (key ∉ var_keys)) eqn:Hv; cbn [andb] in H;
    try discriminate; (constructor; [|by apply IH]).
  - apply bool_decide_eq_false in Hv. right. by apply dec_stable.
  - apply bool_decide_eq_false in Ho. left. by apply dec_stable.
  - apply bool_decide_eq_false in Ho. left. by apply dec_stable.
Qed.

Lemma interactive_histograms_eq (keys : list string) :
  Forall (known obs_keys var_keys) keys -> keys <> [] ->
  interactive_histograms repr obs_keys var_keys keys =
  Done (rows_of_two (map (figure_of obs_keys) keys)).
Proof.
  intros Hk Hne. unfold interactive_histograms.
  rewrite (check_input_known keys Hk). cbn [and_then].
  destruct keys as [|key keys]; [done|].
  apply Forall_cons in Hk as [Hkey Hk].
  cbn [figures_loop]. unfold body at 1. cbn [Nat.eqb and_then fst snd figures
    current_list last_hist].
  rewrite (hist_known key None Hkey), figure_of_eta.
  change (and_then (Done ?st) (figures_loop obs_keys var_keys 1 keys))
    with (figures_loop obs_keys var_keys 1 keys st).
  destruct (figures_loop_rows keys 1
              {| figures := []; current_list := Some ([] ++ [figure_of obs_keys key]);
                 last_hist := Some (hist (figure_of obs_keys key)) |}
              [figure_of obs_keys key] [figure_of obs_keys key])
    as (st' & cur' & -> & Hcur & Hrows); try done.
  cbn [and_then]. rewrite Hcur. by rewrite Hrows.
Qed.

(** X20.  [interactive_histograms] fails in exactly two ways: with a
    [ValueError] for the first key that is neither in [adata.obs] nor in
    [adata.var], before any figure is made, and, for an empty list of
    keys, on reading [current_list] before it is bound (line 660). *)
Theorem interactive_histograms_failure (keys : list string) (e : error) :
  interactive_histograms repr obs_keys var_keys keys = Fail e <->
  (keys = [] /\ e = UnboundLocalError "current_list") \/
  exists before key after,
    keys = before ++ key :: after /\
    Forall (known obs_keys var_keys) before /\ ~ (known obs_keys var_keys) key /\
    e = Exn (ValueError ("The key " +:+ repr key +:+
                         " does not exist in adata.obs or adata.var")).
Proof.
  destruct (check_input repr obs_keys var_keys keys) as [[]|e'] eqn:Hc.
  - pose proof (check_input_done keys tt Hc) as Hk.
    destruct keys as [|key keys].
    + split.
      * intros [= <-]. by left.
      * intros [[_ ->]|(before & ? & ? & H & _)]; [done | by destruct before].
    + rewrite interactive_histograms_eq by done. split; [discriminate|].
      intros [[? _]|(before & k & after & Heq & _ & Hnk & _)]; [done|].
      exfalso. apply Hnk. rewrite Heq in Hk.
      apply Forall_app in Hk as [_ Hk]. by apply Forall_cons in Hk as [? _].
  - unfold interactive_histograms. rewrite Hc. cbn [and_then].
    pose proof (proj1 (check_input_fail keys e') Hc) as Hsplit. split.
    + intros [= <-]. by right.
    + intros [[-> _]|Hsplit']; [discriminate|].
      apply check_input_fail in Hsplit'. congruence.
Qed.

(** X21.  For a non-empty list of known keys the grid handed to
    [gridplot] holds one figure per key, in the order of the keys, each
    with the histogram of its own key, taken from [adata.obs] when the
    key is there and from [adata.var] otherwise.  Every row has two
    figures, except that the last row may have one. *)
Theorem interactive_histograms_rows_of_two (keys : list string)
    (Hkeys : Forall (known obs_keys var_keys) keys) (Hne : keys <> []) :
  exists grid,
    interactive_histograms repr obs_keys var_keys keys = Done grid /\
    concat grid = map (figure_of obs_keys) keys /\
    forall i row,
      grid !! i = Some row ->
      length row = 2 \/ (length row = 1 /\ S i = length grid).
Proof.
  exists (rows_of_two (map (figure_of obs_keys) keys)).
  split; [by apply interactive_histograms_eq|]. split.
  - by apply (rows_of_two_concat (length (map (figure_of obs_keys) keys))).
  - intros i row.
    by apply (rows_of_two_rows (length (map (figure_of obs_keys) keys))).
Qed.

End HistogramsFacts.

Lemma interactive_histograms_rows_of_two_witness :
  exists grid,
    Histograms.interactive_histograms (fun key => key)
      {[ "n_counts"; "n_genes" ]} {[ "n_cells"; "n_genes" ]}
      ["n_counts"; "n_genes"; "n_cells"] = Done grid /\
    concat grid =
      [ Histograms.Build_figure "n_counts" (Histograms.Obs "n_counts");
        Histograms.Build_figure "n_genes" (Histograms.Obs "n_genes");
        Histograms.Build_figure "n_cells" (Histograms.Var "n_cells") ].
Proof.
  destruct (interactive_histograms_rows_of_two (fun key => key)
              {[ "n_counts"; "n_genes" ]} {[ "n_cells"; "n_genes" ]}
              ["n_counts"; "n_genes"; "n_cells"]) as (grid & H1 & H2 & _).
  - apply Forall_cons. split; [left; apply (bool_decide_unpack _); vm_compute; exact I|].
    apply Forall_cons. split; [left; apply (bool_decide_unpack _); vm_compute; exact I|].
    apply Forall_cons. split; [right; apply (bool_decide_unpack _); vm_compute; exact I|].
    apply Forall_nil_2.
  - discriminate.
  - exists grid. split; [exact H1|]. rewrite H2. vm_compute. reflexivity.
Defined.

(** ** The gene lists of [score_cell_cycle] *)

Section CellCycleFacts.

Import CellCycle.

Lemma lower_chr_idemp (c : ascii) : Re.lower (Re.lower c) = Re.lower c.
Proof. destruct c as [[] [] [] [] [] [] [] []]; reflexivity. Qed.

Lemma lower_upper_chr (c : ascii) : Re.lower (upper c) = Re.lower c.
Proof. destruct c as [[] [] [] [] [] [] [] []]; reflexivity. Qed.

Lemma lower_idemp (s : string) : lower (lower s) = lower s.
Proof.
  induction s as [|c s IH]; [done|]. cbn [lower]. by rewrite lower_chr_idemp, IH.
Qed.

Lemma lower_capitalize (s : string) : lower (capitalize (lower s)) = lower s.
Proof.
  destruct s as [|c s]; [done|]. cbn [lower capitalize].
  by rewrite lower_upper_chr, lower_chr_idemp, !lower_idemp.
Qed.

(** X22.  [gene.lower().capitalize()] is a normal form for case, on
    ASCII text: applying it twice is applying it once, and two symbols
    get the same form exactly when they are equal up to case. *)
Theorem mouse_symbol_normal_form (gene gene' : string) :
  capitalize (lower (capitalize (lower gene))) = capitalize (lower gene) /\
  (capitalize (lower gene) = capitalize (lower gene') <->
   lower gene = lower gene').
Proof.
  split; [by rewrite lower_capitalize|]. split.
  - intros H. apply (f_equal lower) in H. by rewrite !lower_capitalize in H.
  - by intros ->.
Qed.

Lemma select_sublist {A} (mask : list bool) : forall l : list A,
  Batch.select mask l `sublist_of` l.
Proof.
  induction mask as [|b mask IH]; intros [|x l]; try apply sublist_nil_l.
  rewrite select_cons. destruct b.
  - by apply sublist_skip.
  - by apply sublist_cons.
Qed.

Lemma select_elem {A} (mask : list bool) : forall (l : list A) x,
  x ∈ Batch.select mask l <->
  exists i, mask !! i = Some true /\ l !! i = Some x.
Proof.
  induction mask as [|b mask IH]; intros [|y l] x.
  - split; [by intros ?%elem_of_nil | by intros (i & ? & _)].
  - split; [by intros ?%elem_of_nil | by intros (i & ? & _)].
  - split; [by intros ?%elem_of_nil | by intros (i & _ & ?)].
  - rewrite select_cons. split.
    + destruct b.
      * intros [->|Hin]%elem_of_cons; [by exists 0|].
        apply IH in Hin as (i & ? & ?). by exists (S i).
      * intros Hin. apply IH in Hin as (i & ? & ?). by exists (S i).
    + intros ([|i] & Hm & Hl); cbn in Hm, Hl.
      * injection Hm as ->. injection Hl as ->. left.
      * assert (x ∈ Batch.select mask l) by (apply IH; by exists i).
        destruct b; [by right | done].
Qed.

Lemma in1d_lookup ar1 ar2 i :
  in1d ar1 ar2 !! i = Some true <->
  exists a, ar1 !! i = Some a /\ a ∈ ar2.
Proof.
  unfold in1d. change (map ?f ar1) with (f <$> ar1).
  rewrite list_lookup_fmap. destruct (ar1 !! i) as [a|]; cbn.
  - split.
    + intros [= H]. apply bool_decide_eq_true in H. by exists a.
    + intros (a' & [= <-] & H). by rewrite bool_decide_eq_true_2.
  - split; [done | by intros (? & ? & _)].
Qed.

Lemma mm_elem (column : list (option string)) a :
  a ∈ map (fun gene => capitalize (lower gene)) (omap (fun x => x) column) <->
  exists gene, Some gene ∈ column /\ a = capitalize (lower gene).
Proof.
  change (map ?f ?l) with (f <$> l). rewrite list_elem_of_fmap. split.
  - intros (gene & -> & Hin). apply list_elem_of_omap in Hin as (x & Hx & ->).
    by exists gene.
  - intros (gene & Hin & ->). exists gene. split; [done|].
    apply list_elem_of_omap. by exists (Some gene).
Qed.

(** The annotation [score_cell_cycle] compares with the gene lists. *)
Lemma getitem_mask_elem names ar1 (column : list (option string)) genes name :
  getitem_mask names
    (in1d ar1 (map (fun gene => capitalize (lower gene))
                 (omap (fun x => x) column))) = Done genes ->
  genes `sublist_of` names /\
  (name ∈ genes <->
   exists i a gene,
     names !! i = Some name /\ ar1 !! i = Some a /\
     Some gene ∈ column /\ a = capitalize (lower gene)).
Proof.
  unfold getitem_mask. destruct (_ =? _)%nat; [|discriminate].
  intros [= <-]. split; [apply select_sublist|].
  rewrite select_elem. split.
  - intros (i & Hm & Hn). apply in1d_lookup in Hm as (a & Ha & Hin).
    apply mm_elem in Hin as (gene & Hg & ->).
    by exists i, (capitalize (lower gene)), gene.
  - intros (i & a & gene & Hn & Ha & Hg & ->). exists i. split; [|done].
    apply in1d_lookup. eexists. split; [done|]. apply mm_elem. by exists gene.
Qed.

(** X23.  The S phase and the G2/M phase genes handed to the scoring
    function are sublists of the feature names.  A feature is among them
    exactly when its annotation (its own name when [gene_symbols] is
    [None]) is the normal form of a gene of the column.  So the
    annotation of every feature selected is in normal form itself: a
    feature annotated in another capitalisation is never selected. *)
Theorem score_cell_cycle_selection (adata : AnnData)
    (cc_genes : gmap string (list (option string)))
    (gene_symbols : option string)
    (s_genes_mm_ens g2m_genes_mm_ens : list string)
    (Hrun : score_cell_cycle adata cc_genes gene_symbols
            = Done (s_genes_mm_ens, g2m_genes_mm_ens)) :
  let annotation :=
    match gene_symbols with
    | Some key => default [] (var adata !! key)
    | None => var_names adata
    end in
  let selected (column : string) (genes : list string) :=
    genes `sublist_of` var_names adata /\
    forall name,
      name ∈ genes <->
      exists i a gene,
        var_names adata !! i = Some name /\ annotation !! i = Some a /\
        Some gene ∈ default [] (cc_genes !! column) /\
        a = capitalize (lower gene) in
  selected "S" s_genes_mm_ens /\ selected "G2.M" g2m_genes_mm_ens /\
  forall name,
    name ∈ s_genes_mm_ens ++ g2m_genes_mm_ens ->
    exists i a,
      var_names adata !! i = Some name /\ annotation !! i = Some a /\
      capitalize (lower a) = a.
Proof.
  intros annotation selected.
  assert (Hsel : selected "S" s_genes_mm_ens /\ selected "G2.M" g2m_genes_mm_ens).
  { unfold score_cell_cycle, dropna_column in Hrun. subst selected annotation.
    cbv beta.
    destruct (cc_genes !! "S") as [s_col|]; [|discriminate].
    destruct (cc_genes !! "G2.M") as [g_col|]; [|discriminate].
    cbn [and_then default] in *.
    destruct gene_symbols as [key|].
    - destruct (var adata !! key) as [ann|]; [|discriminate]. cbn [default id].
      destruct (getitem_mask _ (in1d ann (map _ (omap _ s_col)))) as [s|] eqn:Hs;
        [|discriminate].
      destruct (getitem_mask _ (in1d ann (map _ (omap _ g_col)))) as [g|] eqn:Hg;
        [|discriminate].
      cbn [and_then] in Hrun. injection Hrun as <- <-.
      split.
      * split; [exact (proj1 (getitem_mask_elem _ _ _ _ EmptyString Hs))|].
        intros name. exact (proj2 (getitem_mask_elem _ _ _ _ name Hs)).
      * split; [exact (proj1 (getitem_mask_elem _ _ _ _ EmptyString Hg))|].
        intros name. exact (proj2 (getitem_mask_elem _ _ _ _ name Hg)).
    - destruct (getitem_mask _ (in1d _ (map _ (omap _ s_col)))) as [s|] eqn:Hs;
        [|discriminate].
      destruct (getitem_mask _ (in1d _ (map _ (omap _ g_col)))) as [g|] eqn:Hg;
        [|discriminate].
      cbn [and_then] in Hrun. injection Hrun as <- <-.
      split.
      * split; [exact (proj1 (getitem_mask_elem _ _ _ _ EmptyString Hs))|].
        intros name. exact (proj2 (getitem_mask_elem _ _ _ _ name Hs)).
      * split; [exact (proj1 (getitem_mask_elem _ _ _ _ EmptyString Hg))|].
        intros name. exact (proj2 (getitem_mask_elem _ _ _ _ name Hg)). }
  destruct Hsel as [[Hs1 Hs2] [Hg1 Hg2]].
  split; [done|]. split; [done|].
  intros name [Hin|Hin]%elem_of_app.
  - apply Hs2 in Hin as (i & a & gene & ? & ? & _ & ->).
    exists i, (capitalize (lower gene)). repeat split; try done.
    by rewrite lower_capitalize.
  - apply Hg2 in Hin as (i & a & gene & ? & ? & _ & ->).
    exists i, (capitalize (lower gene)). repeat split; try done.
    by rewrite lower_capitalize.
Qed.

Lemma in1d_length ar1 ar2 : length (in1d ar1 ar2) = length ar1.
Proof. unfold in1d. by rewrite length_map. Qed.

(** X24.  Up to the call of the scoring function, [score_cell_cycle]
    fails exactly when the table lacks the column ['S'] or, that one
    present, the column ['G2.M'] ([KeyError]), or when an annotation key
    is given that is not a column of [adata.var] ([KeyError]) or whose
    column has not one entry per feature ([IndexError]). *)
Theorem score_cell_cycle_failure (adata : AnnData)
    (cc_genes : gmap string (list (option string)))
    (gene_symbols : option string) (e : error) :
  score_cell_cycle adata cc_genes gene_symbols = Fail e <->
  (cc_genes !! "S" = None /\ e = KeyError "S") \/
  (is_Some (cc_genes !! "S") /\ cc_genes !! "G2.M" = None /\
   e = KeyError "G2.M") \/
  (is_Some (cc_genes !! "S") /\ is_Some (cc_genes !! "G2.M") /\
   exists key,
     gene_symbols = Some key /\
     match var adata !! key with
     | None => e = KeyError key
     | Some annotation =>
         length annotation <> length (var_names adata) /\ e = IndexError
     end).
Proof.
  unfold score_cell_cycle, dropna_column.
  destruct (cc_genes !! "S") as [s_col|].
  2: { cbn [and_then]. split.
       - intros [= <-]. by left.
       - intros [[_ ->]|[([? ?] & _)|([? ?] & _)]]; done. }
  destruct (cc_genes !! "G2.M") as [g_col|].
  2: { cbn [and_then]. split.
       - intros [= <-]. right. left. by split; [eexists|].
       - intros [[? _]|[(_ & _ & ->)|(_ & [? ?] & _)]]; done. }
  cbn [and_then]. unfold getitem_mask.
  destruct gene_symbols as [key|].
  - destruct (var adata !! key) as [ann|] eqn:Hv.
    + rewrite !in1d_length.
      destruct (Nat.eqb_spec (length ann) (length (var_names adata))) as [Hl|Hl];
        cbn [and_then].
      * split; [discriminate|].
        intros [[? _]|[(_ & ? & _)|(_ & _ & k & [= <-] & H)]]; try done.
        rewrite Hv in H. by destruct H.
      * split.
        -- intros [= <-]. right. right. split; [by eexists|].
           split; [by eexists|]. exists key. split; [done|]. by rewrite Hv.
        -- intros [[? _]|[(_ & ? & _)|(_ & _ & k & [= <-] & H)]]; try done.
           rewrite Hv in H. by destruct H as [_ ->].
    + split.
      * intros [= <-]. right. right. split; [by eexists|].
        split; [by eexists|]. exists key. split; [done|]. by rewrite Hv.
      * intros [[? _]|[(_ & ? & _)|(_ & _ & k & [= <-] & H)]]; try done.
        rewrite Hv in H. by subst.
  - rewrite !in1d_length, Nat.eqb_refl. cbn [and_then].
    split; [discriminate|].
    intros [[? _]|[(_ & ? & _)|(_ & _ & k & ? & _)]]; done.
Qed.

(** X25.  The default of [gene_symbols] is the string ['none'], which
    is read as an annotation key: unless [adata.var] has a column of that
    name, the call with the default fails with a [KeyError]. *)
Theorem score_cell_cycle_default_annotation (adata : AnnData)
    (cc_genes : gmap string (list (option string)))
    (Hvar : var adata !! "none" = None) :
  exists key,
    score_cell_cycle adata cc_genes gene_symbols_default = Fail (KeyError key) /\
    key ∈ ["S"; "G2.M"; "none"].
Proof.
  unfold score_cell_cycle, dropna_column, gene_symbols_default.
  destruct (cc_genes !! "S"); [|exists "S"; split; [done | set_solver]].
  destruct (cc_genes !! "G2.M"); [|exists "G2.M"; split; [done | set_solver]].
  cbn [and_then]. rewrite Hvar. exists "none". split; [done | set_solver].
Qed.

Lemma score_cell_cycle_default_annotation_witness :
  exists key,
    score_cell_cycle {| var_names := ["Mcm5"]; var := ∅ |}
      {[ "S" := [Some "MCM5"]; "G2.M" := [Some "CDK1"; None] ]}
      gene_symbols_default = Fail (KeyError key) /\
    key ∈ ["S"; "G2.M"; "none"].
Proof.
  apply score_cell_cycle_default_annotation. reflexivity.
Defined.

Lemma score_cell_cycle_selection_witness :
  ["Mcm5"] `sublist_of` ["Mcm5"; "CDK1"; "Actb"].
Proof.
  pose (adata := {| var_names := ["Mcm5"; "CDK1"; "Actb"]; var := ∅ |}).
  pose (cc := ({[ "S" := [Some "MCM5"]; "G2.M" := [Some "CDK1"; None] ]}
                 : gmap string (list (option string)))).
  assert (Hrun : score_cell_cycle adata cc None = Done (["Mcm5"], []))
    by (vm_compute; reflexivity).
  destruct (score_cell_cycle_selection adata cc None ["Mcm5"] [] Hrun)
    as [[H _] _].
  exact H.
Defined.

End CellCycleFacts.
